(** * Student Management System: a shallow embedding of RefactorCode.cpp

    The model follows the C++ source class by class.  Floating-point data
    ([float] marks, percentages and GPAs) are IEEE binary32 values with
    round-to-nearest-even arithmetic; console input is taken as already
    parsed arguments; the two persisted text formats are modelled at the
    level of characters, through the stream extraction and insertion
    operators the source uses. *)

From Stdlib Require Import ZArith List Bool Ascii String Lia.
From Stdlib Require Import Permutation Sorted.
From Stdlib Require Import Floats.SpecFloat.
Import ListNotations.
Open Scope Z_scope.

(* ================================================================== *)
(** * Part I: the program                                              *)
(* ================================================================== *)

(** ** [float]: IEEE 754 binary32 *)

Module F32.

Definition prec : Z := 24.
Definition emax : Z := 128.

Definition t := spec_float.

Definition add : t -> t -> t := SFadd prec emax.
Definition mul : t -> t -> t := SFmul prec emax.
Definition div : t -> t -> t := SFdiv prec emax.

(** Conversion of an integer ([int] or [size_t]) to [float]. *)
Definition of_Z (z : Z) : t := binary_normalize prec emax z 0 false.

(** The C++ comparison operators on [float]; every comparison with a NaN
    is false. *)
Definition ltb (a b : t) : bool := SFltb a b.
Definition leb (a b : t) : bool := SFleb a b.
Definition gtb (a b : t) : bool := SFltb b a.
Definition geb (a b : t) : bool := SFleb b a.

Definition zero : t := S754_zero false.
Definition max_float : t := SFmax_float prec emax.

Definition is_finite (x : t) : bool :=
  match x with
  | S754_zero _ | S754_finite _ _ _ => true
  | _ => false
  end.

End F32.

Definition float : Type := F32.t.

(** ** [double]: IEEE 754 binary64, used where the source mixes a [float]
    with a [double] literal *)

Module F64.

Definition prec : Z := 53.
Definition emax : Z := 1024.

Definition t := spec_float.

Definition mul : t -> t -> t := SFmul prec emax.
Definition div : t -> t -> t := SFdiv prec emax.
Definition of_Z (z : Z) : t := binary_normalize prec emax z 0 false.

(** The implicit conversion [float -> double] is exact; the mantissa is
    renormalised to 53 bits. *)
Definition of_float (x : F32.t) : t :=
  match x with
  | S754_finite s m e => binary_round prec emax s m e
  | _ => x
  end.

End F64.

Definition f0 : float := F32.zero.
Definition f1 : float := Eval cbv in F32.of_Z 1.
Definition f2 : float := Eval cbv in F32.of_Z 2.
Definition f3 : float := Eval cbv in F32.of_Z 3.
Definition f4 : float := Eval cbv in F32.of_Z 4.
Definition f5 : float := Eval cbv in F32.of_Z 5.
Definition f60 : float := Eval cbv in F32.of_Z 60.
Definition f70 : float := Eval cbv in F32.of_Z 70.
Definition f80 : float := Eval cbv in F32.of_Z 80.
Definition f90 : float := Eval cbv in F32.of_Z 90.
Definition f100 : float := Eval cbv in F32.of_Z 100.
Definition fminus1 : float := Eval cbv in F32.of_Z (-1).

(** ** Base classes *)

Record AttendanceRecord := {
  date : string;
  status : string  (* "Present" or "Absent" *)
}.

(** [float marks[5]] *)
Record Marks := {
  mark0 : float; mark1 : float; mark2 : float; mark3 : float; mark4 : float
}.

Definition marks_list (m : Marks) : list float :=
  [mark0 m; mark1 m; mark2 m; mark3 m; mark4 m].

Record Student := {
  name : string;
  rollNo : Z;
  studentClass : string;
  age : Z;
  gender : string;
  marks : Marks;
  percentage : float;
  grade : ascii;
  attendanceRecords : list AttendanceRecord;
  gpa : float
}.

(** A default-constructed [Student]: the in-class initialisers of the
    struct ([marks = {}], [percentage = 0], [grade = 'F'], [gpa = 0.0]).
    The two [int] members have no initialiser; every path of the source
    assigns them before the record is stored, and the model starts them
    at 0. *)
Definition zero_marks : Marks := Build_Marks f0 f0 f0 f0 f0.

Definition default_Student : Student := {|
  name := ""%string; rollNo := 0; studentClass := ""%string; age := 0;
  gender := ""%string;
  marks := zero_marks; percentage := f0; grade := "F"%char;
  attendanceRecords := []; gpa := f0
|}.

(** ** Interfaces *)

Module IGradeStrategy.
Record t := {
  calculateGrade : float -> ascii;
  calculateGPA : float -> float
}.
End IGradeStrategy.

Module IGradeCalculator.
Record t := { calculateGrade : Student -> Student }.
End IGradeCalculator.

(** ** DefaultGradeStrategy *)

Module DefaultGradeStrategy.

Definition calculateGrade (percentage : float) : ascii :=
  if F32.geb percentage f90 then "A"%char
  else if F32.geb percentage f80 then "B"%char
  else if F32.geb percentage f70 then "C"%char
  else if F32.geb percentage f60 then "D"%char
  else "F"%char.

Definition calculateGPA (percentage : float) : float :=
  if F32.geb percentage f90 then f4
  else if F32.geb percentage f80 then f3
  else if F32.geb percentage f70 then f2
  else if F32.geb percentage f60 then f1
  else f0.

Definition strategy : IGradeStrategy.t :=
  {| IGradeStrategy.calculateGrade := calculateGrade;
     IGradeStrategy.calculateGPA := calculateGPA |}.

End DefaultGradeStrategy.

(** ** GradeCalculator *)

Module GradeCalculator.

(** [for (float mark : s.marks) total += mark;] *)
Definition total (m : Marks) : float :=
  fold_left F32.add (marks_list m) f0.

Definition calculateGrade (strategy : IGradeStrategy.t) (s : Student) : Student :=
  let p := F32.div (total (marks s)) f5 in
  {| name := name s; rollNo := rollNo s; studentClass := studentClass s;
     age := age s; gender := gender s; marks := marks s;
     percentage := p;
     grade := IGradeStrategy.calculateGrade strategy p;
     attendanceRecords := attendanceRecords s;
     gpa := IGradeStrategy.calculateGPA strategy p |}.

Definition make (strategy : IGradeStrategy.t) : IGradeCalculator.t :=
  {| IGradeCalculator.calculateGrade := calculateGrade strategy |}.

End GradeCalculator.

(** ** Iterators and algorithms of the C++ library

    A [vector] is a list; an iterator into it is a position, [end()] being
    the length. *)

(** [std::find_if]: the position of the first element satisfying [pred],
    or the length when there is none. *)
Fixpoint find_if {A : Type} (pred : A -> bool) (l : list A) : nat :=
  match l with
  | [] => O
  | x :: r => if pred x then O else S (find_if pred r)
  end.

(** [std::count_if] *)
Definition count_if {A : Type} (pred : A -> bool) (l : list A) : Z :=
  Z.of_nat (List.length (filter pred l)).

(** [*it = v] *)
Fixpoint assign {A : Type} (it : nat) (v : A) (l : list A) : list A :=
  match l, it with
  | [], _ => []
  | _ :: r, O => v :: r
  | x :: r, S i => x :: assign i v r
  end.

(** [std::remove_if] as the library implements it: the first match is
    located with [find_if]; every later element that is kept is moved down
    to [result].  It returns the array and the new logical end.  The slots
    from the new end on hold moved-from values, which the caller erases;
    the model leaves them as they were. *)
Fixpoint remove_if_loop {A : Type} (pred : A -> bool) (n first result : nat)
    (arr : list A) : list A * nat :=
  match n with
  | O => (arr, result)
  | S n' =>
      match nth_error arr first with
      | None => (arr, result)
      | Some x =>
          if pred x then remove_if_loop pred n' (S first) result arr
          else remove_if_loop pred n' (S first) (S result) (assign result x arr)
      end
  end.

Definition remove_if {A : Type} (pred : A -> bool) (arr : list A) : list A * nat :=
  let first := find_if pred arr in
  if Nat.eqb first (List.length arr) then (arr, first)
  else remove_if_loop pred (List.length arr - S first) (S first) first arr.

(** [v.erase(it, v.end())] *)
Definition erase_to_end {A : Type} (it : nat) (l : list A) : list A := firstn it l.

(** [std::sort] is specified by the C++ standard only up to its contract,
    which asks for a comparison that is a strict weak ordering: then the
    result is a rearrangement of the input in which no element is ordered
    before an earlier one.  The order of equivalent elements is left open,
    and so is everything for a comparison that is no such ordering. *)
Definition strict_weak_ordering {A : Type} (comp : A -> A -> bool) : Prop :=
  (forall a, comp a a = false) /\
  (forall a b c, comp a b = true -> comp b c = true -> comp a c = true) /\
  (forall a b c, comp a b = false -> comp b c = false -> comp a c = false).

Definition std_sort_t : Type :=
  forall A : Type, (A -> A -> bool) -> list A -> list A.

Definition conforming (std_sort : std_sort_t) : Prop :=
  forall (A : Type) (comp : A -> A -> bool) (l : list A),
    strict_weak_ordering comp ->
    Permutation l (std_sort A comp l) /\
    StronglySorted (fun a b => comp b a = false) (std_sort A comp l).

(** ** [std::sort] of the GNU C++ library

    The introsort of [bits/stl_algo.h] and the heap routines of
    [bits/stl_heap.h], on a vector held as a list; iterators are
    positions. *)

Module Libstdcxx.

Section Sort.

Context {A : Type}.
Variable comp : A -> A -> bool.

(** The value of a position outside the vector; no such position is read
    when the comparison is a strict weak ordering. *)
Variable outside : A.

Definition at_ (arr : list A) (i : nat) : A := nth i arr outside.

Definition iter_swap (a b : nat) (arr : list A) : list A :=
  assign b (at_ arr a) (assign a (at_ arr b) arr).

Definition move_median_to_first (result a b c : nat) (arr : list A) : list A :=
  if comp (at_ arr a) (at_ arr b) then
    if comp (at_ arr b) (at_ arr c) then iter_swap result b arr
    else if comp (at_ arr a) (at_ arr c) then iter_swap result c arr
    else iter_swap result a arr
  else if comp (at_ arr a) (at_ arr c) then iter_swap result a arr
  else if comp (at_ arr b) (at_ arr c) then iter_swap result c arr
  else iter_swap result b arr.

(** [while (comp(first, pivot)) ++first;] *)
Fixpoint scan_up (fuel : nat) (arr : list A) (first pivot : nat) : nat :=
  match fuel with
  | O => first
  | S f =>
      if comp (at_ arr first) (at_ arr pivot) then scan_up f arr (S first) pivot
      else first
  end.

(** [while (comp(pivot, last)) --last;] *)
Fixpoint scan_down (fuel : nat) (arr : list A) (last pivot : nat) : nat :=
  match fuel with
  | O => last
  | S f =>
      if comp (at_ arr pivot) (at_ arr last) then scan_down f arr (pred last) pivot
      else last
  end.

Fixpoint unguarded_partition (fuel : nat) (first last pivot : nat)
    (arr : list A) : nat * list A :=
  match fuel with
  | O => (first, arr)
  | S f =>
      let first := scan_up (List.length arr) arr first pivot in
      let last := pred last in
      let last := scan_down (List.length arr) arr last pivot in
      if negb (Nat.ltb first last) then (first, arr)
      else unguarded_partition f (S first) last pivot (iter_swap first last arr)
  end.

Definition unguarded_partition_pivot (first last : nat) (arr : list A)
    : nat * list A :=
  let mid := (first + (last - first) / 2)%nat in
  let arr := move_median_to_first first (S first) mid (pred last) arr in
  unguarded_partition (List.length arr) (S first) last first arr.

(** *** Heap routines *)

Fixpoint push_heap_loop (fuel : nat) (first holeIndex topIndex : nat)
    (value : A) (arr : list A) : list A :=
  let parent := ((holeIndex - 1) / 2)%nat in
  match fuel with
  | O => assign (first + holeIndex) value arr
  | S f =>
      if (Nat.ltb topIndex holeIndex && comp (at_ arr (first + parent)) value)%bool
      then push_heap_loop f first parent topIndex value
             (assign (first + holeIndex) (at_ arr (first + parent)) arr)
      else assign (first + holeIndex) value arr
  end.

Definition push_heap (first holeIndex topIndex : nat) (value : A)
    (arr : list A) : list A :=
  push_heap_loop holeIndex first holeIndex topIndex value arr.

(** The first loop of [__adjust_heap]: the hole moves down to the larger
    child. *)
Fixpoint sift_down (fuel : nat) (first holeIndex secondChild len : nat)
    (arr : list A) : nat * nat * list A :=
  match fuel with
  | O => (holeIndex, secondChild, arr)
  | S f =>
      if Nat.ltb secondChild ((len - 1) / 2) then
        let secondChild := (2 * (secondChild + 1))%nat in
        let secondChild :=
          if comp (at_ arr (first + secondChild))
                  (at_ arr (first + (secondChild - 1)))
          then (secondChild - 1)%nat else secondChild in
        sift_down f first secondChild secondChild len
          (assign (first + holeIndex) (at_ arr (first + secondChild)) arr)
      else (holeIndex, secondChild, arr)
  end.

Definition adjust_heap (first holeIndex len : nat) (value : A) (arr : list A)
    : list A :=
  let topIndex := holeIndex in
  let '(holeIndex, secondChild, arr) :=
    sift_down len first holeIndex holeIndex len arr in
  let '(holeIndex, arr) :=
    if (Nat.even len && Nat.eqb secondChild ((len - 2) / 2))%bool then
      let secondChild := (2 * (secondChild + 1))%nat in
      ((secondChild - 1)%nat,
       assign (first + holeIndex) (at_ arr (first + (secondChild - 1))) arr)
    else (holeIndex, arr) in
  push_heap first holeIndex topIndex value arr.

Definition pop_heap (first last result : nat) (arr : list A) : list A :=
  let value := at_ arr result in
  let arr := assign result (at_ arr first) arr in
  adjust_heap first 0 (last - first) value arr.

Fixpoint make_heap_loop (parent first len : nat) (arr : list A) : list A :=
  let arr := adjust_heap first parent len (at_ arr (first + parent)) arr in
  match parent with
  | O => arr
  | S p => make_heap_loop p first len arr
  end.

Definition make_heap (first last : nat) (arr : list A) : list A :=
  if Nat.ltb (last - first) 2 then arr
  else make_heap_loop ((last - first - 2) / 2) first (last - first) arr.

(** [for (i = middle; i < last; ++i) if (comp(i, first)) pop_heap(...);] *)
Fixpoint heap_select_loop (n i first middle : nat) (arr : list A) : list A :=
  match n with
  | O => arr
  | S n' =>
      heap_select_loop n' (S i) first middle
        (if comp (at_ arr i) (at_ arr first) then pop_heap first middle i arr
         else arr)
  end.

Definition heap_select (first middle last : nat) (arr : list A) : list A :=
  heap_select_loop (last - middle) middle first middle
    (make_heap first middle arr).

(** [while (last - first > 1) { --last; pop_heap(first, last, last); }],
    by the number [n] of elements still in the heap. *)
Fixpoint sort_heap_loop (n first : nat) (arr : list A) : list A :=
  match n with
  | S (S _ as n') =>
      sort_heap_loop n' first (pop_heap first (first + n') (first + n') arr)
  | _ => arr
  end.

Definition sort_heap (first last : nat) (arr : list A) : list A :=
  sort_heap_loop (last - first) first arr.

Definition partial_sort (first middle last : nat) (arr : list A) : list A :=
  sort_heap first middle (heap_select first middle last arr).

(** *** Introsort *)

Definition threshold : nat := 16.

(** Every turn of the loop and every recursive call lowers the depth
    limit, which bounds the recursion. *)
Fixpoint introsort_loop (depth_limit : nat) (first last : nat) (arr : list A)
    : list A :=
  if Nat.ltb threshold (last - first) then
    match depth_limit with
    | O => partial_sort first last last arr
    | S depth_limit =>
        let '(cut, arr) := unguarded_partition_pivot first last arr in
        let arr := introsort_loop depth_limit cut last arr in
        introsort_loop depth_limit first cut arr
    end
  else arr.

(** The scan has no bound of its own: the caller makes sure that it stops
    inside the range. *)
Fixpoint unguarded_linear_insert_loop (fuel : nat) (val : A) (last : nat)
    (arr : list A) : list A :=
  match fuel, last with
  | S f, S next =>
      if comp val (at_ arr next)
      then unguarded_linear_insert_loop f val next (assign last (at_ arr next) arr)
      else assign last val arr
  | _, _ => assign last val arr
  end.

Definition unguarded_linear_insert (last : nat) (arr : list A) : list A :=
  unguarded_linear_insert_loop last (at_ arr last) last arr.

(** [move_backward(first, first + n, first + n + 1)] *)
Fixpoint move_backward (n first : nat) (arr : list A) : list A :=
  match n with
  | O => arr
  | S k => move_backward k first (assign (first + k + 1) (at_ arr (first + k)) arr)
  end.

(** The loop of [__insertion_sort] from position [i], [n] positions to
    go. *)
Fixpoint insertion_sort_loop (n i first : nat) (arr : list A) : list A :=
  match n with
  | O => arr
  | S n' =>
      insertion_sort_loop n' (S i) first
        (if comp (at_ arr i) (at_ arr first) then
           let val := at_ arr i in
           assign first val (move_backward (i - first) first arr)
         else unguarded_linear_insert i arr)
  end.

Definition insertion_sort (first last : nat) (arr : list A) : list A :=
  if Nat.eqb first last then arr
  else insertion_sort_loop (last - S first) (S first) first arr.

Fixpoint unguarded_insertion_sort_loop (n i : nat) (arr : list A) : list A :=
  match n with
  | O => arr
  | S n' => unguarded_insertion_sort_loop n' (S i) (unguarded_linear_insert i arr)
  end.

Definition unguarded_insertion_sort (first last : nat) (arr : list A) : list A :=
  unguarded_insertion_sort_loop (last - first) first arr.

Definition final_insertion_sort (first last : nat) (arr : list A) : list A :=
  if Nat.ltb threshold (last - first) then
    unguarded_insertion_sort (first + threshold) last
      (insertion_sort first (first + threshold) arr)
  else insertion_sort first last arr.

End Sort.

(** [std::sort(v.begin(), v.end(), comp)] *)
Definition sort : std_sort_t := fun A comp l =>
  match l with
  | [] => []
  | x :: _ =>
      let n := List.length l in
      final_insertion_sort comp x 0 n
        (introsort_loop comp x (2 * Nat.log2 n) 0 n l)
  end.

End Libstdcxx.

(** ** Text: characters, decimal numerals *)

Definition text := list ascii.

Definition txt (s : string) : text := list_ascii_of_string s.

(** [isspace] in the C locale: space, and the controls 9 to 13. *)
Definition isspace (c : ascii) : bool :=
  let n := nat_of_ascii c in
  (Nat.eqb n 32 || (Nat.leb 9 n && Nat.leb n 13))%bool.

Definition isdigit (c : ascii) : bool :=
  let n := nat_of_ascii c in (Nat.leb 48 n && Nat.leb n 57)%bool.

Definition digit_value (c : ascii) : Z := Z.of_nat (nat_of_ascii c) - 48.

Definition digit_char (d : Z) : ascii := ascii_of_nat (Z.to_nat (48 + d)).

(** The decimal digits of [n >= 0] are pushed in front of [acc]. *)
Fixpoint digits_fuel (fuel : nat) (n : Z) (acc : text) : text :=
  match fuel with
  | O => acc
  | S f =>
      let acc' := digit_char (n mod 10) :: acc in
      if n <? 10 then acc' else digits_fuel f (n / 10) acc'
  end.

Definition print_unsigned (n : Z) : text :=
  digits_fuel (S (Z.to_nat (Z.log2 n))) n [].

Definition print_int (z : Z) : text :=
  if z <? 0 then "-"%char :: print_unsigned (- z) else print_unsigned z.

(** Exactly [n] digits of [v], the most significant first, padded with
    zeros. *)
Fixpoint pad_digits (n : nat) (v : Z) (acc : text) : text :=
  match n with
  | O => acc
  | S k => pad_digits k (v / 10) (digit_char (v mod 10) :: acc)
  end.

(** The value of a run of digits read after [acc]. *)
Fixpoint digits_value (ds : text) (acc : Z) : Z :=
  match ds with
  | [] => acc
  | c :: r => digits_value r (acc * 10 + digit_value c)
  end.

(** The longest prefix of characters satisfying [p], and what follows. *)
Fixpoint span (p : ascii -> bool) (t : text) : text * text :=
  match t with
  | [] => ([], [])
  | c :: r =>
      if p c then let '(a, b) := span p r in (c :: a, b) else ([], t)
  end.

Definition skipws (t : text) : text := snd (span isspace t).

Definition int_min : Z := - 2 ^ 31.
Definition int_max : Z := 2 ^ 31 - 1.

(** ** Formatting a [float] as [printf] does

    A finite non-zero float is the exact fraction [num / den]. *)

Definition float_num (m : positive) (e : Z) : Z :=
  if e <? 0 then Zpos m else Zpos m * 2 ^ e.

Definition float_den (e : Z) : Z :=
  if e <? 0 then 2 ^ (- e) else 1.

(** The integer nearest to [n / d], ties to the even one. *)
Definition rne_div (n d : Z) : Z :=
  let q := n / d in
  match (2 * (n mod d)) ?= d with
  | Lt => q
  | Gt => q + 1
  | Eq => if Z.even q then q else q + 1
  end.

(** The integer nearest to [(num / den) / 10 ^ k], for any sign of [k]. *)
Definition scaled (num den k : Z) : Z :=
  if k <? 0 then rne_div (num * 10 ^ (- k)) den
  else rne_div num (den * 10 ^ k).

Fixpoint log10_up (fuel : nat) (q k : Z) : Z :=
  match fuel with
  | O => k
  | S f => if q <? 10 then k else log10_up f (q / 10) (k + 1)
  end.

Fixpoint log10_down (fuel : nat) (num den j : Z) : Z :=
  match fuel with
  | O => j
  | S f => if den <=? num then j else log10_down f (num * 10) den (j - 1)
  end.

(** The decimal exponent [X] with [10 ^ X <= num / den < 10 ^ (X + 1)]. *)
Definition floor_log10 (num den : Z) : Z :=
  if den <=? num
  then log10_up (S (Z.to_nat (Z.log2 (num / den)))) (num / den) 0
  else log10_down (S (Z.to_nat (Z.log2 den))) num den 0.

Definition sign_text (s : bool) : text := if s then ["-"%char] else [].

(** Removal of the trailing zeros of a fraction. *)
Definition strip_zeros (frac : text) : text :=
  rev (snd (span (Ascii.eqb "0") (rev frac))).

Definition with_fraction (int_part frac : text) : text :=
  match frac with
  | [] => int_part
  | _ => int_part ++ "."%char :: frac
  end.

(** [%.Pf].  A NaN is written as [nan] here; the library writes [nan] or
    [-nan], by the sign bit of the NaN, which [float] does not carry. *)
Definition print_fixed (P : Z) (x : float) : text :=
  match x with
  | S754_nan => txt "nan"
  | S754_infinity s => sign_text s ++ txt "inf"
  | S754_zero s =>
      sign_text s ++ with_fraction ["0"%char] (pad_digits (Z.to_nat P) 0 [])
  | S754_finite s m e =>
      let N := scaled (float_num m e) (float_den e) (- P) in
      sign_text s ++
      with_fraction (print_unsigned (N / 10 ^ P))
                    (pad_digits (Z.to_nat P) (N mod 10 ^ P) [])
  end.

(** [%.Pg]: [P] significant digits, in scientific style when the decimal
    exponent is below -4 or at least [P], trailing zeros removed.  A NaN
    is written as in [print_fixed]. *)
Definition print_general (P : Z) (x : float) : text :=
  let P := if P =? 0 then 1 else P in
  match x with
  | S754_nan => txt "nan"
  | S754_infinity s => sign_text s ++ txt "inf"
  | S754_zero s => sign_text s ++ ["0"%char]
  | S754_finite s m e =>
      let num := float_num m e in
      let den := float_den e in
      let X0 := floor_log10 num den in
      let N0 := scaled num den (X0 - P + 1) in
      let '(N, X) := if 10 ^ P <=? N0 then (N0 / 10, X0 + 1) else (N0, X0) in
      sign_text s ++
      if ((X <? -4) || (P <=? X))%bool then
        with_fraction (pad_digits 1 (N / 10 ^ (P - 1)) [])
          (strip_zeros (pad_digits (Z.to_nat (P - 1)) (N mod 10 ^ (P - 1)) []))
        ++ "e"%char :: (if X <? 0 then "-"%char else "+"%char)
        :: (if Z.abs X <? 10 then pad_digits 2 (Z.abs X) []
            else print_unsigned (Z.abs X))
      else
        let decimals := P - 1 - X in
        with_fraction (print_unsigned (N / 10 ^ decimals))
          (strip_zeros (pad_digits (Z.to_nat decimals) (N mod 10 ^ decimals) []))
  end.

(** ** Reading a floating constant as [strtof] does *)

Definition is_sign (c : ascii) : bool :=
  (Ascii.eqb c "+" || Ascii.eqb c "-")%bool.

Definition is_e (c : ascii) : bool :=
  (Ascii.eqb c "e" || Ascii.eqb c "E")%bool.

Definition is_p (c : ascii) : bool :=
  (Ascii.eqb c "p" || Ascii.eqb c "P")%bool.

Definition tolower (c : ascii) : ascii :=
  let n := nat_of_ascii c in
  if (Nat.leb 65 n && Nat.leb n 90)%bool then ascii_of_nat (n + 32) else c.

Definition isalpha (c : ascii) : bool :=
  let n := nat_of_ascii (tolower c) in (Nat.leb 97 n && Nat.leb n 122)%bool.

Definition isxdigit (c : ascii) : bool :=
  let n := nat_of_ascii (tolower c) in
  (isdigit c || (Nat.leb 97 n && Nat.leb n 102))%bool.

Definition xdigit_value (c : ascii) : Z :=
  if isdigit c then digit_value c
  else Z.of_nat (nat_of_ascii (tolower c)) - 87.

Fixpoint xdigits_value (ds : text) (acc : Z) : Z :=
  match ds with
  | [] => acc
  | c :: r => xdigits_value r (acc * 16 + xdigit_value c)
  end.

(** What follows [t] after the word [p], matched without regard to
    case. *)
Fixpoint after_word (p t : text) : option text :=
  match p, t with
  | [], _ => Some t
  | a :: p', c :: t' => if Ascii.eqb (tolower c) a then after_word p' t' else None
  | _ :: _, [] => None
  end.

(** The exponent part, introduced by a character satisfying [marker], is
    taken only when at least one digit follows. *)
Definition scan_exponent (marker : ascii -> bool) (t : text) : Z * text :=
  match t with
  | c :: r =>
      if marker c then
        let '(neg, r') :=
          match r with
          | c2 :: r2 => if is_sign c2 then (Ascii.eqb c2 "-", r2) else (false, r)
          | [] => (false, r)
          end in
        let '(ds, rest) := span isdigit r' in
        match ds with
        | [] => (0, t)
        | _ => ((if neg then - digits_value ds 0 else digits_value ds 0), rest)
        end
      else (0, t)
  | [] => (0, t)
  end.

(** The digits before and after the point. *)
Definition scan_mantissa (digit : ascii -> bool) (t : text) : text * text * text :=
  let '(ip, t2) := span digit t in
  let '(fp, t3) :=
    match t2 with
    | c :: r => if Ascii.eqb c "." then span digit r else ([], t2)
    | [] => ([], t2)
    end in
  match ip ++ fp with
  | [] => ([], [], t)
  | _ => (ip, fp, t3)
  end.

(** [N * base ^ ex] as a fraction. *)
Definition scaled_fraction (N base ex : Z) : Z * Z :=
  if 0 <=? ex then (N * base ^ ex, 1) else (N, base ^ (- ex)).

(** The magnitude of the longest prefix that is a decimal constant, as a
    fraction, and what follows it. *)
Definition scan_decimal (t : text) : option (Z * Z * text) :=
  let '(ip, fp, t3) := scan_mantissa isdigit t in
  match ip ++ fp with
  | [] => None
  | ds =>
      let '(ex, t4) := scan_exponent is_e t3 in
      Some (scaled_fraction (digits_value ds 0) 10
              (ex - Z.of_nat (List.length fp)), t4)
  end.

(** The same for the hexadecimal digits that follow [0x]. *)
Definition scan_hexadecimal (t : text) : option (Z * Z * text) :=
  let '(ip, fp, t3) := scan_mantissa isxdigit t in
  match ip ++ fp with
  | [] => None
  | ds =>
      let '(ex, t4) := scan_exponent is_p t3 in
      Some (scaled_fraction (xdigits_value ds 0) 2
              (ex - 4 * Z.of_nat (List.length fp)), t4)
  end.

(** [nan] may be followed by a parenthesised run of letters, digits and
    underscores. *)
Definition scan_nan_sequence (t : text) : text :=
  match t with
  | c :: r =>
      if Ascii.eqb c "(" then
        match snd (span (fun c => (isalpha c || isdigit c || Ascii.eqb c "_")%bool) r) with
        | c' :: r' => if Ascii.eqb c' ")" then r' else t
        | [] => t
        end
      else t
  | [] => t
  end.

Inductive constant :=
| Finite (neg : bool) (num den : Z)
| Infinite (neg : bool)
| NotANumber.

(** The subject sequence of [strtof]: leading white space, a sign, and an
    infinity, a NaN, a hexadecimal or a decimal constant. *)
Definition scan_constant (t : text) : option (constant * text) :=
  let t0 := skipws t in
  let '(neg, t1) :=
    match t0 with
    | c :: r => if is_sign c then (Ascii.eqb c "-", r) else (false, t0)
    | [] => (false, t0)
    end in
  let finite r :=
    match r with
    | Some (num, den, rest) => Some (Finite neg num den, rest)
    | None => None
    end in
  match after_word (txt "infinity") t1 with
  | Some rest => Some (Infinite neg, rest)
  | None =>
  match after_word (txt "inf") t1 with
  | Some rest => Some (Infinite neg, rest)
  | None =>
  match after_word (txt "nan") t1 with
  | Some rest => Some (NotANumber, scan_nan_sequence rest)
  | None =>
  match after_word (txt "0x") t1 with
  | Some rest =>
      match scan_hexadecimal rest with
      | Some r => finite (Some r)
      | None => finite (scan_decimal t1)
      end
  | None => finite (scan_decimal t1)
  end end end end.

(** The float of precision [prec] nearest to [num / den], ties to even;
    an overflow gives an infinity. *)
Definition round_fraction (prec emax : Z) (neg : bool) (num den : Z)
    : spec_float :=
  match num with
  | Zpos _ =>
      let '(q, e, l) := SFdiv_core_binary prec emax num 0 den 0 in
      binary_round_aux prec emax neg q e l
  | _ => S754_zero neg
  end.

(** The float is exactly [num / den]. *)
Definition is_exact (num den : Z) (v : spec_float) : bool :=
  match v with
  | S754_finite _ m e =>
      (if e <? 0 then Zpos m else Zpos m * 2 ^ e) * den
      =? num * (if e <? 0 then 2 ^ (- e) else 1)
  | S754_zero _ => num =? 0
  | _ => false
  end.

(** The smallest positive normal [float]. *)
Definition min_normal : float := S754_finite false 8388608 (-149).

(** Underflow: the value, rounded to 24 bits without a bound on the
    exponent, is below the normal range. *)
Definition is_tiny (num den : Z) : bool :=
  SFltb (round_fraction F32.prec 1024 false num den) min_normal.

(** [strtof]: the correctly rounded value, whether the range error is
    raised, and what follows the constant; [None] when no conversion can
    be performed. *)
Definition strtof (t : text) : option (float * bool * text) :=
  match scan_constant t with
  | None => None
  | Some (Infinite neg, rest) => Some (S754_infinity neg, false, rest)
  | Some (NotANumber, rest) => Some (S754_nan, false, rest)
  | Some (Finite neg num den, rest) =>
      let v := round_fraction F32.prec F32.emax neg num den in
      let range_error :=
        match v with
        | S754_infinity _ => true
        | _ => (negb (num =? 0) && is_tiny num den && negb (is_exact num den v))%bool
        end in
      Some (v, range_error, rest)
  end.

(** ** Input streams

    An [ifstream] or [stringstream]: the characters not yet read and the
    two state bits the source depends on.  A stream that could not be
    opened starts with [failbit] set. *)

Record istream := {
  buf : text;
  eofbit : bool;
  failbit : bool
}.

Definition open_istream (content : option text) : istream :=
  match content with
  | Some t => {| buf := t; eofbit := false; failbit := false |}
  | None => {| buf := []; eofbit := false; failbit := true |}
  end.

(** The state after an extraction that left [rest] unread: reaching the
    end of the input sets [eofbit]. *)
Definition advanced (rest : text) (failed : bool) : istream :=
  {| buf := rest;
     eofbit := match rest with [] => true | _ => false end;
     failbit := failed |}.

(** The sentry of a formatted input function: it fails on a stream that is
    not [good()]; otherwise it skips white space, and fails at the end of
    the input.  The boolean tells whether extraction may proceed. *)
Definition sentry (ins : istream) : istream * bool :=
  if (eofbit ins || failbit ins)%bool
  then ({| buf := buf ins; eofbit := eofbit ins; failbit := true |}, false)
  else
    match skipws (buf ins) with
    | [] => ({| buf := []; eofbit := true; failbit := true |}, false)
    | t => ({| buf := t; eofbit := false; failbit := false |}, true)
    end.

(** [is >> str]: the variable keeps its value when the sentry fails. *)
Definition extract_string (ins : istream) (old : string) : string * istream :=
  let '(ins', ok) := sentry ins in
  if ok then
    let '(tok, rest) := span (fun c => negb (isspace c)) (buf ins') in
    (string_of_list_ascii tok, advanced rest false)
  else (old, ins').

(** The integer field read by [num_get]: an optional sign and a run of
    digits; [None] when there is no digit. *)
Definition scan_int (t : text) : option Z * text :=
  let '(neg, t1) :=
    match t with
    | c :: r => if is_sign c then (Ascii.eqb c "-", r) else (false, t)
    | [] => (false, t)
    end in
  let '(ds, rest) := span isdigit t1 in
  match ds with
  | [] => (None, rest)
  | _ => (Some (if neg then - digits_value ds 0 else digits_value ds 0), rest)
  end.

(** [is >> n] for an [int].  The first component is [None] when the
    variable is not written at all (the sentry failed); a field without
    digits stores 0, one outside the range of [int] stores the nearest
    bound, and both set [failbit]. *)
Definition get_int (ins : istream) : option Z * istream :=
  let '(ins', ok) := sentry ins in
  if ok then
    let '(v, rest) := scan_int (buf ins') in
    match v with
    | None => (Some 0, advanced rest true)
    | Some z =>
        if z <? int_min then (Some int_min, advanced rest true)
        else if int_max <? z then (Some int_max, advanced rest true)
        else (Some z, advanced rest false)
    end
  else (None, ins').

Definition extract_int (ins : istream) (old : Z) : Z * istream :=
  let '(v, ins') := get_int ins in
  (match v with Some z => z | None => old end, ins').

(** The characters [num_get] accumulates for a floating-point field, after
    the sign and the leading zeros. *)
Fixpoint float_chars (t : text) (found_mantissa found_dec found_sci : bool)
    : text * text :=
  match t with
  | [] => ([], [])
  | c :: r =>
      if isdigit c then
        let '(a, b) := float_chars r true found_dec found_sci in (c :: a, b)
      else if (Ascii.eqb c "." && negb found_dec && negb found_sci)%bool then
        let '(a, b) := float_chars r found_mantissa true found_sci in (c :: a, b)
      else if (is_e c && negb found_sci && found_mantissa)%bool then
        match r with
        | [] => (["e"%char], [])
        | c2 :: r2 =>
            if is_sign c2 then
              let '(a, b) := float_chars r2 found_mantissa found_dec true in
              ("e"%char :: c2 :: a, b)
            else
              let '(a, b) := float_chars r found_mantissa found_dec true in
              ("e"%char :: a, b)
        end
      else ([], t)
  end.

Definition accumulate_float (t : text) : text * text :=
  let '(sgn, t1) :=
    match t with
    | c :: r => if is_sign c then ([c], r) else ([], t)
    | [] => ([], t)
    end in
  let '(zs, t2) := span (Ascii.eqb "0") t1 in
  let found_zero := match zs with [] => false | _ => true end in
  let '(body, rest) := float_chars t2 found_zero false false in
  (sgn ++ (if found_zero then ["0"%char] else []) ++ body, rest).

(** The conversion of the accumulated characters by [strtof]: it
    succeeds only when they are converted as a whole.  A failed conversion
    stores 0; an overflow stores the largest finite value of its sign;
    both set [failbit].  An underflow is not reported. *)
Definition convert_float (xtrc : text) : float * bool :=
  match xtrc, strtof xtrc with
  | _ :: _, Some (v, _, []) =>
      match v with
      | S754_infinity sg =>
          ((if sg then SFopp F32.max_float else F32.max_float), true)
      | _ => (v, false)
      end
  | _, _ => (f0, true)
  end.

(** [is >> x] for a [float] *)
Definition get_float (ins : istream) : option float * istream :=
  let '(ins', ok) := sentry ins in
  if ok then
    let '(xtrc, rest) := accumulate_float (buf ins') in
    let '(v, failed) := convert_float xtrc in
    (Some v, advanced rest failed)
  else (None, ins').

Definition extract_float (ins : istream) (old : float) : float * istream :=
  let '(v, ins') := get_float ins in
  (match v with Some x => x | None => old end, ins').

(** [std::getline(is, str, delim)]: an unformatted input function; its
    sentry does not skip white space.  The delimiter is extracted and
    dropped.  [failbit] is set when nothing at all was extracted. *)
Definition getline (delim : ascii) (ins : istream) (old : string)
    : string * istream :=
  if (eofbit ins || failbit ins)%bool
  then (old, {| buf := buf ins; eofbit := eofbit ins; failbit := true |})
  else
    let '(line, rest) := span (fun c => negb (Ascii.eqb c delim)) (buf ins) in
    match rest with
    | _ :: rest' =>
        (string_of_list_ascii line,
         {| buf := rest'; eofbit := false; failbit := false |})
    | [] =>
        (string_of_list_ascii line,
         {| buf := []; eofbit := true;
            failbit := match line with [] => true | _ => false end |})
    end.

(** ** Output streams: the characters written and the floating-point
    format in force *)

Record ostream := {
  written : text;
  fixed : bool;
  precision : Z
}.

Definition new_ostream : ostream :=
  {| written := []; fixed := false; precision := 6 |}.

Definition put_text (t : text) (os : ostream) : ostream :=
  {| written := written os ++ t; fixed := fixed os; precision := precision os |}.

Definition put_string (s : string) : ostream -> ostream := put_text (txt s).

Definition put_int (z : Z) : ostream -> ostream := put_text (print_int z).

Definition print_float (fixed' : bool) (precision' : Z) (x : float) : text :=
  if fixed' then print_fixed precision' x else print_general precision' x.

Definition put_float (x : float) (os : ostream) : ostream :=
  put_text (print_float (fixed os) (precision os) x) os.

(** [os << fixed] and [os << setprecision(n)]: both stay in force for
    everything written afterwards. *)
Definition set_fixed (os : ostream) : ostream :=
  {| written := written os; fixed := true; precision := precision os |}.

Definition setprecision (n : Z) (os : ostream) : ostream :=
  {| written := written os; fixed := fixed os; precision := n |}.

Notation "os <<< f" := (f os) (at level 50, left associativity, only parsing).

(** ** Exceptions of the C++ library that the modelled code can raise *)

Inductive exception :=
| out_of_range       (* std::string::substr, std::stoi, std::stof *)
| invalid_argument   (* std::stoi, std::stof *)
| length_error.      (* std::vector::resize *)

(** [std::string::substr(pos, len)]: raises [out_of_range] when [pos]
    exceeds the size; otherwise the characters from [pos], at most [len]. *)
Definition substr (pos len : nat) (s : string) : exception + string :=
  if Nat.ltb (String.length s) pos then inl out_of_range
  else inr (String.substring pos len s).

(** Sequencing of computations that may raise. *)
Definition bind {A B : Type} (x : exception + A) (k : A -> exception + B)
    : exception + B :=
  match x with
  | inl e => inl e
  | inr a => k a
  end.

Notation "x <- c1 ;; c2" := (bind c1 (fun x => c2))
  (at level 61, c1 at next level, right associativity).

(** [std::stoi]: leading white space, a sign, digits; what follows is
    ignored. *)
Definition stoi (s : string) : exception + Z :=
  match scan_int (skipws (txt s)) with
  | (None, _) => inl invalid_argument
  | (Some z, _) =>
      if ((z <? int_min) || (int_max <? z))%bool then inl out_of_range
      else inr z
  end.

(** [std::stof]: no conversion raises [invalid_argument], a range error
    of [strtof] raises [out_of_range]; what follows the constant is
    ignored. *)
Definition stof (s : string) : exception + float :=
  match strtof (txt s) with
  | None => inl invalid_argument
  | Some (_, true, _) => inl out_of_range
  | Some (v, false, _) => inr v
  end.

(** [std::vector::resize(n)] with default-constructed new elements. *)
Definition resize {A : Type} (default : A) (n : nat) (l : list A) : list A :=
  firstn n l ++ repeat default (n - List.length l).

(** [toupper] in the C locale *)
Definition toupper (c : ascii) : ascii :=
  let n := nat_of_ascii c in
  if (Nat.leb 97 n && Nat.leb n 122)%bool then ascii_of_nat (n - 32) else c.

(** [std::map<char, int>]: an association list kept in increasing key
    order; [char] is signed. *)
Definition char_value (c : ascii) : Z :=
  let n := Z.of_nat (nat_of_ascii c) in
  if n <? 128 then n else n - 256.

(** [m[k]++] *)
Fixpoint map_increment (k : ascii) (m : list (ascii * Z)) : list (ascii * Z) :=
  match m with
  | [] => [(k, 1)]
  | (k', n) :: r =>
      if char_value k <? char_value k' then (k, 1) :: m
      else if char_value k =? char_value k' then (k', n + 1) :: r
      else (k', n) :: map_increment k r
  end.

(** ** FileHandler: the native store *)

Module FileHandler.

Definition space : text := [" "%char].
Definition newline : text := ["010"%char].

(** The body of the loop of [saveToFile]: one record. *)
Definition save_student (s : Student) (file : ostream) : ostream :=
  let file :=
    file <<< put_string (name s) <<< put_text space <<< put_int (rollNo s)
         <<< put_text space <<< put_string (studentClass s)
         <<< put_text space <<< put_int (age s)
         <<< put_text space <<< put_string (gender s) in
  let file :=
    fold_left (fun f mark => f <<< put_text space <<< put_float mark)
              (marks_list (marks s)) file in
  let file :=
    file <<< put_text space
         <<< put_int (Z.of_nat (List.length (attendanceRecords s))) in
  let file :=
    fold_left (fun f att => f <<< put_text space <<< put_string (date att)
                              <<< put_text space <<< put_string (status att))
              (attendanceRecords s) file in
  file <<< put_text space <<< set_fixed <<< setprecision 2
       <<< put_float (gpa s) <<< put_text newline.

(** [saveToFile]: the content of the file written. *)
Definition saveToFile (students : list Student) : text :=
  written (fold_left (fun file s => save_student s file) students new_ostream).

(** What [loadFromFile] comes to: the vector returned, an exception that
    leaves the function, or the use of [numRecords] while it holds no
    value (its extraction's sentry failed, so it was never written). *)
Inductive LoadResult :=
| Loaded (students : list Student)
| Raised (e : exception)
| IndeterminateCount.

Definition default_AttendanceRecord : AttendanceRecord :=
  {| date := ""%string; status := ""%string |}.

(** [for (i < numRecords) file >> recs[i].date >> recs[i].status;] *)
Fixpoint read_attendance (recs : list AttendanceRecord) (file : istream)
    : list AttendanceRecord * istream :=
  match recs with
  | [] => ([], file)
  | r :: rest =>
      let '(d, file) := extract_string file (date r) in
      let '(st, file) := extract_string file (status r) in
      let '(rest', file) := read_attendance rest file in
      ({| date := d; status := st |} :: rest', file)
  end.

(** The condition of the [while]: the ten leading fields are extracted
    into [s]; the loop goes on when [failbit] is clear afterwards. *)
Definition read_header (file : istream) (s : Student) : Student * istream :=
  let '(name', file) := extract_string file (name s) in
  let '(rollNo', file) := extract_int file (rollNo s) in
  let '(class', file) := extract_string file (studentClass s) in
  let '(age', file) := extract_int file (age s) in
  let '(gender', file) := extract_string file (gender s) in
  let '(m0, file) := extract_float file (mark0 (marks s)) in
  let '(m1, file) := extract_float file (mark1 (marks s)) in
  let '(m2, file) := extract_float file (mark2 (marks s)) in
  let '(m3, file) := extract_float file (mark3 (marks s)) in
  let '(m4, file) := extract_float file (mark4 (marks s)) in
  ({| name := name'; rollNo := rollNo'; studentClass := class'; age := age';
      gender := gender'; marks := Build_Marks m0 m1 m2 m3 m4;
      percentage := percentage s; grade := grade s;
      attendanceRecords := attendanceRecords s; gpa := gpa s |}, file).

(** The loop of [loadFromFile].  The variable [s] lives across the
    iterations.  Every iteration that goes on has consumed input, so the
    length of the file bounds their number ([fuel]). *)
Fixpoint loadFromFile_loop (fuel : nat) (file : istream) (s : Student)
    (students : list Student) : LoadResult :=
  match fuel with
  | O => Loaded students
  | S fuel' =>
      let '(s, file) := read_header file s in
      if failbit file then Loaded students
      else
        match get_int file with
        | (None, _) => IndeterminateCount
        | (Some numRecords, file) =>
            if numRecords <? 0 then Raised length_error
            else
              let recs := resize default_AttendanceRecord (Z.to_nat numRecords)
                                 (attendanceRecords s) in
              let '(recs, file) := read_attendance recs file in
              let '(gpa', file) := extract_float file (gpa s) in
              let s := {| name := name s; rollNo := rollNo s;
                          studentClass := studentClass s; age := age s;
                          gender := gender s; marks := marks s;
                          percentage := percentage s; grade := grade s;
                          attendanceRecords := recs; gpa := gpa' |} in
              loadFromFile_loop fuel' file s (students ++ [s])
        end
  end.

(** [loadFromFile] on the content of the file, [None] when the file cannot
    be opened.  Allocation is assumed to succeed for every non-negative
    count. *)
Definition loadFromFile (content : option text) : LoadResult :=
  let file := open_istream content in
  loadFromFile_loop (S (List.length (buf file))) file default_Student [].

End FileHandler.

(** ** CSVExporter *)

Module CSVExporter.

(** The class has its own copy of the attendance computation. *)
Definition calculateAttendancePercentage (s : Student) : float :=
  match attendanceRecords s with
  | [] => f0
  | _ =>
      let presentCount :=
        count_if (fun r => String.eqb (status r) "Present"%string)
                 (attendanceRecords s) in
      F32.mul
        (F32.div (F32.of_Z presentCount)
                 (F32.of_Z (Z.of_nat (List.length (attendanceRecords s)))))
        f100
  end.

Definition comma : text := [","%char].

Definition header : text :=
  txt "Roll,Name,Class,Age,Gender,Percentage,Grade,GPA,Attendance%"
  ++ FileHandler.newline.

(** The body of the loop of [exportData]: one row. *)
Definition export_student (s : Student) (file : ostream) : ostream :=
  let attendancePercent := calculateAttendancePercentage s in
  file <<< put_int (rollNo s) <<< put_text comma
       <<< put_string (name s) <<< put_text comma
       <<< put_string (studentClass s) <<< put_text comma
       <<< put_int (age s) <<< put_text comma
       <<< put_string (gender s) <<< put_text comma
       <<< put_float (percentage s) <<< put_text comma
       <<< put_text [grade s] <<< put_text comma
       <<< set_fixed <<< setprecision 2 <<< put_float (gpa s)
       <<< put_text comma
       <<< put_float attendancePercent
       <<< put_text ("%"%char :: FileHandler.newline).

(** [exportData]: the content of [students.csv]. *)
Definition exportData (students : list Student) : text :=
  written (fold_left (fun file s => export_student s file) students
                     (new_ostream <<< put_text header)).

End CSVExporter.

(** ** TextReportGenerator *)

Module TextReportGenerator.

(** The class has its own copy of the attendance computation. *)
Definition calculateAttendancePercentage (s : Student) : float :=
  match attendanceRecords s with
  | [] => f0
  | _ =>
      let presentCount :=
        count_if (fun r => String.eqb (status r) "Present"%string)
                 (attendanceRecords s) in
      F32.mul
        (F32.div (F32.of_Z presentCount)
                 (F32.of_Z (Z.of_nat (List.length (attendanceRecords s)))))
        f100
  end.

Definition tab : text := ["009"%char].

(** The line printed for one student of the class. *)
Definition report_student (s : Student) (cout : ostream) : ostream :=
  let attendancePercent := calculateAttendancePercentage s in
  cout <<< put_int (rollNo s) <<< put_text tab
       <<< put_string (name s) <<< put_text tab
       <<< put_text [grade s] <<< put_text tab
       <<< put_float (percentage s) <<< put_text ("%"%char :: tab)
       <<< set_fixed <<< setprecision 2 <<< put_float (gpa s)
       <<< put_text tab
       <<< put_float attendancePercent
       <<< put_text ("%"%char :: FileHandler.newline).

Fixpoint generateReport_loop (cls : string) (students : list Student)
    (cout : ostream) (found : bool) : ostream * bool :=
  match students with
  | [] => (cout, found)
  | s :: rest =>
      if String.eqb (studentClass s) cls
      then generateReport_loop cls rest (report_student s cout) true
      else generateReport_loop cls rest cout found
  end.

(** [generateReport] for the class read from the console: what it does
    to [cout]. *)
Definition generateReport (cls : string) (students : list Student)
    (cout : ostream) : ostream :=
  let cout := cout <<< put_string "Enter class to view report: " in
  let '(cout, found) := generateReport_loop cls students cout false in
  if found then cout
  else cout <<< put_string "No students found in class " <<< put_string cls
            <<< put_text FileHandler.newline.

End TextReportGenerator.

(** ** The name of a backup file *)

(** The fields of [struct tm] that the format reads. *)
Record tm := {
  tm_sec : Z;
  tm_min : Z;
  tm_hour : Z;
  tm_mday : Z;
  tm_mon : Z;
  tm_year : Z
}.

(** A number printed by [strftime] with at least two characters. *)
Definition number2 (v : Z) : text :=
  if v <? 0 then "-"%char :: print_unsigned (- v)
  else if v <? 10 then "0"%char :: print_unsigned v
  else print_unsigned v.

(** [strftime(buffer, 80, "backup_%Y%m%d_%H%M%S.txt", t)]; the buffer is
    large enough for every value of the fields. *)
Definition strftime_backup (t : tm) : text :=
  txt "backup_" ++ print_int (tm_year t + 1900) ++ number2 (tm_mon t + 1)
  ++ number2 (tm_mday t) ++ "_"%char :: number2 (tm_hour t)
  ++ number2 (tm_min t) ++ number2 (tm_sec t) ++ txt ".txt".

(** ** StudentOperations *)

(** What an operation reports on the console. *)
Inductive Message :=
| StudentAdded
| StudentUpdated
| StudentDeleted
| StudentNotFound
| StudentsSorted
| MarksUpdated (newGrade : ascii)
| NoStudentsFound (cls : string).

Module StudentOperations.

Section Operations.

Variable gradeCalc : IGradeCalculator.t.

Definition addStudent (name' : string) (rollNo' : Z) (class' : string)
    (age' : Z) (gender' : string) (students : list Student)
    : list Student * Message :=
  let s := {| name := name'; rollNo := rollNo'; studentClass := class';
              age := age'; gender := gender';
              marks := marks default_Student;
              percentage := percentage default_Student;
              grade := grade default_Student;
              attendanceRecords := attendanceRecords default_Student;
              gpa := gpa default_Student |} in
  let s := IGradeCalculator.calculateGrade gradeCalc s in
  (students ++ [s], StudentAdded).

Definition has_roll (roll : Z) (s : Student) : bool := rollNo s =? roll.

Definition updateStudent (roll : Z) (name' class' : string) (age' : Z)
    (gender' : string) (students : list Student) : list Student * Message :=
  let it := find_if (has_roll roll) students in
  match nth_error students it with
  | Some s =>
      let s := {| name := name'; rollNo := rollNo s; studentClass := class';
                  age := age'; gender := gender'; marks := marks s;
                  percentage := percentage s; grade := grade s;
                  attendanceRecords := attendanceRecords s; gpa := gpa s |} in
      let s := IGradeCalculator.calculateGrade gradeCalc s in
      (assign it s students, StudentUpdated)
  | None => (students, StudentNotFound)
  end.

Definition deleteStudent (roll : Z) (students : list Student)
    : list Student * Message :=
  let '(arr, new_end) := remove_if (has_roll roll) students in
  if negb (Nat.eqb new_end (List.length students))
  then (erase_to_end new_end arr, StudentDeleted)
  else (arr, StudentNotFound).

Definition by_roll (a b : Student) : bool := rollNo a <? rollNo b.

(** [sortStudents] with the [std::sort] of the library in use. *)
Definition sortStudents (std_sort : std_sort_t) (students : list Student)
    : list Student * Message :=
  (std_sort Student by_roll students, StudentsSorted).

Definition saveData (students : list Student) : text :=
  FileHandler.saveToFile students.

Definition loadData (content : option text) : FileHandler.LoadResult :=
  match FileHandler.loadFromFile content with
  | FileHandler.Loaded students =>
      FileHandler.Loaded (map (IGradeCalculator.calculateGrade gradeCalc) students)
  | r => r
  end.

Definition is_present (r : AttendanceRecord) : bool :=
  String.eqb (status r) "Present"%string.

Definition calculateAttendancePercentage (s : Student) : float :=
  match attendanceRecords s with
  | [] => f0
  | _ =>
      let presentCount := count_if is_present (attendanceRecords s) in
      F32.mul
        (F32.div (F32.of_Z presentCount)
                 (F32.of_Z (Z.of_nat (List.length (attendanceRecords s)))))
        f100
  end.

(** [searchStudent]: the record that [find_if] locates, with the
    attendance percentage shown for it. *)
Definition searchStudent (roll : Z) (students : list Student)
    : Message + (Student * float) :=
  match nth_error students (find_if (has_roll roll) students) with
  | Some s => inr (s, calculateAttendancePercentage s)
  | None => inl StudentNotFound
  end.

End Operations.

End StudentOperations.

(** ** ExtendedStudentOperations *)

Module ExtendedStudentOperations.

Import StudentOperations.

(** One line of the monthly attendance report. *)
Record MonthlyRow := {
  row_rollNo : Z;
  row_name : string;
  row_present : Z;
  row_absent : Z;
  row_percent : float
}.

(** What [viewMonthlyAttendance] has printed, and the exception that ended
    it, if one was raised. *)
Record MonthlyReport := {
  printed : list MonthlyRow;
  raised : option exception
}.

Record ClassStatistics := {
  count : Z;
  averagePercentage : float;
  averageGPA4 : float;
  averageGPA5 : F64.t;
  averageAttendance : float;
  gradeCount : list (ascii * Z)
}.

Section Operations.

Variable gradeCalc : IGradeCalculator.t.

(** [answer i] is the character typed for the [i]-th student. *)
Fixpoint markAttendance_from (i : nat) (date' : string) (answer : nat -> ascii)
    (students : list Student) : list Student :=
  match students with
  | [] => []
  | s :: rest =>
      let st := if Ascii.eqb (toupper (answer i)) "P" then "Present"%string
                else "Absent"%string in
      {| name := name s; rollNo := rollNo s; studentClass := studentClass s;
         age := age s; gender := gender s; marks := marks s;
         percentage := percentage s; grade := grade s;
         attendanceRecords :=
           attendanceRecords s ++ [{| date := date'; status := st |}];
         gpa := gpa s |}
      :: markAttendance_from (S i) date' answer rest
  end.

Definition markAttendance := markAttendance_from O.

(** One line of the attendance shown for a date. *)
Record DateRow := {
  date_rollNo : Z;
  date_name : string;
  date_status : string
}.

(** What [viewAttendanceByDate] has printed: its lines, and whether it
    ended with the notice that no records were found. *)
Record DateReport := {
  date_rows : list DateRow;
  none_found : bool
}.

Definition on_date (date' : string) (r : AttendanceRecord) : bool :=
  String.eqb (date r) date'.

Fixpoint viewAttendanceByDate_loop (date' : string) (students : list Student)
    (out : list DateRow) (found : bool) : list DateRow * bool :=
  match students with
  | [] => (out, found)
  | s :: rest =>
      let it := find_if (on_date date') (attendanceRecords s) in
      match nth_error (attendanceRecords s) it with
      | Some r =>
          viewAttendanceByDate_loop date' rest
            (out ++ [{| date_rollNo := rollNo s; date_name := name s;
                        date_status := status r |}]) true
      | None => viewAttendanceByDate_loop date' rest out found
      end
  end.

Definition viewAttendanceByDate (date' : string) (students : list Student)
    : DateReport :=
  let '(rows, found) := viewAttendanceByDate_loop date' students [] false in
  {| date_rows := rows; none_found := negb found |}.

(** [att.date.substr(5, 2) + "-" + att.date.substr(0, 4) == monthYear] *)
Definition in_month (monthYear : string) (att : AttendanceRecord)
    : exception + bool :=
  match substr 5 2 (date att) with
  | inl e => inl e
  | inr mm =>
      match substr 0 4 (date att) with
      | inl e => inl e
      | inr yyyy => inr (String.eqb (mm ++ "-" ++ yyyy)%string monthYear)
      end
  end.

(** The inner loop: [(present, total)] over one student's records. *)
Fixpoint monthly_count (monthYear : string) (atts : list AttendanceRecord)
    (present total : Z) : exception + (Z * Z) :=
  match atts with
  | [] => inr (present, total)
  | att :: rest =>
      match in_month monthYear att with
      | inl e => inl e
      | inr true =>
          monthly_count monthYear rest
            (if is_present att then present + 1 else present) (total + 1)
      | inr false => monthly_count monthYear rest present total
      end
  end.

Fixpoint viewMonthlyAttendance_loop (monthYear : string)
    (students : list Student) (out : list MonthlyRow) : MonthlyReport :=
  match students with
  | [] => {| printed := out; raised := None |}
  | s :: rest =>
      match monthly_count monthYear (attendanceRecords s) 0 0 with
      | inl e => {| printed := out; raised := Some e |}
      | inr (present, total) =>
          if total >? 0 then
            let percent :=
              F32.mul (F32.div (F32.of_Z present) (F32.of_Z total)) f100 in
            viewMonthlyAttendance_loop monthYear rest
              (out ++ [{| row_rollNo := rollNo s; row_name := name s;
                          row_present := present;
                          row_absent := total - present;
                          row_percent := percent |}])
          else viewMonthlyAttendance_loop monthYear rest out
      end
  end.

Definition viewMonthlyAttendance (monthYear : string) (students : list Student)
    : MonthlyReport :=
  viewMonthlyAttendance_loop monthYear students [].

Definition set_marks (m : Marks) (s : Student) : Student :=
  {| name := name s; rollNo := rollNo s; studentClass := studentClass s;
     age := age s; gender := gender s; marks := m;
     percentage := percentage s; grade := grade s;
     attendanceRecords := attendanceRecords s; gpa := gpa s |}.

Definition enterMarks (roll : Z) (m : Marks) (students : list Student)
    : list Student * Message :=
  let it := find_if (has_roll roll) students in
  match nth_error students it with
  | Some s =>
      let s := IGradeCalculator.calculateGrade gradeCalc (set_marks m s) in
      (assign it s students, MarksUpdated (grade s))
  | None => (students, StudentNotFound)
  end.

(** [s.gpa * 5.0 / 4.0], computed in [double] *)
Definition gpa5 (g : float) : F64.t :=
  F64.div (F64.mul (F64.of_float g) (F64.of_Z 5)) (F64.of_Z 4).

Definition calculateGPA (students : list Student) : list (string * F64.t) :=
  map (fun s => (name s, gpa5 (gpa s))) students.

Definition in_class (cls : string) (s : Student) : bool :=
  String.eqb (studentClass s) cls.

(** The accumulation loop of [showStatistics]. *)
Definition accumulate (acc : float * float * float * list (ascii * Z))
    (s : Student) : float * float * float * list (ascii * Z) :=
  let '(totalPercentage, totalGPA, totalAttendance, gradeCount) := acc in
  (F32.add totalPercentage (percentage s),
   F32.add totalGPA (gpa s),
   F32.add totalAttendance (calculateAttendancePercentage s),
   map_increment (grade s) gradeCount).

Definition showStatistics (cls : string) (students : list Student)
    : Message + ClassStatistics :=
  let classStudents := filter (in_class cls) students in
  match classStudents with
  | [] => inl (NoStudentsFound cls)
  | _ =>
      let '(totalPercentage, totalGPA, totalAttendance, gradeCount) :=
        fold_left accumulate classStudents (f0, f0, f0, []) in
      let count := Z.of_nat (List.length classStudents) in
      inr {| count := count;
             averagePercentage := F32.div totalPercentage (F32.of_Z count);
             averageGPA4 := F32.div totalGPA (F32.of_Z count);
             averageGPA5 := gpa5 (F32.div totalGPA (F32.of_Z count));
             averageAttendance := F32.div totalAttendance (F32.of_Z count);
             gradeCount := gradeCount |}
  end.

(** The body of the loop of [importFromCSV] up to the record it has
    parsed from one line.  [temp] keeps its value when a [getline]
    fails. *)
Definition parse_row (line : string) : exception + Student :=
  let ss := open_istream (Some (txt line)) in
  let s := default_Student in
  let '(temp, ss) := getline "," ss ""%string in
  rollNo' <- stoi temp ;;
  let '(name', ss) := getline "," ss (name s) in
  let '(class', ss) := getline "," ss (studentClass s) in
  let '(temp, ss) := getline "," ss temp in
  age' <- stoi temp ;;
  let '(gender', ss) := getline "," ss (gender s) in
  let '(temp, ss) := getline "," ss temp in
  percentage' <- stof temp ;;
  let '(temp, ss) := getline "," ss temp in
  let grade' := match temp with String c _ => c | EmptyString => zero end in
  let '(temp, ss) := getline "," ss temp in
  gpa' <- stof temp ;;
  inr {| name := name'; rollNo := rollNo'; studentClass := class';
         age := age'; gender := gender'; marks := marks s;
         percentage := percentage'; grade := grade';
         attendanceRecords := attendanceRecords s; gpa := gpa' |}.

(** The roster after [importFromCSV] and the exception that ended it, if
    one was raised. *)
Record ImportResult := {
  imported : list Student;
  import_raised : option exception
}.

(** [while (getline(file, line))]: the record is appended as parsed;
    [calculateGrade] then runs on the local [s], which goes out of scope
    at the end of the iteration. *)
Fixpoint importFromCSV_loop (fuel : nat) (file : istream) (line : string)
    (students : list Student) : ImportResult :=
  match fuel with
  | O => {| imported := students; import_raised := None |}
  | S fuel' =>
      let '(line, file) := getline "010" file line in
      if failbit file then {| imported := students; import_raised := None |}
      else
        match parse_row line with
        | inl e => {| imported := students; import_raised := Some e |}
        | inr s =>
            let students := students ++ [s] in
            let s := IGradeCalculator.calculateGrade gradeCalc s in
            importFromCSV_loop fuel' file line students
        end
  end.

(** [importFromCSV] on the content of the chosen file, [None] when it
    cannot be opened. *)
Definition importFromCSV (content : option text) (students : list Student)
    : ImportResult :=
  match content with
  | None => {| imported := students; import_raised := None |}
  | Some t =>
      let file := open_istream content in
      let '(line, file) := getline "010" file ""%string in
      importFromCSV_loop (S (List.length (buf file))) file line students
  end.

(** [generateClassReport] delegates to the report generator. *)
Definition generateClassReport (cls : string) (students : list Student)
    (cout : ostream) : ostream :=
  TextReportGenerator.generateReport cls students cout.

(** [exportData] delegates to the exporter. *)
Definition exportData (students : list Student) : text :=
  CSVExporter.exportData students.

(** [backupData] at the local time [now]: the name of the file and its
    content. *)
Definition backupData (now : tm) (students : list Student) : string * text :=
  (string_of_list_ascii (strftime_backup now), FileHandler.saveToFile students).

(** The scan of [findTopper]: the running maximum and the position of the
    record [topper] points to. *)
Fixpoint findTopper_loop (cls : string) (students : list Student) (i : nat)
    (maxPercentage : float) (topper : option nat) : option nat :=
  match students with
  | [] => topper
  | s :: rest =>
      if (in_class cls s && F32.gtb (percentage s) maxPercentage)%bool
      then findTopper_loop cls rest (S i) (percentage s) (Some i)
      else findTopper_loop cls rest (S i) maxPercentage topper
  end.

Definition findTopper (cls : string) (students : list Student) : option nat :=
  findTopper_loop cls students O fminus1 None.

End Operations.

End ExtendedStudentOperations.

(* ================================================================== *)
(** * Part II: the vocabulary of the specification                     *)
(* ================================================================== *)

(** ** The order of [float] *)

(** A float that is not a NaN is ranked by a triple of integers, compared
    lexicographically. *)
Definition rank (x : float) : option (Z * Z * Z) :=
  match x with
  | S754_nan => None
  | S754_infinity true => Some (-2, 0, 0)
  | S754_infinity false => Some (2, 0, 0)
  | S754_zero _ => Some (0, 0, 0)
  | S754_finite true m e => Some (-1, - e, Zneg m)
  | S754_finite false m e => Some (1, e, Zpos m)
  end.

Definition lex_lt (a b : Z * Z * Z) : Prop :=
  let '(a1, a2, a3) := a in
  let '(b1, b2, b3) := b in
  a1 < b1 \/ (a1 = b1 /\ (a2 < b2 \/ (a2 = b2 /\ a3 < b3))).

Definition float_lt (x y : float) : Prop :=
  exists rx ry, rank x = Some rx /\ rank y = Some ry /\ lex_lt rx ry.

Definition float_le (x y : float) : Prop :=
  exists rx ry, rank x = Some rx /\ rank y = Some ry /\ (lex_lt rx ry \/ rx = ry).

Definition f150 : float := Eval cbv in F32.of_Z 150.
Definition fminus5 : float := Eval cbv in F32.of_Z (-5).


(** ** Example records *)

Definition gradeCalc : IGradeCalculator.t :=
  GradeCalculator.make DefaultGradeStrategy.strategy.

Definition uniform_marks (m : Z) : Marks :=
  let x := F32.of_Z m in Build_Marks x x x x x.

(** A record of class [cls] whose five marks are all [m], with its derived
    fields computed. *)
Definition example_student (name' : string) (roll : Z) (cls : string) (m : Z)
    : Student :=
  IGradeCalculator.calculateGrade gradeCalc
    {| name := name'; rollNo := roll; studentClass := cls; age := 15;
       gender := "F"%string; marks := uniform_marks m;
       percentage := f0; grade := "F"%char; attendanceRecords := [];
       gpa := f0 |}.

(** ** A sort that meets the contract of [std::sort]

    An insertion sort; it shows that the contract can be met. *)

Fixpoint insert_before {A : Type} (comp : A -> A -> bool) (x : A) (l : list A)
    : list A :=
  match l with
  | [] => [x]
  | y :: r => if comp y x then y :: insert_before comp x r else x :: l
  end.

Definition insertion_sort : std_sort_t := fun A comp l =>
  fold_left (fun acc x => insert_before comp x acc) l [].

(** ** The insertion sort of the library, on lists

    Insertion of [val] into a sorted prefix held in reverse: [val] goes
    behind every element it is below, scanning from the right. *)
Fixpoint insert_from_right {A : Type} (comp : A -> A -> bool) (val : A)
    (rP : list A) : list A :=
  match rP with
  | [] => [val]
  | y :: r =>
      if comp val y then y :: insert_from_right comp val r else val :: rP
  end.

(** One turn of the loop of [__insertion_sort] on the prefix [P]: an
    element below the first one goes to the front, any other is inserted
    from the right. *)
Definition insertion_step {A : Type} (comp : A -> A -> bool) (val : A)
    (P : list A) : list A :=
  match P with
  | [] => [val]
  | p0 :: _ =>
      if comp val p0 then val :: P
      else rev (insert_from_right comp val (rev P))
  end.

(** Seventeen records with the same roll number, one more than the
    library sorts by insertion alone. *)
Definition same_roll_roster : list Student :=
  map (fun n => example_student n 7 "X" 70)
      ["a"; "b"; "c"; "d"; "e"; "f"; "g"; "h"; "i"; "j"; "k"; "l"; "m"; "n";
       "o"; "p"; "q"]%string.

(** Stability: for every key, the records with that key come in the same
    order before and after. *)
Definition stable_by_roll (before after : list Student) : Prop :=
  forall roll, filter (StudentOperations.has_roll roll) after
             = filter (StudentOperations.has_roll roll) before.

(** ** Consistency of the derived fields *)

(** The derived fields of a record agree with its marks. *)
Definition consistent (strategy : IGradeStrategy.t) (s : Student) : Prop :=
  percentage s = F32.div (GradeCalculator.total (marks s)) f5 /\
  grade s = IGradeStrategy.calculateGrade strategy (percentage s) /\
  gpa s = IGradeStrategy.calculateGPA strategy (percentage s).

(** ** Example files *)

(** A CSV file as [exportData] writes it for a record with five marks
    of 95. *)
Definition example_csv : text :=
  txt "Roll,Name,Class,Age,Gender,Percentage,Grade,GPA,Attendance%"
  ++ FileHandler.newline
  ++ txt "1,Ann,X,15,F,95,A,4.00,0.00%" ++ FileHandler.newline.

Definition f95 : float := Eval cbv in F32.of_Z 95.

(** The record that the CSV row describes, as it is parsed. *)
Definition ann_as_parsed : Student :=
  {| name := "Ann"; rollNo := 1; studentClass := "X"; age := 15;
     gender := "F"; marks := zero_marks; percentage := f95;
     grade := "A"; attendanceRecords := []; gpa := f4 |}.

(** A native store whose second record stops after the first attendance
    date: the status of that entry, the second entry and the GPA are
    missing. *)
Definition truncated_store : text :=
  txt "Bo 2 Y 11 F 9 8 7 6 5 0 3.00" ++ FileHandler.newline
  ++ txt "Al 1 X 10 M 1 2 3 4 5 2 2024-01-01".

Definition marks_of (a b c d e : Z) : Marks :=
  Build_Marks (F32.of_Z a) (F32.of_Z b) (F32.of_Z c) (F32.of_Z d) (F32.of_Z e).

Definition bo_as_loaded : Student :=
  {| name := "Bo"; rollNo := 2; studentClass := "Y"; age := 11;
     gender := "F"; marks := marks_of 9 8 7 6 5; percentage := f0;
     grade := "F"; attendanceRecords := []; gpa := f3 |}.

(** What the loader makes of the truncated record: the entries that could
    not be read are empty, and the GPA is the one left in the loop
    variable by the record before. *)
Definition al_as_loaded : Student :=
  {| name := "Al"; rollNo := 1; studentClass := "X"; age := 10;
     gender := "M"; marks := marks_of 1 2 3 4 5; percentage := f0;
     grade := "F";
     attendanceRecords :=
       [{| date := "2024-01-01"; status := "" |};
        {| date := ""; status := "" |}];
     gpa := f3 |}.

(** ** The text of the native store *)

(** The two characters that [saveToFile] puts between fields. *)
Definition separator (c : ascii) : Prop := c = " "%char \/ c = "010"%char.

(** A stream in the good state. *)
Definition good_at (t : text) : istream :=
  {| buf := t; eofbit := false; failbit := false |}.

(** A string that the store can hold as one field: not empty, no white
    space. *)
Definition token (s : string) : bool :=
  (negb (String.eqb s "") && forallb (fun c => negb (isspace c)) (txt s))%bool.

Definition in_int_range (z : Z) : bool := ((int_min <=? z) && (z <=? int_max))%bool.

(** The value read back from the text of a float, when the text is read
    as a whole and converts without failure. *)
Definition float_field (t : text) : option float :=
  let '(xtrc, rest) := accumulate_float t in
  match t, rest with
  | c :: _, [] =>
      if isspace c then None
      else let '(v, failed) := convert_float xtrc in
           if failed then None else Some v
  | _, _ => None
  end.

Definition reread (fixed' : bool) (precision' : Z) (x : float) : option float :=
  float_field (print_float fixed' precision' x).

(** The text of the attendance entries, followed by [k]. *)
Fixpoint attendance_text (atts : list AttendanceRecord) (k : text) : text :=
  match atts with
  | [] => k
  | att :: rest =>
      txt (date att) ++ " "%char :: txt (status att) ++ " "%char
        :: attendance_text rest k
  end.

(** The text of one record under the float format in force, followed by
    [k]. *)
Definition record_text (fx : bool) (pr : Z) (s : Student) (k : text) : text :=
  txt (name s) ++ " "%char :: print_int (rollNo s) ++ " "%char
  :: txt (studentClass s) ++ " "%char :: print_int (age s) ++ " "%char
  :: txt (gender s) ++ " "%char
  :: print_float fx pr (mark0 (marks s)) ++ " "%char
  :: print_float fx pr (mark1 (marks s)) ++ " "%char
  :: print_float fx pr (mark2 (marks s)) ++ " "%char
  :: print_float fx pr (mark3 (marks s)) ++ " "%char
  :: print_float fx pr (mark4 (marks s)) ++ " "%char
  :: print_int (Z.of_nat (List.length (attendanceRecords s))) ++ " "%char
  :: attendance_text (attendanceRecords s)
       (print_float true 2 (gpa s) ++ "010"%char :: k).

(** The text of a roster: the first record is written in the format in
    force, the later ones in fixed notation with two decimals. *)
Fixpoint roster_text (fx : bool) (pr : Z) (students : list Student) : text :=
  match students with
  | [] => []
  | s :: rest => record_text fx pr s (roster_text true 2 rest)
  end.

(** A record that the store can hold under the format in force: its
    strings are tokens, its integers are within [int], and the text of
    each float can be read back. *)
Definition storable (fx : bool) (pr : Z) (s : Student) : Prop :=
  token (name s) = true /\ token (studentClass s) = true /\
  token (gender s) = true /\
  in_int_range (rollNo s) = true /\ in_int_range (age s) = true /\
  Z.of_nat (List.length (attendanceRecords s)) <= int_max /\
  Forall (fun att => token (date att) = true /\ token (status att) = true)
         (attendanceRecords s) /\
  Forall (fun m => reread fx pr m <> None) (marks_list (marks s)) /\
  reread true 2 (gpa s) <> None.

Fixpoint storable_roster (fx : bool) (pr : Z) (students : list Student) : Prop :=
  match students with
  | [] => True
  | s :: rest => storable fx pr s /\ storable_roster true 2 rest
  end.

(** The marks survive their text: each reads back as itself. *)
Definition marks_survive (fx : bool) (pr : Z) (s : Student) : Prop :=
  Forall (fun m => reread fx pr m = Some m) (marks_list (marks s)).

Fixpoint roster_marks_survive (fx : bool) (pr : Z) (students : list Student)
    : Prop :=
  match students with
  | [] => True
  | s :: rest => marks_survive fx pr s /\ roster_marks_survive true 2 rest
  end.

(** The record that the loader builds from the text of [s]: the floats
    are the values read back; percentage and grade are those of the loop
    variable, which the loader never assigns. *)
Definition reread_or (fx : bool) (pr : Z) (x : float) : float :=
  match reread fx pr x with Some v => v | None => x end.

Definition reloaded (fx : bool) (pr : Z) (s : Student) : Student :=
  {| name := name s; rollNo := rollNo s; studentClass := studentClass s;
     age := age s; gender := gender s;
     marks := Build_Marks (reread_or fx pr (mark0 (marks s)))
                          (reread_or fx pr (mark1 (marks s)))
                          (reread_or fx pr (mark2 (marks s)))
                          (reread_or fx pr (mark3 (marks s)))
                          (reread_or fx pr (mark4 (marks s)));
     percentage := percentage default_Student;
     grade := grade default_Student;
     attendanceRecords := attendanceRecords s;
     gpa := reread_or true 2 (gpa s) |}.

Fixpoint reloaded_roster (fx : bool) (pr : Z) (students : list Student)
    : list Student :=
  match students with
  | [] => []
  | s :: rest => reloaded fx pr s :: reloaded_roster true 2 rest
  end.

(** ** Example rosters for the native store *)

Definition float_of_text (s : string) : float :=
  match stof s with
  | inr v => v
  | inl _ => f0
  end.

Definition stored_student (name' : string) (roll : Z) (m : Marks)
    (atts : list AttendanceRecord) : Student :=
  IGradeCalculator.calculateGrade gradeCalc
    {| name := name'; rollNo := roll; studentClass := "X"; age := 15;
       gender := "F"; marks := m; percentage := f0; grade := "F";
       attendanceRecords := atts; gpa := f0 |}.

(** The text of a roster followed by [k]. *)
Fixpoint roster_text_then (fx : bool) (pr : Z) (students : list Student)
    (k : text) : text :=
  match students with
  | [] => k
  | s :: rest => record_text fx pr s (roster_text_then true 2 rest k)
  end.

(** A character that cannot begin an integer field. *)
Definition starts_no_number (c : ascii) : bool :=
  (negb (isspace c) && negb (isdigit c) && negb (is_sign c))%bool.

(** The record without its derived fields. *)
Definition underived (s : Student) : Student :=
  {| name := name s; rollNo := rollNo s; studentClass := studentClass s;
     age := age s; gender := gender s; marks := marks s;
     percentage := f0; grade := zero; attendanceRecords := attendanceRecords s;
     gpa := f0 |}.

(** ** The text of the CSV file *)

(** A string that a CSV field can hold: no comma and no line feed. *)
Definition csv_char (c : ascii) : bool :=
  (negb (Ascii.eqb c ",") && negb (Ascii.eqb c "010"))%bool.

Definition csv_field (s : string) : bool := forallb csv_char (txt s).

(** The value that [stof] reads from the text of a float. *)
Definition csv_value (fx : bool) (pr : Z) (x : float) : exception + float :=
  stof (string_of_list_ascii (print_float fx pr x)).

Definition csv_value_or (fx : bool) (pr : Z) (x : float) : float :=
  match csv_value fx pr x with inr v => v | inl _ => x end.

(** A record that a row can hold under the float format in force. *)
Definition csv_record (fx : bool) (pr : Z) (s : Student) : Prop :=
  csv_field (name s) = true /\ csv_field (studentClass s) = true /\
  csv_field (gender s) = true /\ csv_char (grade s) = true /\
  in_int_range (rollNo s) = true /\ in_int_range (age s) = true /\
  (exists v, csv_value fx pr (percentage s) = inr v) /\
  (exists v, csv_value true 2 (gpa s) = inr v).

(** The first row is written in the format in force, the later ones in
    fixed notation with two decimals. *)
Fixpoint csv_roster (fx : bool) (pr : Z) (students : list Student) : Prop :=
  match students with
  | [] => True
  | s :: rest => csv_record fx pr s /\ csv_roster true 2 rest
  end.

(** The record that the import builds from the row of [s]. *)
Definition as_imported (fx : bool) (pr : Z) (s : Student) : Student :=
  {| name := name s; rollNo := rollNo s; studentClass := studentClass s;
     age := age s; gender := gender s; marks := zero_marks;
     percentage := csv_value_or fx pr (percentage s); grade := grade s;
     attendanceRecords := []; gpa := csv_value_or true 2 (gpa s) |}.

Fixpoint imported_roster (fx : bool) (pr : Z) (students : list Student)
    : list Student :=
  match students with
  | [] => []
  | s :: rest => as_imported fx pr s :: imported_roster true 2 rest
  end.

(** The text of one row, followed by [k]. *)
Definition row_fields (fx : bool) (pr : Z) (s : Student) : text :=
  print_int (rollNo s) ++ ","%char :: txt (name s) ++ ","%char
  :: txt (studentClass s) ++ ","%char :: print_int (age s) ++ ","%char
  :: txt (gender s) ++ ","%char
  :: print_float fx pr (percentage s) ++ ","%char
  :: grade s :: ","%char
  :: print_float true 2 (gpa s) ++ ","%char
  :: print_float true 2 (CSVExporter.calculateAttendancePercentage s)
  ++ ["%"%char].

Fixpoint rows_text (fx : bool) (pr : Z) (students : list Student) : text :=
  match students with
  | [] => []
  | s :: rest => row_fields fx pr s ++ "010"%char :: rows_text true 2 rest
  end.

(** The characters that the text of a number is made of. *)
Definition number_char (c : ascii) : bool :=
  (isdigit c || Ascii.eqb c "." || Ascii.eqb c "-" || Ascii.eqb c "+"
   || Ascii.eqb c "e" || Ascii.eqb c "i" || Ascii.eqb c "n"
   || Ascii.eqb c "f" || Ascii.eqb c "a")%bool.

(** ** The class report *)

(** The line of the class report for a student under the float format in
    force. *)
Definition report_line (fx : bool) (pr : Z) (s : Student) : text :=
  print_int (rollNo s) ++ "009"%char :: txt (name s) ++ "009"%char
  :: grade s :: "009"%char
  :: print_float fx pr (percentage s) ++ "%"%char :: "009"%char
  :: print_float true 2 (gpa s) ++ "009"%char
  :: print_float true 2 (TextReportGenerator.calculateAttendancePercentage s)
  ++ ["%"%char; "010"%char].

(** A record whose report line shows numbers only: its percentage and GPA
    are no NaN, and its ledger has fewer than [2 ^ 24] entries, which
    keeps the attendance percentage a number.  (A NaN is written as [nan]
    or [-nan], by a sign that [float] does not carry.) *)
Definition reportable (s : Student) : Prop :=
  percentage s <> S754_nan /\ gpa s <> S754_nan /\
  Z.of_nat (List.length (attendanceRecords s)) < 2 ^ 24.

(** The first line is written in the format in force, the later ones in
    fixed notation with two decimals. *)
Fixpoint report_lines (fx : bool) (pr : Z) (students : list Student) : text :=
  match students with
  | [] => []
  | s :: rest => report_line fx pr s ++ report_lines true 2 rest
  end.

(** ** Backups *)

(** The fields of a local time as [localtime] gives them, in a year of
    four digits. *)
Definition local_time (t : tm) : Prop :=
  1000 <= tm_year t + 1900 <= 9999 /\ 0 <= tm_mon t <= 11 /\
  1 <= tm_mday t <= 31 /\ 0 <= tm_hour t <= 23 /\ 0 <= tm_min t <= 59 /\
  0 <= tm_sec t <= 60.

(** ** The grade distribution *)

(** The number recorded for a grade in a [map<char, int>], 0 when the
    grade is not a key. *)
Definition count_of (g : ascii) (m : list (ascii * Z)) : Z :=
  match find (fun kv => Ascii.eqb (fst kv) g) m with
  | Some kv => snd kv
  | None => 0
  end.

(** The keys come in strictly increasing order, as an iteration over the
    map visits them. *)
Definition keys_ascending (m : list (ascii * Z)) : Prop :=
  StronglySorted (fun a b => char_value (fst a) < char_value (fst b)) m.

Definition total_count (m : list (ascii * Z)) : Z :=
  fold_right (fun kv acc => snd kv + acc) 0 m.

(** ** Attendance *)

Definition f50 : float := Eval cbv in F32.of_Z 50.
Definition f15 : float := Eval cbv in F32.of_Z 15.

(** The status recorded for the character typed at the prompt. *)
Definition status_of (a : ascii) : string :=
  if (Ascii.eqb a "P" || Ascii.eqb a "p")%bool then "Present" else "Absent".

(** The record with one more attendance entry at the end of its ledger. *)
Definition with_entry (date' : string) (a : ascii) (s : Student) : Student :=
  {| name := name s; rollNo := rollNo s; studentClass := studentClass s;
     age := age s; gender := gender s; marks := marks s;
     percentage := percentage s; grade := grade s;
     attendanceRecords :=
       attendanceRecords s ++ [{| date := date'; status := status_of a |}];
     gpa := gpa s |}.

(** The earliest entry of a ledger for a date. *)
Definition first_on_date (date' : string) (s : Student)
    : option AttendanceRecord :=
  find (ExtendedStudentOperations.on_date date') (attendanceRecords s).

(** The line shown for a student on a date, if there is one. *)
Definition date_line (date' : string) (s : Student)
    : list ExtendedStudentOperations.DateRow :=
  match first_on_date date' s with
  | Some r =>
      [{| ExtendedStudentOperations.date_rollNo := rollNo s;
          ExtendedStudentOperations.date_name := name s;
          ExtendedStudentOperations.date_status := status r |}]
  | None => []
  end.

(** The month and year of a date as the monthly report reads them, by
    position: characters 5 and 6, a dash, characters 0 to 3. *)
Definition month_key (d : string) : string :=
  (String.substring 5 2 d ++ "-" ++ String.substring 0 4 d)%string.

Definition of_month (monthYear : string) (r : AttendanceRecord) : bool :=
  String.eqb (month_key (date r)) monthYear.

(** The line of the monthly report for a student, if there is one. *)
Definition monthly_line (monthYear : string) (s : Student)
    : list ExtendedStudentOperations.MonthlyRow :=
  let entries := filter (of_month monthYear) (attendanceRecords s) in
  let present := count_if StudentOperations.is_present entries in
  let total := Z.of_nat (List.length entries) in
  match entries with
  | [] => []
  | _ =>
      [{| ExtendedStudentOperations.row_rollNo := rollNo s;
          ExtendedStudentOperations.row_name := name s;
          ExtendedStudentOperations.row_present := present;
          ExtendedStudentOperations.row_absent := total - present;
          ExtendedStudentOperations.row_percent :=
            F32.mul (F32.div (F32.of_Z present) (F32.of_Z total)) f100 |}]
  end.

(** ** Predicates used in the proofs *)

(** What the scan of [findTopper] knows after the records [pre]. *)
Definition scanned (cls : string) (pre : list Student) (maxPercentage : float)
    (topper : option nat) : Prop :=
  match topper with
  | None =>
      maxPercentage = fminus1 /\
      forall t, In t pre -> ExtendedStudentOperations.in_class cls t = true ->
                F32.gtb (percentage t) fminus1 = false
  | Some i =>
      exists s, nth_error pre i = Some s /\ ExtendedStudentOperations.in_class cls s = true /\
        maxPercentage = percentage s /\
        F32.gtb (percentage s) fminus1 = true /\
        (forall t, In t pre -> ExtendedStudentOperations.in_class cls t = true ->
                   F32.gtb (percentage t) (percentage s) = false) /\
        (forall j t, (j < i)%nat -> nth_error pre j = Some t ->
                     ExtendedStudentOperations.in_class cls t = true ->
                     F32.geb (percentage t) (percentage s) = false)
  end.

(** An attendance entry whose date is too short for [substr(5, 2)]. *)
Definition short_date (att : AttendanceRecord) : Prop :=
  (String.length (date att) < 5)%nat.

Definition has_short_date (s : Student) : Prop :=
  Exists short_date (attendanceRecords s).

(** An extraction gives no input back and leaves a failed stream failed. *)
Definition consumes (ins out : istream) : Prop :=
  (List.length (buf out) <= List.length (buf ins))%nat /\
  (failbit ins = true -> failbit out = true).


(** Whole-number marks: the letter and the grade points that the sum of
    the five marks stands for, one fifth of the sum being the percentage. *)
Definition letter_for (sum : Z) : ascii :=
  if 450 <=? sum then "A"%char
  else if 400 <=? sum then "B"%char
  else if 350 <=? sum then "C"%char
  else if 300 <=? sum then "D"%char
  else "F"%char.

Definition points_for (sum : Z) : float :=
  if 450 <=? sum then f4
  else if 400 <=? sum then f3
  else if 350 <=? sum then f2
  else if 300 <=? sum then f1
  else f0.

(** The same datum, not IEEE equality. *)
Definition same_float (x y : float) : bool :=
  match x, y with
  | S754_zero s, S754_zero s' => Bool.eqb s s'
  | S754_infinity s, S754_infinity s' => Bool.eqb s s'
  | S754_nan, S754_nan => true
  | S754_finite s m e, S754_finite s' m' e' =>
      Bool.eqb s s' && Pos.eqb m m' && Z.eqb e e'
  | _, _ => false
  end.




(** Adding a mark of at most 100 to a running sum of at most 400. *)
Definition sum_exact (x y : nat) : bool :=
  same_float (F32.add (F32.of_Z (Z.of_nat x)) (F32.of_Z (Z.of_nat y)))
             (F32.of_Z (Z.of_nat (x + y))).

Definition graded_by_sum (sum : nat) : bool :=
  let p := F32.div (F32.of_Z (Z.of_nat sum)) f5 in
  Ascii.eqb (DefaultGradeStrategy.calculateGrade p) (letter_for (Z.of_nat sum)) &&
  same_float (DefaultGradeStrategy.calculateGPA p) (points_for (Z.of_nat sum)).
(* ================================================================== *)
(** * Part III: properties                                             *)
(* ================================================================== *)

(** ** The order of [float] *)

Lemma compare_cont_Eq (m1 m2 : positive) :
  Pos.compare_cont Eq m1 m2 = (Zpos m1 ?= Zpos m2).
Proof. reflexivity. Qed.

Ltac order_cases :=
  repeat match goal with
  | |- context [Z.compare ?a ?b] =>
      let H := fresh in destruct (Z.compare_spec a b) as [H|H|H]
  | H : context [Z.compare ?a ?b] |- _ =>
      let H' := fresh in destruct (Z.compare_spec a b) as [H'|H'|H']
  end.

Lemma SFcompare_rank (x y : float) :
  match SFcompare x y with
  | None => rank x = None \/ rank y = None
  | Some c =>
      exists rx ry, rank x = Some rx /\ rank y = Some ry /\
        match c with
        | Lt => lex_lt rx ry
        | Eq => rx = ry
        | Gt => lex_lt ry rx
        end
  end.
Proof.
  destruct x as [[]|[]| |[] m1 e1], y as [[]|[]| |[] m2 e2]; simpl; auto;
    try (do 2 eexists; repeat split; simpl; lia);
    rewrite compare_cont_Eq; do 2 eexists; (split; [reflexivity|]);
    (split; [reflexivity|]); order_cases; simpl; try lia;
    try (f_equal; lia); try (repeat f_equal; lia).
Qed.
(** Facts of the order are read off the ranks. *)
Ltac by_rank :=
  unfold float_lt, float_le in *; intros;
  repeat match goal with
  | H : exists _, _ |- _ => destruct H
  | H : _ /\ _ |- _ => destruct H
  end;
  repeat match goal with
  | H : rank ?x = Some ?a, H' : rank ?x = Some ?b |- _ =>
      rewrite H in H'; inversion H'; subst; clear H'
  end;
  repeat match goal with
  | r : (Z * Z * Z)%type |- _ => destruct r as [[? ?] ?]
  end.


Lemma ltb_iff (x y : float) : F32.ltb x y = true <-> float_lt x y.
Proof.
  unfold F32.ltb, SFltb. pose proof (SFcompare_rank x y) as H.
  destruct (SFcompare x y) as [[]|]; split; try discriminate; try reflexivity;
    try (destruct H as (rx & ry & Hx & Hy & H); exists rx, ry; now auto);
    try (destruct H as [H|H]; intros (rx' & ry' & Hx' & Hy' & _); congruence);
    intros H'; by_rank; simpl in *; lia.
Qed.

Lemma leb_iff (x y : float) : F32.leb x y = true <-> float_le x y.
Proof.
  unfold F32.leb, SFleb. pose proof (SFcompare_rank x y) as H.
  destruct (SFcompare x y) as [[]|]; split; try discriminate; try reflexivity;
    try (destruct H as (rx & ry & Hx & Hy & H); exists rx, ry; now auto);
    try (destruct H as [H|H]; intros (rx' & ry' & Hx' & Hy' & _); congruence).
  intros H'; by_rank; simpl in *.
  match goal with H : _ \/ _ |- _ => destruct H as [H|H]; [lia|inversion H; subst; lia] end.
Qed.

Lemma gtb_iff (x y : float) : F32.gtb x y = true <-> float_lt y x.
Proof. apply ltb_iff. Qed.

Lemma geb_iff (x y : float) : F32.geb x y = true <-> float_le y x.
Proof. apply leb_iff. Qed.

Lemma float_lt_irrefl (x : float) : ~ float_lt x x.
Proof. intro H. by_rank. simpl in *. lia. Qed.

Lemma float_lt_trans (x y z : float) :
  float_lt x y -> float_lt y z -> float_lt x z.
Proof.
  intros H1 H2. by_rank. do 2 eexists. repeat split; eauto. simpl in *. lia.
Qed.

Lemma float_lt_le_trans (x y z : float) :
  float_lt x y -> float_le y z -> float_lt x z.
Proof.
  intros H1 H2. by_rank. do 2 eexists. repeat split; eauto. simpl in *.
  match goal with H : _ \/ _ = _ |- _ => destruct H as [H|H]; [lia|inversion H; subst; lia] end.
Qed.

Lemma float_le_lt_trans (x y z : float) :
  float_le x y -> float_lt y z -> float_lt x z.
Proof.
  intros H1 H2. by_rank. do 2 eexists. repeat split; eauto. simpl in *.
  match goal with H : _ \/ _ = _ |- _ => destruct H as [H|H]; [lia|inversion H; subst; lia] end.
Qed.

Lemma float_le_trans (x y z : float) :
  float_le x y -> float_le y z -> float_le x z.
Proof.
  intros H1 H2. by_rank. do 2 eexists. repeat split; eauto. simpl in *.
  repeat match goal with
  | H : _ \/ _ = _ |- _ => destruct H as [H|H]; [|inversion H; subst]
  end; auto; left; lia.
Qed.

Lemma float_lt_le (x y : float) : float_lt x y -> float_le x y.
Proof. intros H. by_rank. do 2 eexists. repeat split; eauto. Qed.

Lemma float_lt_not_le (x y : float) : float_lt x y -> ~ float_le y x.
Proof.
  intros H1 H2. by_rank. simpl in *.
  match goal with H : _ \/ _ = _ |- _ => destruct H as [H|H]; [lia|inversion H; subst; lia] end.
Qed.

Lemma ltb_false_geb (x y : float) : F32.ltb x y = true -> F32.geb x y = false.
Proof.
  intros H. apply ltb_iff in H. destruct (F32.geb x y) eqn:E; [|reflexivity].
  apply geb_iff in E. exfalso. eapply float_lt_not_le; eauto.
Qed.

(** ** GradePolicy *)

Lemma below_threshold (p a b : float) :
  F32.geb a b = true -> F32.ltb p b = true -> F32.geb p a = false.
Proof.
  intros Hab Hp. destruct (F32.geb p a) eqn:E; [|reflexivity].
  apply geb_iff in Hab, E. apply ltb_iff in Hp. exfalso.
  apply (float_lt_not_le p b Hp). eapply float_le_trans; eauto.
Qed.

Lemma above_threshold (p a b : float) :
  F32.geb a b = true -> F32.geb p a = true -> F32.geb p b = true.
Proof.
  rewrite !geb_iff. intros Hab Hp. eapply float_le_trans; eauto.
Qed.

Module GradePolicy.

Import DefaultGradeStrategy.

(** C4 (amended).  The grade and the GPA are functions of the percentage
    with the five buckets: at least 90 gives A/4.0; from 80 up to 90 gives
    B/3.0; from 70 up to 80 gives C/2.0; from 60 up to 70 gives D/1.0; every
    value that is not at least 60 (all values below 60, negative ones
    included, and NaN) gives F/0.0.  Nothing is clamped: a value above 100
    is at least 90 and gives A/4.0.  The boundary values 90, 80, 70, 60 give
    A/4.0, B/3.0, C/2.0, D/1.0 and 59.999 gives F/0.0. *)
Theorem grade_buckets (p : float) :
  (F32.geb p f90 = true ->
     calculateGrade p = "A"%char /\ calculateGPA p = f4) /\
  (F32.geb p f80 = true -> F32.ltb p f90 = true ->
     calculateGrade p = "B"%char /\ calculateGPA p = f3) /\
  (F32.geb p f70 = true -> F32.ltb p f80 = true ->
     calculateGrade p = "C"%char /\ calculateGPA p = f2) /\
  (F32.geb p f60 = true -> F32.ltb p f70 = true ->
     calculateGrade p = "D"%char /\ calculateGPA p = f1) /\
  (F32.geb p f60 = false ->
     calculateGrade p = "F"%char /\ calculateGPA p = f0) /\
  (F32.ltb p f0 = true ->
     calculateGrade p = "F"%char /\ calculateGPA p = f0) /\
  (F32.gtb p f100 = true ->
     calculateGrade p = "A"%char /\ calculateGPA p = f4) /\
  (calculateGrade f90 = "A"%char /\ calculateGPA f90 = f4) /\
  (calculateGrade f80 = "B"%char /\ calculateGPA f80 = f3) /\
  (calculateGrade f70 = "C"%char /\ calculateGPA f70 = f2) /\
  (calculateGrade f60 = "D"%char /\ calculateGPA f60 = f1) /\
  (exists x, stof "59.999" = inr x /\
     calculateGrade x = "F"%char /\ calculateGPA x = f0).
Proof.
  assert (H98 : F32.geb f90 f80 = true) by reflexivity.
  assert (H97 : F32.geb f90 f70 = true) by reflexivity.
  assert (H96 : F32.geb f90 f60 = true) by reflexivity.
  assert (H87 : F32.geb f80 f70 = true) by reflexivity.
  assert (H86 : F32.geb f80 f60 = true) by reflexivity.
  assert (H76 : F32.geb f70 f60 = true) by reflexivity.
  assert (F : F32.geb p f60 = false ->
              calculateGrade p = "F"%char /\ calculateGPA p = f0).
  { intros H60. unfold calculateGrade, calculateGPA.
    destruct (F32.geb p f90) eqn:E90;
      [rewrite (above_threshold p f90 f60 H96 E90) in H60; discriminate|].
    destruct (F32.geb p f80) eqn:E80;
      [rewrite (above_threshold p f80 f60 H86 E80) in H60; discriminate|].
    destruct (F32.geb p f70) eqn:E70;
      [rewrite (above_threshold p f70 f60 H76 E70) in H60; discriminate|].
    rewrite H60. auto. }
  assert (A : F32.geb p f90 = true ->
              calculateGrade p = "A"%char /\ calculateGPA p = f4).
  { unfold calculateGrade, calculateGPA. intros ->. auto. }
  split; [exact A|].
  split.
  { intros Hlo Hhi. unfold calculateGrade, calculateGPA.
    rewrite (ltb_false_geb p f90 Hhi), Hlo. auto. }
  split.
  { intros Hlo Hhi. unfold calculateGrade, calculateGPA.
    rewrite (below_threshold p f90 f80 H98 Hhi), (ltb_false_geb p f80 Hhi), Hlo.
    auto. }
  split.
  { intros Hlo Hhi. unfold calculateGrade, calculateGPA.
    rewrite (below_threshold p f90 f70 H97 Hhi),
      (below_threshold p f80 f70 H87 Hhi), (ltb_false_geb p f70 Hhi), Hlo.
    auto. }
  split; [exact F|].
  split.
  { intros H. apply F. eapply below_threshold; [|exact H]. reflexivity. }
  split.
  { intros H. apply A. apply (above_threshold p f100 f90); [reflexivity|].
    apply geb_iff. apply float_lt_le. apply ltb_iff. exact H. }
  repeat split.
  eexists. split; [vm_compute; reflexivity|]. split; reflexivity.
Qed.

Lemma grade_buckets_witness :
  calculateGrade f150 = "A"%char /\ calculateGPA f150 = f4.
Proof.
  apply (proj1 (proj2 (proj2 (proj2 (proj2 (proj2 (proj2 (grade_buckets f150)))))))).
  reflexivity.
Defined.

(** C4, as stated, fails above 100: 150 is out of range and is graded
    A/4.0, not F/0.0. *)
Lemma above_100_is_A :
  F32.gtb f150 f100 = true /\
  calculateGrade f150 = "A"%char /\ calculateGPA f150 = f4 /\
  calculateGrade f150 <> "F"%char /\ calculateGPA f150 <> f0.
Proof. repeat split; try reflexivity; discriminate. Qed.

End GradePolicy.

(** ** Library algorithms *)

Section Algorithms.

Context {A : Type}.
Variable pred : A -> bool.

Local Notation "'keeps'" := (fun x : A => negb (pred x)).

Lemma assign_length (it : nat) (v : A) (l : list A) :
  List.length (assign it v l) = List.length l.
Proof.
  revert it. induction l as [|x l IH]; intros [|it]; simpl; auto.
Qed.

Lemma firstn_assign_snoc (it : nat) (v : A) (l : list A) :
  (it < List.length l)%nat ->
  firstn (S it) (assign it v l) = firstn it l ++ [v].
Proof.
  revert it. induction l as [|x l IH]; intros [|it] H; simpl in *; try lia.
  - reflexivity.
  - f_equal. apply IH. lia.
Qed.

Lemma skipn_assign (it k : nat) (v : A) (l : list A) :
  (it < k)%nat -> skipn k (assign it v l) = skipn k l.
Proof.
  revert it k. induction l as [|x l IH]; intros [|it] [|k] H; simpl; try lia; auto.
  apply IH. lia.
Qed.

Lemma skipn_nth_error (k : nat) (l : list A) (x : A) :
  nth_error l k = Some x -> skipn k l = x :: skipn (S k) l.
Proof.
  revert k. induction l as [|y l IH]; intros [|k] H; simpl in *; try discriminate.
  - inversion H. reflexivity.
  - apply IH. exact H.
Qed.

(** The loop of [remove_if]: the first [result] slots are kept, the
    elements from [first] on are still to be visited. *)
Lemma remove_if_loop_spec (n first result : nat) (arr : list A) :
  (first + n = List.length arr)%nat -> (result < first)%nat ->
  let '(arr', new_end) := remove_if_loop pred n first result arr in
  firstn new_end arr' = firstn result arr ++ filter keeps (skipn first arr) /\
  List.length arr' = List.length arr.
Proof.
  revert first result arr.
  induction n as [|n IH]; intros first result arr Hlen Hlt; simpl.
  - rewrite skipn_all2 by lia. simpl. rewrite app_nil_r. auto.
  - destruct (nth_error arr first) as [x|] eqn:Hx.
    2:{ apply nth_error_None in Hx. lia. }
    rewrite (skipn_nth_error _ _ _ Hx). simpl.
    destruct (pred x) eqn:Hp; simpl.
    + apply IH; lia.
    + specialize (IH (S first) (S result) (assign result x arr)).
      rewrite assign_length in IH.
      destruct (remove_if_loop pred n (S first) (S result) (assign result x arr))
        as [arr' new_end].
      destruct IH as [IH1 IH2]; try lia.
      rewrite IH1, firstn_assign_snoc, skipn_assign by lia.
      rewrite <- app_assoc. auto.
Qed.

Lemma find_if_le (l : list A) : (find_if pred l <= List.length l)%nat.
Proof. induction l as [|x l IH]; simpl; [lia|]. destruct (pred x); lia. Qed.

Lemma find_if_none (l : list A) :
  find_if pred l = List.length l <-> forallb keeps l = true.
Proof.
  induction l as [|x l IH]; simpl; [tauto|].
  destruct (pred x); simpl.
  - split; [lia|discriminate].
  - rewrite <- IH. lia.
Qed.

Lemma find_if_found (l : list A) :
  (find_if pred l < List.length l)%nat ->
  exists x, nth_error l (find_if pred l) = Some x /\ pred x = true /\
            filter keeps l = firstn (find_if pred l) l ++
                             filter keeps (skipn (S (find_if pred l)) l).
Proof.
  induction l as [|x l IH]; simpl; [lia|].
  destruct (pred x) eqn:Hp; simpl.
  - intros _. exists x. auto.
  - intros H. destruct IH as (y & H1 & H2 & H3); [lia|].
    exists y. repeat split; auto. f_equal. exact H3.
Qed.

Lemma filter_all (l : list A) : forallb keeps l = true -> filter keeps l = l.
Proof.
  induction l as [|x l IH]; simpl; auto.
  destruct (keeps x); simpl; [|discriminate]. intros H. f_equal. auto.
Qed.

(** [remove_if] followed by [erase] is a filter; the new end differs from
    the old one exactly when something matched. *)
Lemma remove_if_spec (arr : list A) :
  let '(arr', new_end) := remove_if pred arr in
  erase_to_end new_end arr' = filter keeps arr /\
  List.length arr' = List.length arr /\
  (new_end = List.length arr -> arr' = arr /\ forallb keeps arr = true) /\
  (new_end <> List.length arr -> existsb pred arr = true).
Proof.
  unfold remove_if, erase_to_end. pose proof (find_if_le arr) as Hle.
  destruct (Nat.eqb (find_if pred arr) (List.length arr)) eqn:E.
  - apply Nat.eqb_eq in E. pose proof (proj1 (find_if_none arr) E) as Hall.
    rewrite E, firstn_all, filter_all by auto. repeat split; auto; congruence.
  - apply Nat.eqb_neq in E.
    destruct (find_if_found arr) as (x & Hx & Hp & Hfilter); [lia|].
    pose proof (remove_if_loop_spec (List.length arr - S (find_if pred arr))
                  (S (find_if pred arr)) (find_if pred arr) arr) as H.
    destruct (remove_if_loop pred _ _ _ arr) as [arr' new_end].
    destruct H as [H1 H2]; try lia.
    assert (He : existsb pred arr = true).
    { apply existsb_exists. exists x. split; auto. eapply nth_error_In; eauto. }
    rewrite H1, Hfilter. split; [reflexivity|]. split; [exact H2|].
    split; [|auto].
    intros ->. exfalso.
    assert (Hl : List.length (firstn (List.length arr) arr') = List.length arr).
    { rewrite length_firstn. lia. }
    rewrite H1, <- Hfilter in Hl.
    clear - Hl He.
    induction arr as [|y l IHl]; simpl in *; [discriminate|].
    destruct (pred y); simpl in *.
    + pose proof (filter_length_le (fun x => negb (pred x)) l). lia.
    + apply IHl; auto.
Qed.

End Algorithms.

(** ** Roster operations *)

Module Roster.

Import StudentOperations.

(** C7.  [deleteStudent] removes every record with the given roll number
    and keeps the others in their order: the new roster is the old one
    filtered.  When no record matches, the roster is unchanged and the
    operation reports that the student was not found; when one matches it
    reports the deletion. *)
Theorem deleteStudent_filter (roll : Z) (students : list Student) :
  fst (deleteStudent roll students)
    = filter (fun s => negb (rollNo s =? roll)) students /\
  (forall s, In s (fst (deleteStudent roll students)) -> rollNo s <> roll) /\
  ((forall s, In s students -> rollNo s <> roll) ->
     deleteStudent roll students = (students, StudentNotFound)) /\
  ((exists s, In s students /\ rollNo s = roll) ->
     snd (deleteStudent roll students) = StudentDeleted).
Proof.
  unfold deleteStudent.
  pose proof (remove_if_spec (has_roll roll) students) as H.
  destruct (remove_if (has_roll roll) students) as [arr new_end].
  destruct H as (Hfilter & Hlen & Hnone & Hsome).
  assert (E : fst (if negb (Nat.eqb new_end (List.length students))
                   then (erase_to_end new_end arr, StudentDeleted)
                   else (arr, StudentNotFound))
              = filter (fun s => negb (rollNo s =? roll)) students).
  { destruct (Nat.eqb new_end (List.length students)) eqn:E; simpl.
    - apply Nat.eqb_eq in E. destruct (Hnone E) as [-> Hall].
      symmetry. apply filter_all. exact Hall.
    - exact Hfilter. }
  split; [exact E|]. split; [|split].
  - rewrite E. intros s Hs. apply filter_In in Hs. destruct Hs as [_ Hs].
    apply negb_true_iff, Z.eqb_neq in Hs. exact Hs.
  - intros Hno. destruct (Nat.eqb new_end (List.length students)) eqn:En; simpl.
    + apply Nat.eqb_eq in En. destruct (Hnone En) as [-> _]. reflexivity.
    + apply Nat.eqb_neq in En. apply Hsome in En.
      apply existsb_exists in En. destruct En as (s & Hs & Hr).
      apply Z.eqb_eq in Hr. exfalso. exact (Hno s Hs Hr).
  - intros (s & Hs & Hr).
    destruct (Nat.eqb new_end (List.length students)) eqn:En; simpl; auto.
    apply Nat.eqb_eq in En. destruct (Hnone En) as [_ Hall].
    rewrite forallb_forall in Hall. specialize (Hall s Hs).
    unfold has_roll in Hall. apply negb_true_iff, Z.eqb_neq in Hall. contradiction.
Qed.

Lemma deleteStudent_filter_witness :
  let roster := [example_student "A" 1 "X" 70; example_student "B" 2 "X" 85;
                 example_student "C" 1 "X" 85] in
  snd (deleteStudent 1 roster) = StudentDeleted /\
  fst (deleteStudent 1 roster) = [example_student "B" 2 "X" 85].
Proof.
  split.
  - apply (proj2 (proj2 (proj2 (deleteStudent_filter 1 _)))).
    exists (example_student "A" 1 "X" 70). simpl. auto.
  - rewrite (proj1 (deleteStudent_filter 1 _)). reflexivity.
Defined.

End Roster.

(** ** Topper *)

Module Topper.

Import StudentOperations ExtendedStudentOperations.

Lemma gtb_false_trans (a b c : float) :
  F32.gtb a b = false -> F32.gtb c b = true -> F32.gtb a c = false.
Proof.
  intros Hab Hcb. destruct (F32.gtb a c) eqn:E; [|reflexivity].
  apply gtb_iff in E, Hcb.
  assert (H : F32.gtb a b = true).
  { apply gtb_iff. eapply float_lt_trans; eauto. }
  congruence.
Qed.

Lemma geb_false_trans (a b c : float) :
  F32.gtb a b = false -> F32.gtb c b = true -> F32.geb a c = false.
Proof.
  intros Hab Hcb. destruct (F32.geb a c) eqn:E; [|reflexivity].
  apply geb_iff in E. apply gtb_iff in Hcb.
  assert (H : F32.gtb a b = true).
  { apply gtb_iff. eapply float_lt_le_trans; eauto. }
  congruence.
Qed.

Lemma gtb_irrefl (a : float) : F32.gtb a a = false.
Proof.
  destruct (F32.gtb a a) eqn:E; [|reflexivity].
  apply gtb_iff in E. exfalso. eapply float_lt_irrefl; eauto.
Qed.

(** One iteration keeps what is known. *)
Lemma scanned_step (cls : string) (pre : list Student) (s : Student)
    (maxP : float) (topper : option nat) :
  scanned cls pre maxP topper ->
  if (in_class cls s && F32.gtb (percentage s) maxP)%bool
  then scanned cls (pre ++ [s]) (percentage s) (Some (List.length pre))
  else scanned cls (pre ++ [s]) maxP topper.
Proof.
  intros Inv.
  destruct (in_class cls s) eqn:Hc; simpl.
  - destruct (F32.gtb (percentage s) maxP) eqn:Hgt.
    + (* the record becomes the topper *)
      assert (Hbase : F32.gtb (percentage s) fminus1 = true /\
                forall t, In t pre -> in_class cls t = true ->
                  F32.gtb (percentage t) maxP = false).
      { destruct topper as [i|]; simpl in Inv.
        - destruct Inv as (s0 & _ & _ & -> & H1 & H2 & _). split; auto.
          apply gtb_iff. eapply float_lt_trans; apply gtb_iff; eauto.
        - destruct Inv as (-> & H). auto. }
      destruct Hbase as [Hm1 Hpre].
      exists s. rewrite nth_error_app2, Nat.sub_diag by lia.
      repeat split; auto.
      * intros t Ht Hct. apply in_app_or in Ht. destruct Ht as [Ht|[<-|[]]].
        -- eapply gtb_false_trans; eauto.
        -- apply gtb_irrefl.
      * intros j t Hj Hjt Hct.
        rewrite nth_error_app1 in Hjt by lia.
        eapply geb_false_trans; [|exact Hgt].
        apply Hpre; auto. eapply nth_error_In; eauto.
    + (* the running maximum stays *)
      destruct topper as [i|]; simpl in *.
      * destruct Inv as (s0 & H0 & H1 & -> & H2 & H3 & H4).
        exists s0. rewrite nth_error_app1 by (apply nth_error_Some; congruence).
        repeat split; auto.
        -- intros t Ht Hct. apply in_app_or in Ht.
           destruct Ht as [Ht|[<-|[]]]; auto.
        -- intros j t Hj Hjt Hct.
           assert (i < List.length pre)%nat by (apply nth_error_Some; congruence).
           rewrite nth_error_app1 in Hjt by lia. eauto.
      * destruct Inv as (-> & H). split; auto.
        intros t Ht Hct. apply in_app_or in Ht.
        destruct Ht as [Ht|[<-|[]]]; auto.
  - destruct topper as [i|]; simpl in *.
    + destruct Inv as (s0 & H0 & H1 & -> & H2 & H3 & H4).
      exists s0. rewrite nth_error_app1 by (apply nth_error_Some; congruence).
      repeat split; auto.
      * intros t Ht Hct. apply in_app_or in Ht.
        destruct Ht as [Ht|[<-|[]]]; auto. congruence.
      * intros j t Hj Hjt Hct.
        assert (i < List.length pre)%nat by (apply nth_error_Some; congruence).
        rewrite nth_error_app1 in Hjt by lia. eauto.
    + destruct Inv as (-> & H). split; auto.
      intros t Ht Hct. apply in_app_or in Ht.
      destruct Ht as [Ht|[<-|[]]]; auto. congruence.
Qed.

Lemma findTopper_loop_scanned (cls : string) (rest pre : list Student)
    (maxPercentage : float) (topper : option nat) :
  scanned cls pre maxPercentage topper ->
  exists m, scanned cls (pre ++ rest) m
              (findTopper_loop cls rest (List.length pre) maxPercentage topper).
Proof.
  revert pre maxPercentage topper.
  induction rest as [|s rest IH]; intros pre maxP topper Inv; simpl.
  - rewrite app_nil_r. eauto.
  - pose proof (scanned_step cls pre s maxP topper Inv) as Hstep.
    replace (pre ++ s :: rest) with ((pre ++ [s]) ++ rest)
      by (rewrite <- app_assoc; reflexivity).
    replace (S (List.length pre)) with (List.length (pre ++ [s]))
      by (rewrite length_app; simpl; lia).
    destruct (in_class cls s && F32.gtb (percentage s) maxP)%bool;
      apply IH; exact Hstep.
Qed.

(** What the scan of [findTopper] gives.  A record it returns is the
    earliest record of the class that attains the maximum percentage of
    the class: no record of the class has a greater percentage, and every
    earlier record of the class has a smaller one (or a NaN).  A class
    without records gives none, and the class members (A, 70), (B, 85),
    (C, 85) in that order give B.  The scan starts from a maximum of -1,
    so that it also gives none when no record of the class is above -1. *)
Theorem findTopper_first_maximum (cls : string) (students : list Student) :
  match findTopper cls students with
  | Some i =>
      exists s, nth_error students i = Some s /\ in_class cls s = true /\
        F32.gtb (percentage s) fminus1 = true /\
        (forall t, In t students -> in_class cls t = true ->
                   F32.gtb (percentage t) (percentage s) = false) /\
        (forall j t, (j < i)%nat -> nth_error students j = Some t ->
                     in_class cls t = true ->
                     F32.geb (percentage t) (percentage s) = false)
  | None =>
      forall t, In t students -> in_class cls t = true ->
                F32.gtb (percentage t) fminus1 = false
  end /\
  (filter (in_class cls) students = [] -> findTopper cls students = None) /\
  findTopper "X" [example_student "A" 1 "X" 70; example_student "B" 2 "X" 85;
                  example_student "C" 3 "X" 85] = Some 1%nat.
Proof.
  assert (H : exists m, scanned cls students m (findTopper cls students)).
  { apply (findTopper_loop_scanned cls students [] fminus1 None).
    simpl. split; [reflexivity|]. intros t []. }
  destruct H as [m H].
  split; [|split; [|reflexivity]].
  - destruct (findTopper cls students) as [i|]; simpl in H.
    + destruct H as (s & H0 & H1 & _ & H2 & H3 & H4). exists s. auto.
    + destruct H as [_ H]. exact H.
  - intros Hempty. destruct (findTopper cls students) as [i|]; [|reflexivity].
    simpl in H. destruct H as (s & H0 & H1 & _).
    assert (Hin : In s (filter (in_class cls) students)).
    { apply filter_In. split; auto. eapply nth_error_In; eauto. }
    rewrite Hempty in Hin. destruct Hin.
Qed.

Lemma findTopper_first_maximum_witness :
  findTopper "Y" [example_student "A" 1 "X" 70] = None.
Proof.
  apply (proj1 (proj2 (findTopper_first_maximum "Y" _))). reflexivity.
Defined.

(** C9, evaluated on the code.  The scan of [findTopper] starts from a
    maximum of -1 instead of the first record of the class, and marks are
    not validated.  Student A is added to class X and gets five marks of
    -5, hence a percentage of -5: the class has a record, and [findTopper]
    returns none, which the program reports as no students found in the
    class. *)
Theorem findTopper_misses_low_percentages :
  let a := example_student "A" 1 "X" (-5) in
  fst (enterMarks gradeCalc 1 (uniform_marks (-5))
         (fst (StudentOperations.addStudent gradeCalc "A" 1 "X" 15 "F" [])))
    = [a] /\
  in_class "X" a = true /\ percentage a = fminus5 /\
  findTopper "X" [a] = None.
Proof. repeat split. Qed.

End Topper.

(** ** Statistics *)

Module Statistics.

Import StudentOperations ExtendedStudentOperations.

Lemma accumulate_folds (l : list Student) (a b c : float) (g : list (ascii * Z)) :
  fold_left accumulate l (a, b, c, g) =
  (fold_left F32.add (map percentage l) a,
   fold_left F32.add (map gpa l) b,
   fold_left F32.add (map calculateAttendancePercentage l) c,
   fold_left (fun g s => map_increment (grade s) g) l g).
Proof.
  revert a b c g. induction l as [|s l IH]; intros; simpl; [reflexivity|].
  apply IH.
Qed.

(** C8.  When no record is of the class, [showStatistics] reports that no
    students were found and computes nothing; no division takes place.
    Otherwise the count is positive and every average is a sum over the
    records of the class divided by their number; the records of other
    classes have no influence on the outcome. *)
Theorem showStatistics_by_class (cls : string) (students : list Student) :
  let classStudents := filter (in_class cls) students in
  (classStudents = [] ->
     showStatistics cls students = inl (NoStudentsFound cls)) /\
  (classStudents <> [] ->
     exists st, showStatistics cls students = inr st /\
       count st = Z.of_nat (List.length classStudents) /\
       0 < count st /\
       averagePercentage st =
         F32.div (fold_left F32.add (map percentage classStudents) f0)
                 (F32.of_Z (count st)) /\
       averageGPA4 st =
         F32.div (fold_left F32.add (map gpa classStudents) f0)
                 (F32.of_Z (count st)) /\
       averageGPA5 st = gpa5 (averageGPA4 st) /\
       averageAttendance st =
         F32.div (fold_left F32.add
                    (map calculateAttendancePercentage classStudents) f0)
                 (F32.of_Z (count st))) /\
  (forall students',
     filter (in_class cls) students' = classStudents ->
     showStatistics cls students' = showStatistics cls students) /\
  (exists st,
     showStatistics "X" [example_student "A" 1 "X" 90;
                         example_student "B" 2 "X" 50;
                         example_student "C" 3 "Y" 100] = inr st /\
     count st = 2 /\ averagePercentage st = f70 /\
     gradeCount st = [("A"%char, 1); ("F"%char, 1)]).
Proof.
  intros classStudents. unfold showStatistics. fold classStudents.
  split; [|split; [|split]].
  - intros ->. reflexivity.
  - intros Hne. destruct classStudents as [|s l] eqn:E; [congruence|].
    rewrite accumulate_folds. eexists. split; [reflexivity|]. simpl count.
    repeat split; try reflexivity; lia.
  - intros students' ->. reflexivity.
  - eexists. split; [vm_compute; reflexivity|]. repeat split.
Qed.

Lemma showStatistics_by_class_witness :
  showStatistics "Z" [example_student "A" 1 "X" 90] = inl (NoStudentsFound "Z").
Proof.
  apply (proj1 (showStatistics_by_class "Z" [example_student "A" 1 "X" 90])).
  reflexivity.
Defined.

End Statistics.

(** ** Monthly attendance *)

Module Monthly.

Import StudentOperations ExtendedStudentOperations.

Lemma in_month_raises (monthYear : string) (att : AttendanceRecord) :
  (short_date att -> in_month monthYear att = inl out_of_range) /\
  (~ short_date att -> exists b, in_month monthYear att = inr b).
Proof.
  unfold short_date, in_month, substr.
  destruct (Nat.ltb (String.length (date att)) 5) eqn:E.
  - apply Nat.ltb_lt in E. split; [reflexivity|lia].
  - apply Nat.ltb_ge in E. split; [lia|]. intros _.
    replace (Nat.ltb (String.length (date att)) 0) with false
      by (symmetry; apply Nat.ltb_ge; lia).
    eauto.
Qed.

Lemma monthly_count_raises (monthYear : string) (atts : list AttendanceRecord)
    (present total : Z) :
  (Exists short_date atts ->
     monthly_count monthYear atts present total = inl out_of_range) /\
  (~ Exists short_date atts ->
     exists r, monthly_count monthYear atts present total = inr r).
Proof.
  revert present total. induction atts as [|att atts IH]; intros; simpl.
  - split; [intros H; inversion H|eauto].
  - destruct (in_month_raises monthYear att) as [Hs Hl].
    destruct (Nat.lt_ge_cases (String.length (date att)) 5) as [Hc|Hc].
    + rewrite (Hs Hc). split; [reflexivity|].
      intros H. exfalso. apply H. left. exact Hc.
    + destruct Hl as [b ->]; [unfold short_date; lia|].
      assert (Hiff : Exists short_date (att :: atts) <-> Exists short_date atts).
      { rewrite Exists_cons. unfold short_date at 1. split; [|tauto].
        intros [?|?]; [lia|assumption]. }
      rewrite Hiff. destruct b; apply IH.
Qed.

Lemma viewMonthlyAttendance_loop_raises (monthYear : string)
    (students : list Student) (out : list MonthlyRow) :
  (Exists has_short_date students ->
     raised (viewMonthlyAttendance_loop monthYear students out)
       = Some out_of_range) /\
  (~ Exists has_short_date students ->
     raised (viewMonthlyAttendance_loop monthYear students out) = None).
Proof.
  revert out. induction students as [|s students IH]; intros out; simpl.
  - split; [intros H; inversion H|reflexivity].
  - destruct (monthly_count_raises monthYear (attendanceRecords s) 0 0)
      as [Hs Hl].
    destruct (Exists_dec short_date (attendanceRecords s)) as [Hc|Hc].
    { intros att. unfold short_date.
      destruct (Compare_dec.lt_dec (String.length (date att)) 5); [left|right]; lia. }
    + rewrite (Hs Hc). simpl. split; [reflexivity|].
      intros H. exfalso. apply H. left. exact Hc.
    + destruct (Hl Hc) as [[present total] ->].
      assert (Hiff : Exists has_short_date (s :: students)
                     <-> Exists has_short_date students).
      { rewrite Exists_cons. unfold has_short_date at 1. tauto. }
      rewrite Hiff. destruct (total >? 0); apply IH.
Qed.

(** C10.  The monthly aggregation takes [date.substr(5, 2)] and
    [date.substr(0, 4)] of every attendance entry of every record.  It
    completes without an exception exactly when every stored date has at
    least 5 characters; a single entry with a shorter date makes the
    substring access raise [out_of_range].  Dates are stored as typed:
    marking attendance with the date "2024" makes the next monthly report
    raise. *)
Theorem viewMonthlyAttendance_short_date (monthYear : string)
    (students : list Student) :
  ((exists s att, In s students /\ In att (attendanceRecords s) /\
                  (String.length (date att) < 5)%nat) ->
     raised (viewMonthlyAttendance monthYear students) = Some out_of_range) /\
  ((forall s att, In s students -> In att (attendanceRecords s) ->
                  (5 <= String.length (date att))%nat) ->
     raised (viewMonthlyAttendance monthYear students) = None) /\
  raised (viewMonthlyAttendance "01-2024"
            (markAttendance "2024" (fun _ => "P"%char)
               [example_student "A" 1 "X" 70])) = Some out_of_range.
Proof.
  unfold viewMonthlyAttendance.
  destruct (viewMonthlyAttendance_loop_raises monthYear students []) as [Hs Hl].
  split; [|split; [|reflexivity]].
  - intros (s & att & H1 & H2 & H3). apply Hs.
    apply Exists_exists. exists s. split; auto.
    apply Exists_exists. exists att. split; auto.
  - intros H. apply Hl. intros Hex.
    apply Exists_exists in Hex. destruct Hex as (s & H1 & H2).
    apply Exists_exists in H2. destruct H2 as (att & H2 & H3).
    specialize (H s att H1 H2). unfold short_date in H3. lia.
Qed.

Lemma viewMonthlyAttendance_short_date_witness :
  let s := {| name := "A"; rollNo := 1; studentClass := "X"; age := 15;
              gender := "F"; marks := zero_marks; percentage := f0;
              grade := "F"; gpa := f0;
              attendanceRecords :=
                [{| date := "2024-01-15"; status := "Present" |};
                 {| date := "1/15" ; status := "Absent" |}] |} in
  raised (viewMonthlyAttendance "01-2024" [s]) = Some out_of_range.
Proof.
  intros s.
  apply (proj1 (viewMonthlyAttendance_short_date "01-2024" [s])).
  exists s, {| date := "1/15" ; status := "Absent" |}. simpl. auto 6.
Defined.

End Monthly.

(** ** Sorting *)

Section InsertionSort.

Context {A : Type}.
Variable comp : A -> A -> bool.

Lemma insert_before_permutation (x : A) (l : list A) :
  Permutation (x :: l) (insert_before comp x l).
Proof.
  induction l as [|y l IH]; simpl; [constructor; constructor|].
  destruct (comp y x); [|apply Permutation_refl].
  eapply Permutation_trans; [apply perm_swap|]. constructor. exact IH.
Qed.

Lemma insertion_sort_permutation_acc (l acc : list A) :
  Permutation (acc ++ l) (fold_left (fun acc x => insert_before comp x acc) l acc).
Proof.
  revert acc. induction l as [|x l IH]; intros acc; simpl.
  - rewrite app_nil_r. apply Permutation_refl.
  - eapply Permutation_trans; [|apply IH].
    eapply Permutation_trans; [apply Permutation_sym, Permutation_middle|].
    apply (Permutation_app_tail l (insert_before_permutation x acc)).
Qed.

Hypothesis comp_swo : strict_weak_ordering comp.

Lemma insert_before_sorted (x : A) (l : list A) :
  StronglySorted (fun a b => comp b a = false) l ->
  StronglySorted (fun a b => comp b a = false) (insert_before comp x l).
Proof.
  destruct comp_swo as (Hirr & Htrans & Hneg).
  induction l as [|y l IH]; intros Hs; simpl.
  - constructor; constructor.
  - inversion Hs as [|? ? Hl Hy]; subst.
    destruct (comp y x) eqn:Hyx.
    + constructor; [apply IH; exact Hl|].
      apply Forall_forall. intros z Hz.
      apply (Permutation_in _ (Permutation_sym (insert_before_permutation x l))) in Hz.
      destruct Hz as [<-|Hz].
      * destruct (comp x y) eqn:Hxy; [|reflexivity].
        pose proof (Htrans _ _ _ Hyx Hxy) as Hyy. rewrite Hirr in Hyy.
        discriminate.
      * rewrite Forall_forall in Hy. auto.
    + constructor; [exact Hs|].
      constructor; [exact Hyx|].
      apply Forall_forall. intros z Hz. rewrite Forall_forall in Hy.
      eapply Hneg; [apply Hy; exact Hz|exact Hyx].
Qed.

Lemma insertion_sort_sorted_acc (l acc : list A) :
  StronglySorted (fun a b => comp b a = false) acc ->
  StronglySorted (fun a b => comp b a = false)
    (fold_left (fun acc x => insert_before comp x acc) l acc).
Proof.
  revert acc. induction l as [|x l IH]; intros acc Hs; simpl; [exact Hs|].
  apply IH. apply insert_before_sorted. exact Hs.
Qed.

End InsertionSort.

(** The insertion sort meets the contract of [std::sort]. *)
Lemma insertion_sort_conforming : conforming insertion_sort.
Proof.
  intros A comp l swo. split.
  - apply (insertion_sort_permutation_acc comp l []).
  - apply (insertion_sort_sorted_acc comp swo l []). constructor.
Qed.

(** ** The [std::sort] of the GNU library meets the contract *)

Module GnuSort.

Import Libstdcxx.

Lemma sorted_snoc {B : Type} (Q : B -> B -> Prop) (a : list B) (x : B) :
  StronglySorted Q a -> Forall (fun b => Q b x) a ->
  StronglySorted Q (a ++ [x]).
Proof.
  induction 1 as [|y a Ha IH Hy]; intros Hx; simpl.
  - constructor; constructor.
  - inversion Hx; subst. constructor; [auto|].
    apply Forall_app. split; [exact Hy|]. constructor; [assumption|constructor].
Qed.

Lemma sorted_rev {B : Type} (Q : B -> B -> Prop) (l : list B) :
  StronglySorted Q l -> StronglySorted (fun a b => Q b a) (rev l).
Proof.
  induction 1 as [|x l Hl IH Hx]; simpl; [constructor|].
  apply sorted_snoc; [exact IH|]. apply Forall_rev. exact Hx.
Qed.

Section Contract.

Context {A : Type}.
Variable comp : A -> A -> bool.
Variable outside : A.

Local Notation "'at_'" := (Libstdcxx.at_ outside).

Lemma at_assign_same (i : nat) (v : A) (l : list A) :
  (i < List.length l)%nat -> at_ (assign i v l) i = v.
Proof.
  unfold Libstdcxx.at_. revert i.
  induction l as [|x l IH]; intros [|i] H; simpl in *; try lia; auto.
  apply IH. lia.
Qed.

Lemma at_assign_other (i j : nat) (v : A) (l : list A) :
  i <> j -> at_ (assign i v l) j = at_ l j.
Proof.
  unfold Libstdcxx.at_. revert i j.
  induction l as [|x l IH]; intros [|i] [|j] H; simpl; try congruence; auto.
Qed.

Lemma assign_self (i : nat) (l : list A) : assign i (at_ l i) l = l.
Proof.
  unfold Libstdcxx.at_. revert i.
  induction l as [|x l IH]; intros [|i]; simpl; try reflexivity.
  f_equal. apply IH.
Qed.

Lemma nth_error_at (i : nat) (l : list A) :
  (i < List.length l)%nat -> nth_error l i = Some (at_ l i).
Proof.
  unfold Libstdcxx.at_. revert i.
  induction l as [|x l IH]; intros [|i] H; simpl in *; try lia; auto.
  apply IH. lia.
Qed.

Lemma nth_error_assign_same (i : nat) (v : A) (l : list A) :
  (i < List.length l)%nat -> nth_error (assign i v l) i = Some v.
Proof.
  revert i. induction l as [|x l IH]; intros [|i] H; simpl in *; try lia; auto.
  apply IH. lia.
Qed.

Lemma nth_error_assign_other (i j : nat) (v : A) (l : list A) :
  i <> j -> nth_error (assign i v l) j = nth_error l j.
Proof.
  revert i j.
  induction l as [|x l IH]; intros [|i] [|j] H; simpl; try congruence; auto.
Qed.

(** Moving the hole: the value [v] that is still to be stored may go to
    [i] or, once the element at [j] has been copied to [i], to [j]. *)
Lemma hole_move (i j : nat) (v : A) (l : list A) :
  (i < List.length l)%nat -> (j < List.length l)%nat ->
  Permutation (assign j v (assign i (at_ l j) l)) (assign i v l).
Proof.
  intros Hi Hj. apply Permutation_sym.
  apply Permutation_nth_error.
  rewrite !assign_length. split; [reflexivity|].
  exists (fun x => if Nat.eqb x j then i else if Nat.eqb x i then j else x).
  split.
  - intros x y.
    destruct (Nat.eqb_spec x j), (Nat.eqb_spec x i), (Nat.eqb_spec y j),
      (Nat.eqb_spec y i); lia.
  - intros x.
    destruct (Nat.eqb_spec x j) as [->|Hxj].
    + rewrite !nth_error_assign_same by (rewrite ?assign_length; lia).
      reflexivity.
    + rewrite (nth_error_assign_other j x) by lia.
      destruct (Nat.eqb_spec x i) as [->|Hxi].
      * rewrite nth_error_assign_same by lia.
        rewrite nth_error_assign_other by lia. symmetry.
        apply nth_error_at. exact Hj.
      * rewrite !nth_error_assign_other by lia. reflexivity.
Qed.

Lemma iter_swap_permutation (a b : nat) (arr : list A) :
  (a < List.length arr)%nat -> (b < List.length arr)%nat ->
  Permutation arr (iter_swap outside a b arr).
Proof.
  intros Ha Hb. unfold iter_swap. apply Permutation_sym.
  eapply Permutation_trans; [apply hole_move; assumption|].
  rewrite assign_self. apply Permutation_refl.
Qed.

Lemma iter_swap_length (a b : nat) (arr : list A) :
  List.length (iter_swap outside a b arr) = List.length arr.
Proof. unfold iter_swap. rewrite !assign_length. reflexivity. Qed.

(** *** The heap routines rearrange *)

Lemma push_heap_loop_permutation (fuel : nat) :
  forall (first hole top : nat) (value : A) (arr : list A),
  (first + hole < List.length arr)%nat ->
  List.length (push_heap_loop comp outside fuel first hole top value arr)
    = List.length arr /\
  Permutation (push_heap_loop comp outside fuel first hole top value arr)
              (assign (first + hole) value arr).
Proof.
  induction fuel as [|fuel IH]; intros first hole top value arr H;
    cbn [push_heap_loop].
  - rewrite assign_length. split; [reflexivity|apply Permutation_refl].
  - destruct (Nat.ltb top hole && comp (at_ arr (first + (hole - 1) / 2)) value)%bool.
    + assert (Hp : ((hole - 1) / 2 <= hole)%nat).
      { destruct hole; [reflexivity|]. 
        apply Nat.Div0.div_le_upper_bound. lia. }
      destruct (IH first ((hole - 1) / 2)%nat top value
                  (assign (first + hole) (at_ arr (first + (hole - 1) / 2)) arr))
        as [L P].
      { rewrite assign_length. lia. }
      rewrite assign_length in L. split; [exact L|].
      eapply Permutation_trans; [exact P|].
      apply hole_move; lia.
    + rewrite assign_length. split; [reflexivity|apply Permutation_refl].
Qed.


Lemma sift_down_permutation (fuel : nat) :
  forall (first hole len : nat) (arr : list A),
  (hole < len)%nat -> (first + len <= List.length arr)%nat ->
  let '(hole', _, arr') := sift_down comp outside fuel first hole hole len arr in
  (hole' < len)%nat /\ List.length arr' = List.length arr /\
  forall v, Permutation (assign (first + hole') v arr')
                        (assign (first + hole) v arr).
Proof.
  induction fuel as [|fuel IH]; intros first hole len arr Hh Hl;
    cbn [sift_down].
  - split; [exact Hh|]. split; [reflexivity|]. intros v. apply Permutation_refl.
  - destruct (Nat.ltb hole ((len - 1) / 2)) eqn:E.
    + apply Nat.ltb_lt in E.
      set (c := if comp (at_ arr (first + 2 * (hole + 1)))
                        (at_ arr (first + (2 * (hole + 1) - 1)))
                then (2 * (hole + 1) - 1)%nat else (2 * (hole + 1))%nat).
      assert (Hc : (c < len)%nat).
      { assert (2 * ((len - 1) / 2) <= len - 1)%nat
          by (apply Nat.Div0.mul_div_le).
        subst c. destruct (comp _ _); lia. }
      specialize (IH first c len
                    (assign (first + hole) (at_ arr (first + c)) arr) Hc).
      rewrite assign_length in IH. specialize (IH Hl).
      destruct (sift_down comp outside fuel first c c len
                  (assign (first + hole) (at_ arr (first + c)) arr))
        as [[hole' sc'] arr'].
      destruct IH as (I1 & I2 & I3).
      split; [exact I1|]. split; [exact I2|]. intros v.
      eapply Permutation_trans; [apply I3|].
      apply hole_move; lia.
    + split; [exact Hh|]. split; [reflexivity|].
      intros v. apply Permutation_refl.
Qed.

Lemma adjust_heap_permutation (first hole len : nat) (value : A)
    (arr : list A) :
  (hole < len)%nat -> (first + len <= List.length arr)%nat ->
  List.length (adjust_heap comp outside first hole len value arr)
    = List.length arr /\
  Permutation (adjust_heap comp outside first hole len value arr)
              (assign (first + hole) value arr).
Proof.
  intros Hh Hl. unfold adjust_heap.
  pose proof (sift_down_permutation len first hole len arr Hh Hl) as H.
  destruct (sift_down comp outside len first hole hole len arr)
    as [[hole' sc'] arr'].
  destruct H as (H1 & H2 & H3).
  destruct (Nat.even len && Nat.eqb sc' ((len - 2) / 2))%bool eqn:E.
  - apply andb_prop in E. destruct E as [Ev E]. apply Nat.eqb_eq in E.
    assert (Hc : (2 * (sc' + 1) - 1 < len)%nat).
    { assert (2 * ((len - 2) / 2) <= len - 2)%nat
        by (apply Nat.Div0.mul_div_le).
      destruct len as [|[|len]]; [lia|discriminate Ev|]. lia. }
    destruct (push_heap_loop_permutation (2 * (sc' + 1) - 1) first
                (2 * (sc' + 1) - 1) hole value
                (assign (first + hole')
                   (at_ arr' (first + (2 * (sc' + 1) - 1))) arr'))
      as [L P].
    { rewrite assign_length. lia. }
    unfold push_heap. rewrite assign_length in L. split; [congruence|].
    eapply Permutation_trans; [exact P|].
    eapply Permutation_trans; [|apply H3].
    apply hole_move; lia.
  - destruct (push_heap_loop_permutation hole' first hole' hole value arr')
      as [L P]; [lia|].
    unfold push_heap. split; [congruence|].
    eapply Permutation_trans; [exact P|]. apply H3.
Qed.

Lemma pop_heap_permutation (first last result : nat) (arr : list A) :
  (first < last)%nat -> (last <= List.length arr)%nat ->
  (result < List.length arr)%nat ->
  List.length (pop_heap comp outside first last result arr) = List.length arr /\
  Permutation arr (pop_heap comp outside first last result arr).
Proof.
  intros Hf Hl Hr. unfold pop_heap.
  destruct (adjust_heap_permutation first 0 (last - first) (at_ arr result)
              (assign result (at_ arr first) arr)) as [L P].
  - lia.
  - rewrite assign_length. lia.
  - rewrite assign_length in L. split; [exact L|].
    apply Permutation_sym. eapply Permutation_trans; [exact P|].
    rewrite Nat.add_0_r.
    eapply Permutation_trans; [apply hole_move; lia|].
    rewrite assign_self. apply Permutation_refl.
Qed.

Lemma make_heap_loop_permutation (parent : nat) :
  forall (first len : nat) (arr : list A),
  (parent < len)%nat -> (first + len <= List.length arr)%nat ->
  List.length (make_heap_loop comp outside parent first len arr)
    = List.length arr /\
  Permutation arr (make_heap_loop comp outside parent first len arr).
Proof.
  induction parent as [|parent IH]; intros first len arr Hp Hl;
    cbn [make_heap_loop].
  - destruct (adjust_heap_permutation first 0 len (at_ arr (first + 0)) arr
                Hp Hl) as [L P].
    rewrite assign_self in P.
    split; [exact L|]. apply Permutation_sym. exact P.
  - destruct (adjust_heap_permutation first (S parent) len
                (at_ arr (first + S parent)) arr Hp Hl) as [L P].
    rewrite assign_self in P.
    destruct (IH first len
                (adjust_heap comp outside first (S parent) len
                   (at_ arr (first + S parent)) arr)) as [L' P'];
      [lia|lia|].
    split; [congruence|].
    eapply Permutation_trans; [apply Permutation_sym; exact P|exact P'].
Qed.

Lemma make_heap_permutation (first last : nat) (arr : list A) :
  (last <= List.length arr)%nat ->
  List.length (make_heap comp outside first last arr) = List.length arr /\
  Permutation arr (make_heap comp outside first last arr).
Proof.
  intros Hl. unfold make_heap.
  destruct (Nat.ltb (last - first) 2) eqn:E.
  - split; [reflexivity|apply Permutation_refl].
  - apply Nat.ltb_ge in E. apply make_heap_loop_permutation; [|lia].
    assert (2 * ((last - first - 2) / 2) <= last - first - 2)%nat
      by (apply Nat.Div0.mul_div_le).
    lia.
Qed.

Lemma sort_heap_loop_permutation (n : nat) :
  forall (first : nat) (arr : list A),
  (first + n <= List.length arr)%nat ->
  List.length (sort_heap_loop comp outside n first arr) = List.length arr /\
  Permutation arr (sort_heap_loop comp outside n first arr).
Proof.
  induction n as [|n IH]; intros first arr Hl.
  - split; [reflexivity|apply Permutation_refl].
  - destruct n as [|n].
    + split; [reflexivity|apply Permutation_refl].
    + change (sort_heap_loop comp outside (S (S n)) first arr)
        with (sort_heap_loop comp outside (S n) first
                (pop_heap comp outside first (first + S n) (first + S n) arr)).
      destruct (pop_heap_permutation first (first + S n) (first + S n) arr)
        as [L P]; [lia|lia|lia|].
      destruct (IH first
                  (pop_heap comp outside first (first + S n) (first + S n) arr))
        as [L' P']; [lia|].
      split; [congruence|].
      eapply Permutation_trans; [exact P|exact P'].
Qed.

(** [partial_sort(first, last, last)], the heap sort that [introsort]
    falls back to. *)
Lemma partial_sort_permutation (first last : nat) (arr : list A) :
  (first <= last)%nat -> (last <= List.length arr)%nat ->
  List.length (partial_sort comp outside first last last arr)
    = List.length arr /\
  Permutation arr (partial_sort comp outside first last last arr).
Proof.
  intros Hf Hl. unfold partial_sort, heap_select, sort_heap.
  rewrite Nat.sub_diag. cbn [heap_select_loop].
  destruct (make_heap_permutation first last arr Hl) as [L P].
  destruct (sort_heap_loop_permutation (last - first) first
              (make_heap comp outside first last arr)) as [L' P']; [lia|].
  split; [congruence|].
  eapply Permutation_trans; [exact P|exact P'].
Qed.

(** *** The insertion sorts, as insertions into a list *)

Lemma at_middle (pre post : list A) (x : A) :
  at_ (pre ++ x :: post) (List.length pre) = x.
Proof.
  unfold Libstdcxx.at_. rewrite app_nth2, Nat.sub_diag by lia. reflexivity.
Qed.

Lemma assign_at (pre post : list A) (x v : A) :
  assign (List.length pre) v (pre ++ x :: post) = pre ++ v :: post.
Proof. induction pre as [|y pre IH]; simpl; [reflexivity|]. f_equal. exact IH. Qed.

Lemma linear_insert_loop (rP : list A) :
  forall (fuel : nat) (val x : A) (post : list A),
  (List.length rP <= fuel)%nat ->
  unguarded_linear_insert_loop comp outside fuel val (List.length rP)
    (rev rP ++ x :: post)
  = rev (insert_from_right comp val rP) ++ post.
Proof.
  induction rP as [|y r IH]; intros fuel val x post Hfuel.
  - simpl. destruct fuel; reflexivity.
  - destruct fuel as [|fuel]; [simpl in Hfuel; lia|].
    cbn [List.length unguarded_linear_insert_loop insert_from_right].
    assert (Hy : at_ (rev (y :: r) ++ x :: post) (List.length r) = y).
    { cbn [rev]. rewrite <- app_assoc. cbn [app].
      rewrite <- length_rev. apply at_middle. }
    rewrite Hy.
    assert (Hl : List.length (rev (y :: r)) = S (List.length r))
      by (rewrite length_rev; reflexivity).
    destruct (comp val y).
    + rewrite <- Hl, assign_at. cbn [rev]. rewrite <- !app_assoc. cbn [app].
      rewrite (IH fuel val y (y :: post)) by (simpl in Hfuel; lia).
      reflexivity.
    + rewrite <- Hl, assign_at. cbn [rev]. rewrite <- !app_assoc. reflexivity.
Qed.

Lemma insert_from_right_length (val : A) (rP : list A) :
  List.length (insert_from_right comp val rP) = S (List.length rP).
Proof.
  induction rP as [|y r IH]; simpl; [reflexivity|].
  destruct (comp val y); simpl; [rewrite IH|]; reflexivity.
Qed.

Lemma insertion_step_length (val : A) (P : list A) :
  List.length (insertion_step comp val P) = S (List.length P).
Proof.
  destruct P as [|p0 P']; [reflexivity|]. cbn [insertion_step].
  destruct (comp val p0); [reflexivity|].
  rewrite length_rev, insert_from_right_length, length_rev. reflexivity.
Qed.

Lemma unguarded_linear_insert_step (P : list A) (val : A) (post : list A) :
  unguarded_linear_insert comp outside (List.length P) (P ++ val :: post)
  = rev (insert_from_right comp val (rev P)) ++ post.
Proof.
  unfold unguarded_linear_insert. rewrite at_middle.
  pose proof (linear_insert_loop (rev P) (List.length P) val val post) as H.
  rewrite rev_involutive, length_rev in H. apply H. lia.
Qed.

Lemma move_backward_S (k first : nat) (arr : list A) :
  move_backward outside (S k) first arr
  = move_backward outside k first
      (assign (first + k + 1) (at_ arr (first + k)) arr).
Proof. reflexivity. Qed.

(** [move_backward] shifts a block one place up. *)
Lemma move_backward_block (mid : list A) :
  forall (pre post : list A) (m0 x : A),
  move_backward outside (S (List.length mid)) (List.length pre)
    (pre ++ m0 :: mid ++ x :: post)
  = pre ++ m0 :: m0 :: mid ++ post.
Proof.
  induction mid as [|m mid IH] using rev_ind; intros pre post m0 x.
  - simpl. rewrite Nat.add_0_r.
    replace (List.length pre + 1)%nat with (List.length (pre ++ [m0]))
      by (rewrite length_app; reflexivity).
    rewrite at_middle.
    change (pre ++ m0 :: x :: post) with (pre ++ [m0] ++ x :: post).
    rewrite app_assoc, assign_at, <- app_assoc. reflexivity.
  - rewrite length_app. cbn [List.length]. rewrite Nat.add_1_r.
    rewrite move_backward_S.
    assert (E1 : at_ (pre ++ m0 :: (mid ++ [m]) ++ x :: post)
                   (List.length pre + S (List.length mid)) = m).
    { replace (List.length pre + S (List.length mid))%nat
        with (List.length (pre ++ m0 :: mid))
        by (rewrite length_app; simpl; lia).
      replace (pre ++ m0 :: (mid ++ [m]) ++ x :: post)
        with ((pre ++ m0 :: mid) ++ m :: x :: post)
        by (repeat (rewrite <- app_assoc; cbn [app]); reflexivity).
      apply at_middle. }
    rewrite E1.
    replace (List.length pre + S (List.length mid) + 1)%nat
      with (List.length (pre ++ m0 :: mid ++ [m]))
      by (rewrite !length_app; simpl; rewrite length_app; simpl; lia).
    replace (pre ++ m0 :: (mid ++ [m]) ++ x :: post)
      with ((pre ++ m0 :: mid ++ [m]) ++ x :: post)
      by (repeat (rewrite <- app_assoc; cbn [app]); reflexivity).
    rewrite assign_at.
    replace ((pre ++ m0 :: mid ++ [m]) ++ m :: post)
      with (pre ++ m0 :: mid ++ m :: m :: post)
      by (repeat (rewrite <- app_assoc; cbn [app]); reflexivity).
    rewrite (IH pre (m :: post) m0 m).
    repeat (rewrite <- app_assoc; cbn [app]). reflexivity.
Qed.

(** The loop of [__insertion_sort] over the elements [R] that follow the
    prefix [P]; what comes after [R] stays. *)
Lemma insertion_sort_loop_steps (R : list A) :
  forall (P : list A) (p0 : A) (P' post : list A),
  P = p0 :: P' ->
  insertion_sort_loop comp outside (List.length R) (List.length P) 0
    (P ++ R ++ post)
  = fold_left (fun P val => insertion_step comp val P) R P ++ post.
Proof.
  induction R as [|val R IH]; intros P p0 P' post HP.
  - reflexivity.
  - cbn [List.length insertion_sort_loop fold_left app].
    rewrite at_middle.
    assert (H0 : at_ (P ++ val :: R ++ post) 0 = p0) by (subst P; reflexivity).
    rewrite H0.
    assert (Hstep : (if comp val p0
                     then assign 0 val
                            (move_backward outside (List.length P - 0) 0
                               (P ++ val :: R ++ post))
                     else unguarded_linear_insert comp outside
                            (List.length P) (P ++ val :: R ++ post))
                    = insertion_step comp val P ++ R ++ post).
    { subst P. cbn [insertion_step]. destruct (comp val p0).
      - rewrite Nat.sub_0_r. cbn [List.length].
        change ((p0 :: P') ++ val :: R ++ post)
          with ([] ++ p0 :: P' ++ val :: R ++ post).
        change 0%nat with (List.length (@nil A)) at 2.
        rewrite move_backward_block. reflexivity.
      - apply unguarded_linear_insert_step. }
    rewrite Hstep.
    destruct (insertion_step comp val P) as [|q0 Q'] eqn:Hq.
    { apply (f_equal (@List.length A)) in Hq.
      rewrite insertion_step_length in Hq. discriminate. }
    replace (S (List.length P)) with (List.length (q0 :: Q'))
      by (rewrite <- Hq; apply insertion_step_length).
    apply (IH _ q0 Q' post eq_refl).
Qed.

(** The loop of [__unguarded_insertion_sort] over the elements [R] that
    follow the prefix [P]. *)
Lemma unguarded_insertion_sort_loop_steps (R : list A) :
  forall (P : list A),
  unguarded_insertion_sort_loop comp outside (List.length R) (List.length P)
    (P ++ R)
  = fold_left (fun P val => rev (insert_from_right comp val (rev P))) R P.
Proof.
  induction R as [|val R IH]; intros P.
  - simpl. apply app_nil_r.
  - cbn [List.length unguarded_insertion_sort_loop fold_left].
    rewrite unguarded_linear_insert_step.
    replace (S (List.length P))
      with (List.length (rev (insert_from_right comp val (rev P))))
      by (rewrite length_rev, insert_from_right_length, length_rev;
          reflexivity).
    apply IH.
Qed.

(** On at most sixteen elements, the library's sort is the insertion
    sort alone. *)
Lemma introsort_loop_small (depth first last : nat) (arr : list A) :
  (last - first <= 16)%nat ->
  introsort_loop comp outside depth first last arr = arr.
Proof.
  intros H.
  assert (E : Nat.ltb threshold (last - first) = false)
    by (apply Nat.ltb_ge; unfold threshold; lia).
  destruct depth; simpl; rewrite E; reflexivity.
Qed.

(** *** The partition rearranges

    This is where the comparison has to be a strict weak ordering: the
    scans of [__unguarded_partition] have no bound of their own, and stop
    inside the range because the pivot is a median of three. *)

Hypothesis comp_swo : strict_weak_ordering comp.

Lemma comp_asymmetric (a b : A) : comp a b = true -> comp b a = false.
Proof.
  destruct comp_swo as (Hirr & Htrans & _). intros H.
  destruct (comp b a) eqn:E; [|reflexivity].
  rewrite <- (Hirr a). symmetry. eapply Htrans; eassumption.
Qed.

Lemma iter_swap_at (a b : nat) (arr : list A) :
  (a < List.length arr)%nat -> (b < List.length arr)%nat ->
  at_ (iter_swap outside a b arr) a = at_ arr b /\
  at_ (iter_swap outside a b arr) b = at_ arr a /\
  forall k, k <> a -> k <> b -> at_ (iter_swap outside a b arr) k = at_ arr k.
Proof.
  intros Ha Hb. unfold iter_swap. split; [|split].
  - destruct (Nat.eq_dec a b) as [->|Hab].
    + rewrite at_assign_same by (rewrite assign_length; lia). reflexivity.
    + rewrite at_assign_other by lia. apply at_assign_same. exact Ha.
  - apply at_assign_same. rewrite assign_length. exact Hb.
  - intros k Hka Hkb. rewrite !at_assign_other by lia. reflexivity.
Qed.

(** After [__move_median_to_first], one of the three positions holds an
    element that is not below the pivot. *)
Lemma move_median_to_first_sentinel (result a b c : nat) (arr : list A) :
  (result < List.length arr)%nat -> (a < List.length arr)%nat ->
  (b < List.length arr)%nat -> (c < List.length arr)%nat ->
  result <> a -> result <> b -> result <> c -> a <> b -> b <> c -> a <> c ->
  let arr' := move_median_to_first comp outside result a b c arr in
  List.length arr' = List.length arr /\ Permutation arr arr' /\
  exists s, (s = a \/ s = b \/ s = c) /\
            comp (at_ arr' s) (at_ arr' result) = false.
Proof.
  intros Hr Ha Hb Hc Hra Hrb Hrc Hab Hbc Hac. unfold move_median_to_first.
  destruct (iter_swap_at result a arr Hr Ha) as (A1 & A2 & A3).
  destruct (iter_swap_at result b arr Hr Hb) as (B1 & B2 & B3).
  destruct (iter_swap_at result c arr Hr Hc) as (C1 & C2 & C3).
  destruct (comp (at_ arr a) (at_ arr b)) eqn:Eab;
    [destruct (comp (at_ arr b) (at_ arr c)) eqn:Ebc;
       [|destruct (comp (at_ arr a) (at_ arr c)) eqn:Eac]
    |destruct (comp (at_ arr a) (at_ arr c)) eqn:Eac;
       [|destruct (comp (at_ arr b) (at_ arr c)) eqn:Ebc]];
    cbv zeta; rewrite iter_swap_length;
    (split; [reflexivity|]);
    (split; [apply iter_swap_permutation; assumption|]).
  - exists c. split; [auto|]. rewrite B3, B1 by auto.
    apply comp_asymmetric. exact Ebc.
  - exists b. split; [auto|]. rewrite C3, C1 by auto. exact Ebc.
  - exists b. split; [auto|]. rewrite A3, A1 by auto.
    apply comp_asymmetric. exact Eab.
  - exists c. split; [auto|]. rewrite A3, A1 by auto.
    apply comp_asymmetric. exact Eac.
  - exists a. split; [auto|]. rewrite C3, C1 by auto. exact Eac.
  - exists a. split; [auto|]. rewrite B3, B1 by auto. exact Eab.
Qed.

Lemma scan_up_stops (fuel : nat) :
  forall (arr : list A) (first pivot s : nat),
  (first <= s)%nat -> comp (at_ arr s) (at_ arr pivot) = false ->
  (s - first < fuel)%nat ->
  (first <= scan_up comp outside fuel arr first pivot <= s)%nat /\
  comp (at_ arr (scan_up comp outside fuel arr first pivot)) (at_ arr pivot)
    = false.
Proof.
  induction fuel as [|fuel IH]; intros arr first pivot s Hs Hc Hf; [lia|].
  cbn [scan_up].
  destruct (comp (at_ arr first) (at_ arr pivot)) eqn:E.
  - assert (first <> s) by (intros ->; congruence).
    destruct (IH arr (S first) pivot s) as [H1 H2]; [lia|exact Hc|lia|].
    split; [lia|exact H2].
  - split; [lia|exact E].
Qed.

Lemma scan_down_le (fuel : nat) :
  forall (arr : list A) (last pivot : nat),
  (scan_down comp outside fuel arr last pivot <= last)%nat.
Proof.
  induction fuel as [|fuel IH]; intros arr last pivot; cbn [scan_down];
    [lia|].
  destruct (comp (at_ arr pivot) (at_ arr last)); [|lia].
  specialize (IH arr (pred last) pivot). lia.
Qed.

Lemma unguarded_partition_permutation (fuel : nat) :
  forall (first last pivot hi : nat) (arr : list A) (s : nat),
  (pivot < first)%nat -> (first <= s < hi)%nat -> (last <= hi)%nat ->
  (hi <= List.length arr)%nat ->
  comp (at_ arr s) (at_ arr pivot) = false ->
  let '(cut, arr') := unguarded_partition comp outside fuel first last pivot arr in
  (first <= cut < hi)%nat /\ List.length arr' = List.length arr /\
  Permutation arr arr'.
Proof.
  induction fuel as [|fuel IH]; intros first last pivot hi arr s Hp Hs Hl Hh Hc;
    cbn [unguarded_partition].
  - split; [lia|]. split; [reflexivity|apply Permutation_refl].
  - cbv zeta.
    destruct (scan_up_stops (List.length arr) arr first pivot s) as [U1 U2];
      [lia|exact Hc|lia|].
    pose proof (scan_down_le (List.length arr) arr (pred last) pivot) as D.
    set (first' := scan_up comp outside (List.length arr) arr first pivot) in *.
    set (last' := scan_down comp outside (List.length arr) arr (pred last) pivot)
      in *.
    destruct (Nat.ltb first' last') eqn:E; cbn [negb].
    + apply Nat.ltb_lt in E.
      assert (Hf' : (first' < List.length arr)%nat) by lia.
      assert (Hl' : (last' < List.length arr)%nat) by lia.
      destruct (iter_swap_at first' last' arr Hf' Hl') as (S1 & S2 & S3).
      specialize (IH (S first') last' pivot hi
                     (iter_swap outside first' last' arr) last').
      rewrite iter_swap_length in IH.
      destruct (unguarded_partition comp outside fuel (S first') last' pivot
                  (iter_swap outside first' last' arr)) as [cut arr'].
      destruct IH as (I1 & I2 & I3); try lia.
      { rewrite S2, S3 by lia. exact U2. }
      split; [lia|]. split; [exact I2|].
      eapply Permutation_trans; [|exact I3].
      apply iter_swap_permutation; assumption.
    + split; [lia|]. split; [reflexivity|apply Permutation_refl].
Qed.

Lemma unguarded_partition_pivot_permutation (first last : nat)
    (arr : list A) :
  (threshold < last - first)%nat -> (last <= List.length arr)%nat ->
  let '(cut, arr') := unguarded_partition_pivot comp outside first last arr in
  (first < cut < last)%nat /\ List.length arr' = List.length arr /\
  Permutation arr arr'.
Proof.
  unfold threshold. intros Ht Hl. unfold unguarded_partition_pivot.
  assert (Hm : (2 * ((last - first) / 2) <= last - first)%nat)
    by (apply Nat.Div0.mul_div_le).
  assert (Hm' : (last - first < 2 * ((last - first) / 2) + 2)%nat).
  { pose proof (Nat.div_mod_eq (last - first) 2) as Hd.
    pose proof (Nat.mod_upper_bound (last - first) 2 ltac:(lia)). lia. }
  destruct (move_median_to_first_sentinel first (S first)
              (first + (last - first) / 2) (pred last) arr)
    as (L & P & s & Hs & Hc); try lia.
  cbv zeta.
  set (arr1 := move_median_to_first comp outside first (S first)
                 (first + (last - first) / 2) (pred last) arr) in *.
  pose proof (unguarded_partition_permutation (List.length arr1) (S first)
                last first last arr1 s) as H.
  destruct (unguarded_partition comp outside (List.length arr1) (S first) last
              first arr1) as [cut arr'].
  destruct H as (H1 & H2 & H3); try lia; [exact Hc|].
  split; [lia|]. split; [congruence|].
  eapply Permutation_trans; [exact P|exact H3].
Qed.

Lemma introsort_loop_permutation (depth : nat) :
  forall (first last : nat) (arr : list A),
  (last <= List.length arr)%nat ->
  List.length (introsort_loop comp outside depth first last arr)
    = List.length arr /\
  Permutation arr (introsort_loop comp outside depth first last arr).
Proof.
  induction depth as [|depth IH]; intros first last arr Hl;
    cbn [introsort_loop];
    (destruct (Nat.ltb threshold (last - first)) eqn:E;
       [apply Nat.ltb_lt in E
       |split; [reflexivity|apply Permutation_refl]]).
  - apply partial_sort_permutation; [|exact Hl]. unfold threshold in E. lia.
  - pose proof (unguarded_partition_pivot_permutation first last arr E Hl) as H.
    destruct (unguarded_partition_pivot comp outside first last arr)
      as [cut arr1].
    destruct H as (H1 & H2 & H3).
    destruct (IH cut last arr1) as [L2 P2]; [lia|].
    destruct (IH first cut (introsort_loop comp outside depth cut last arr1))
      as [L3 P3]; [lia|].
    split; [congruence|].
    eapply Permutation_trans; [exact H3|].
    eapply Permutation_trans; [exact P2|exact P3].
Qed.

(** *** The insertion sorts put in order *)

Local Notation "'ordered'" := (StronglySorted (fun a b : A => comp b a = false)).

Lemma insert_from_right_ordered (val : A) (rP : list A) :
  StronglySorted (fun a b => comp a b = false) rP ->
  StronglySorted (fun a b => comp a b = false) (insert_from_right comp val rP) /\
  Permutation (val :: rP) (insert_from_right comp val rP).
Proof.
  destruct comp_swo as (_ & _ & Hneg).
  induction 1 as [|y r Hr IH Hy]; simpl.
  - split; [constructor; constructor|apply Permutation_refl].
  - destruct IH as [I1 I2]. destruct (comp val y) eqn:E.
    + split.
      * constructor; [exact I1|].
        eapply Permutation_Forall; [exact I2|].
        constructor; [|exact Hy]. apply comp_asymmetric. exact E.
      * eapply Permutation_trans; [apply perm_swap|].
        apply perm_skip. exact I2.
    + split; [|apply Permutation_refl].
      constructor; [constructor; assumption|].
      constructor; [exact E|].
      eapply Forall_impl; [|exact Hy]. intros z Hz. cbv beta in Hz.
      eapply Hneg; eassumption.
Qed.

Lemma from_right_ordered (val : A) (P : list A) :
  ordered P ->
  ordered (rev (insert_from_right comp val (rev P))) /\
  Permutation (P ++ [val]) (rev (insert_from_right comp val (rev P))).
Proof.
  intros H. apply sorted_rev in H.
  destruct (insert_from_right_ordered val (rev P) H) as [I1 I2]. split.
  - apply sorted_rev in I1. exact I1.
  - eapply Permutation_trans; [|apply Permutation_rev].
    eapply Permutation_trans; [|exact I2].
    eapply Permutation_trans; [apply Permutation_app_comm|]. simpl.
    apply perm_skip. apply Permutation_rev.
Qed.

Lemma insertion_step_ordered (val : A) (P : list A) :
  ordered P ->
  ordered (insertion_step comp val P) /\
  Permutation (P ++ [val]) (insertion_step comp val P).
Proof.
  intros H. destruct P as [|p0 P'].
  - split; [constructor; constructor|apply Permutation_refl].
  - cbn [insertion_step]. destruct (comp val p0) eqn:E.
    + split; [|apply Permutation_sym, Permutation_cons_append].
      constructor; [exact H|].
      destruct comp_swo as (Hirr & Htrans & _).
      inversion H as [|? ? _ Hp0]; subst.
      assert (Hall : Forall (fun b => comp b p0 = false) (p0 :: P'))
        by (constructor; [apply Hirr|exact Hp0]).
      eapply Forall_impl; [|exact Hall]. intros b Hb. cbv beta in Hb.
      destruct (comp b val) eqn:Eb; [|reflexivity].
      rewrite <- Hb. symmetry. eapply Htrans; eassumption.
    + apply from_right_ordered. exact H.
Qed.

Lemma insertion_steps_ordered (R : list A) :
  forall P : list A,
  ordered P ->
  ordered (fold_left (fun P val => insertion_step comp val P) R P) /\
  Permutation (P ++ R) (fold_left (fun P val => insertion_step comp val P) R P).
Proof.
  induction R as [|val R IH]; intros P H; cbn [fold_left].
  - rewrite app_nil_r. split; [exact H|apply Permutation_refl].
  - destruct (insertion_step_ordered val P H) as [S1 S2].
    destruct (IH _ S1) as [I1 I2]. split; [exact I1|].
    eapply Permutation_trans; [|exact I2].
    change (P ++ val :: R) with (P ++ [val] ++ R). rewrite app_assoc.
    apply Permutation_app_tail. exact S2.
Qed.

Lemma from_right_steps_ordered (R : list A) :
  forall P : list A,
  ordered P ->
  ordered (fold_left (fun P val => rev (insert_from_right comp val (rev P))) R P) /\
  Permutation (P ++ R)
    (fold_left (fun P val => rev (insert_from_right comp val (rev P))) R P).
Proof.
  induction R as [|val R IH]; intros P H; cbn [fold_left].
  - rewrite app_nil_r. split; [exact H|apply Permutation_refl].
  - destruct (from_right_ordered val P H) as [S1 S2].
    destruct (IH _ S1) as [I1 I2]. split; [exact I1|].
    eapply Permutation_trans; [|exact I2].
    change (P ++ val :: R) with (P ++ [val] ++ R). rewrite app_assoc.
    apply Permutation_app_tail. exact S2.
Qed.

(** [__final_insertion_sort] puts any vector in order: the first sixteen
    elements by [__insertion_sort], the others by
    [__unguarded_insertion_sort]. *)
Lemma final_insertion_sort_ordered (p0 : A) (rest : list A) :
  let arr := p0 :: rest in
  ordered (final_insertion_sort comp outside 0 (List.length arr) arr) /\
  Permutation arr (final_insertion_sort comp outside 0 (List.length arr) arr).
Proof.
  intros arr. unfold final_insertion_sort, insertion_sort.
  assert (H0 : ordered [p0]) by (constructor; constructor).
  destruct (Nat.ltb threshold (List.length arr - 0)) eqn:E.
  - apply Nat.ltb_lt in E. unfold threshold in *. subst arr.
    cbn [List.length] in E.
    change (0 + 16)%nat with 16%nat. change (0 =? 16)%nat with false.
    cbv iota. change (16 - 1)%nat with 15%nat.
    set (R := firstn 15 rest). set (T := skipn 15 rest).
    assert (HR : List.length R = 15%nat)
      by (subst R; apply firstn_length_le; lia).
    assert (HT : List.length T = (List.length (p0 :: rest) - 16)%nat)
      by (subst T; rewrite length_skipn; cbn [List.length]; lia).
    assert (Harr : p0 :: rest = [p0] ++ R ++ T)
      by (subst R T; rewrite firstn_skipn; reflexivity).
    destruct (insertion_steps_ordered R [p0] H0) as [F1 F2].
    pose proof (insertion_sort_loop_steps R [p0] p0 [] T eq_refl) as H1.
    set (F := fold_left (fun P val => insertion_step comp val P) R [p0]) in *.
    assert (HF : List.length F = 16%nat).
    { rewrite <- (Permutation_length F2), length_app, HR. reflexivity. }
    rewrite HR, <- Harr in H1. cbn [List.length] in H1. rewrite H1.
    unfold unguarded_insertion_sort.
    pose proof (unguarded_insertion_sort_loop_steps T F) as H2.
    rewrite HT, HF in H2. rewrite H2.
    destruct (from_right_steps_ordered T F F1) as [G1 G2].
    split; [exact G1|].
    eapply Permutation_trans; [|exact G2].
    rewrite Harr, app_assoc. apply Permutation_app_tail. exact F2.
  - subst arr. cbn [List.length Nat.eqb].
    destruct (insertion_steps_ordered rest [p0] H0) as [F1 F2].
    pose proof (insertion_sort_loop_steps rest [p0] p0 [] [] eq_refl) as H.
    rewrite !app_nil_r in H. cbn [List.length app] in H.
    replace (S (List.length rest) - 1)%nat with (List.length rest) by lia.
    rewrite H.
    split; [exact F1|exact F2].
Qed.

End Contract.

(** The sort of the library meets the contract of [std::sort]: for every
    strict weak ordering, the result is a rearrangement of the input, in
    order. *)
Lemma sort_conforming : conforming Libstdcxx.sort.
Proof.
  intros A comp l swo. unfold Libstdcxx.sort. destruct l as [|x l].
  - split; constructor.
  - destruct (introsort_loop_permutation comp x swo
                (2 * Nat.log2 (List.length (x :: l))) 0
                (List.length (x :: l)) (x :: l)) as [L P]; [lia|].
    destruct (introsort_loop comp x (2 * Nat.log2 (List.length (x :: l))) 0
                (List.length (x :: l)) (x :: l)) as [|p0 rest] eqn:E;
      [discriminate L|].
    rewrite <- L.
    destruct (final_insertion_sort_ordered comp x swo p0 rest) as [F1 F2].
    split; [|exact F1].
    eapply Permutation_trans; [exact P|exact F2].
Qed.

End GnuSort.

Module Sorting.

Import StudentOperations.

Lemma by_roll_strict_weak_ordering : strict_weak_ordering by_roll.
Proof.
  unfold by_roll. repeat split.
  - intros a. apply Z.ltb_irrefl.
  - intros a b c H1 H2. apply Z.ltb_lt in H1, H2. apply Z.ltb_lt. lia.
  - intros a b c H1 H2. apply Z.ltb_ge in H1, H2. apply Z.ltb_ge. lia.
Qed.

(** C3 (amended).  [sortStudents] rearranges the roster into ascending
    order of roll number: with any [std::sort] that meets the contract of
    the standard, as the sort of the GNU library does
    ([GnuSort.sort_conforming]), the result is a permutation of the roster
    in which no record comes before one with a smaller roll number.  The
    contract says nothing on the order of records with equal roll
    numbers. *)
Theorem sortStudents_ascending (std_sort : std_sort_t) (students : list Student) :
  conforming std_sort ->
  Permutation students (fst (sortStudents std_sort students)) /\
  StronglySorted (fun a b => rollNo a <= rollNo b)
    (fst (sortStudents std_sort students)).
Proof.
  intros Hsort. unfold sortStudents. simpl.
  destruct (Hsort Student by_roll students by_roll_strict_weak_ordering)
    as [Hperm Hord].
  split.
  - exact Hperm.
  - clear Hperm.
    induction Hord as [|a l Hl IH Ha]; constructor; auto.
    eapply Forall_impl; [|exact Ha].
    intros b Hb. unfold by_roll in Hb. apply Z.ltb_ge in Hb. exact Hb.
Qed.

Lemma sortStudents_ascending_witness :
  let roster := example_student "R" 9 "X" 70 :: example_student "S" 3 "X" 85
                :: same_roll_roster in
  Permutation roster (fst (sortStudents Libstdcxx.sort roster)) /\
  StronglySorted (fun a b => rollNo a <= rollNo b)
    (fst (sortStudents Libstdcxx.sort roster)).
Proof.
  exact (sortStudents_ascending Libstdcxx.sort _ GnuSort.sort_conforming).
Defined.

(** C3, as stated, fails: with the [std::sort] of the GNU library,
    seventeen records with the same roll number, entered as a, b, ..., q,
    come out in the order i, q, p, o, n, m, l, k, j, a, h, g, f, e, d, c,
    b. *)
Lemma sortStudents_not_stable :
  Forall (fun s => rollNo s = 7) same_roll_roster /\
  map name (fst (sortStudents Libstdcxx.sort same_roll_roster))
    = ["i"; "q"; "p"; "o"; "n"; "m"; "l"; "k"; "j"; "a"; "h"; "g"; "f"; "e";
       "d"; "c"; "b"]%string /\
  ~ stable_by_roll same_roll_roster
      (fst (sortStudents Libstdcxx.sort same_roll_roster)).
Proof.
  split; [repeat constructor|]. split; [vm_compute; reflexivity|].
  intros H. specialize (H 7).
  apply (f_equal (map name)) in H. vm_compute in H. discriminate H.
Qed.

(** A sort that meets the contract may also exchange just two records
    with the same roll number. *)
Lemma conforming_sort_exchanges_ties :
  let a := example_student "A" 7 "X" 70 in
  let b := example_student "B" 7 "X" 85 in
  conforming insertion_sort /\
  fst (sortStudents insertion_sort [a; b]) = [b; a].
Proof. split; [exact insertion_sort_conforming|reflexivity]. Qed.

End Sorting.

(** ** Derived fields *)

Module Derived.

Import StudentOperations ExtendedStudentOperations.

Section Consistency.

Variable strategy : IGradeStrategy.t.

Let calc := GradeCalculator.make strategy.

Lemma calculateGrade_consistent (s : Student) :
  consistent strategy (GradeCalculator.calculateGrade strategy s).
Proof. unfold consistent. simpl. auto. Qed.

Lemma calculateGrade_marks (s : Student) :
  marks (GradeCalculator.calculateGrade strategy s) = marks s.
Proof. reflexivity. Qed.

Lemma assign_Forall {A : Type} (P : A -> Prop) (it : nat) (v : A) (l : list A) :
  Forall P l -> P v -> Forall P (assign it v l).
Proof.
  intros Hl Hv. revert it. induction Hl as [|x l Hx Hl IH]; intros [|it]; simpl;
    constructor; auto.
Qed.

Lemma addStudent_consistent name' roll class' age' gender' students :
  Forall (consistent strategy) students ->
  Forall (consistent strategy)
    (fst (addStudent calc name' roll class' age' gender' students)).
Proof.
  intros H. unfold addStudent. simpl. apply Forall_app. split; [exact H|].
  constructor; [|constructor]. apply calculateGrade_consistent.
Qed.

Lemma updateStudent_consistent roll name' class' age' gender' students :
  Forall (consistent strategy) students ->
  Forall (consistent strategy)
    (fst (updateStudent calc roll name' class' age' gender' students)).
Proof.
  intros H. unfold updateStudent.
  destruct (nth_error students (find_if (has_roll roll) students)); simpl; auto.
  apply assign_Forall; auto. apply calculateGrade_consistent.
Qed.

Lemma enterMarks_consistent roll m students :
  Forall (consistent strategy) students ->
  Forall (consistent strategy) (fst (enterMarks calc roll m students)).
Proof.
  intros H. unfold enterMarks.
  destruct (nth_error students (find_if (has_roll roll) students)); simpl; auto.
  apply assign_Forall; auto. apply calculateGrade_consistent.
Qed.

(** [enterMarks] on a roll number that is present stores the new marks in
    the first record with that number. *)
Lemma enterMarks_sets_marks roll m students s :
  nth_error students (find_if (has_roll roll) students) = Some s ->
  nth_error (fst (enterMarks calc roll m students))
            (find_if (has_roll roll) students)
    = Some (GradeCalculator.calculateGrade strategy (set_marks m s)).
Proof.
  intros H. unfold enterMarks. rewrite H. simpl.
  assert (Hlt : (find_if (has_roll roll) students < List.length students)%nat)
    by (apply nth_error_Some; congruence).
  revert Hlt. generalize (find_if (has_roll roll) students) as it.
  clear H. induction students as [|x l IH]; intros [|it] Hlt; simpl in *;
    try lia; auto. apply IH. lia.
Qed.

Lemma loadData_consistent content students :
  loadData calc content = FileHandler.Loaded students ->
  Forall (consistent strategy) students.
Proof.
  unfold loadData. destruct (FileHandler.loadFromFile content); try discriminate.
  intros H. inversion H; subst. apply Forall_forall. intros s Hs.
  apply in_map_iff in Hs. destruct Hs as (s0 & <- & _).
  apply calculateGrade_consistent.
Qed.

End Consistency.

End Derived.

(** ** Streams *)

Lemma span_app (p : ascii -> bool) (t : text) :
  t = fst (span p t) ++ snd (span p t).
Proof.
  induction t as [|c r IH]; simpl; [reflexivity|].
  destruct (p c); [|reflexivity].
  destruct (span p r) as [a b]. simpl in *. f_equal. exact IH.
Qed.

Lemma span_length (p : ascii -> bool) (t : text) :
  (List.length (snd (span p t)) <= List.length t)%nat.
Proof.
  rewrite (span_app p t) at 2. rewrite length_app. lia.
Qed.

Lemma getline_shrinks (delim : ascii) (ins : istream) (old : string) :
  failbit (snd (getline delim ins old)) = false ->
  (List.length (buf (snd (getline delim ins old))) < List.length (buf ins))%nat.
Proof.
  unfold getline. destruct (eofbit ins || failbit ins)%bool; simpl; [discriminate|].
  pose proof (span_app (fun c => negb (Ascii.eqb c delim)) (buf ins)) as H.
  destruct (span (fun c => negb (Ascii.eqb c delim)) (buf ins)) as [line rest].
  simpl in H. rewrite H, length_app.
  destruct rest as [|c rest]; simpl.
  - destruct line; [discriminate|]. simpl. lia.
  - lia.
Qed.

Module CsvImport.

Import StudentOperations ExtendedStudentOperations.

Section Loop.

Variable calc : IGradeCalculator.t.

(** The loop of [importFromCSV] ends before its fuel does. *)
Lemma importFromCSV_loop_fuel (n fuel fuel' : nat) (file : istream)
    (line : string) (students : list Student) :
  (List.length (buf file) <= n)%nat ->
  (List.length (buf file) < fuel)%nat -> (List.length (buf file) < fuel')%nat ->
  importFromCSV_loop calc fuel file line students
    = importFromCSV_loop calc fuel' file line students.
Proof.
  revert fuel fuel' file line students.
  induction n as [|n IH]; intros [|fuel] [|fuel'] file line students Hn H1 H2;
    try lia; simpl;
    pose proof (getline_shrinks "010" file line) as Hs;
    destruct (getline "010" file line) as [line' file']; simpl in Hs;
    destruct (failbit file') eqn:Hf; try reflexivity;
    specialize (Hs eq_refl); try lia.
  destruct (parse_row line'); [reflexivity|]. apply IH; lia.
Qed.

(** Every record that the import appends is the record parsed from a
    line of the file, with the marks of a fresh record. *)
Lemma importFromCSV_loop_appends (fuel : nat) (file : istream) (line : string)
    (students : list Student) :
  exists new,
    imported (importFromCSV_loop calc fuel file line students) = students ++ new /\
    Forall (fun s => exists l, parse_row l = inr s) new.
Proof.
  revert file line students.
  induction fuel as [|fuel IH]; intros file line students; simpl.
  - exists []. rewrite app_nil_r. auto.
  - destruct (getline "010" file line) as [line' file'].
    destruct (failbit file').
    + exists []. rewrite app_nil_r. auto.
    + destruct (parse_row line') as [e|s] eqn:Hrow.
      * exists []. rewrite app_nil_r. auto.
      * destruct (IH file' line' (students ++ [s])) as (new & H1 & H2).
        exists (s :: new). rewrite H1, <- app_assoc. split; [reflexivity|].
        constructor; eauto.
Qed.

End Loop.

Lemma parse_row_marks (l : string) (s : Student) :
  parse_row l = inr s -> marks s = zero_marks /\ attendanceRecords s = [].
Proof.
  unfold parse_row.
  repeat match goal with
  | |- context [getline ?d ?f ?o] => destruct (getline d f o)
  | |- context [stoi ?t] => destruct (stoi t); simpl; try discriminate
  | |- context [stof ?t] => destruct (stof t); simpl; try discriminate
  end.
  intros H. inversion H. simpl. auto.
Qed.

(** C2, evaluated on the code.  Every record appended by [importFromCSV]
    is the record parsed from its line: five zero marks and the
    percentage, grade and GPA of the file.  The recomputation runs on a
    copy made after the record was appended, so the roster keeps the values
    of the file.  On the example file the stored record has percentage 95,
    grade A and GPA 4.0, where its marks give 0, F and 0.0. *)
Theorem importFromCSV_keeps_file_values :
  (forall calc content students,
     exists new,
       imported (importFromCSV calc content students) = students ++ new /\
       Forall (fun s => (exists l, parse_row l = inr s) /\ marks s = zero_marks)
              new) /\
  importFromCSV gradeCalc (Some example_csv) []
    = {| imported := [ann_as_parsed]; import_raised := None |} /\
  percentage ann_as_parsed = f95 /\ grade ann_as_parsed = "A"%char /\
  gpa ann_as_parsed = f4 /\
  percentage (IGradeCalculator.calculateGrade gradeCalc ann_as_parsed) = f0 /\
  grade (IGradeCalculator.calculateGrade gradeCalc ann_as_parsed) = "F"%char /\
  gpa (IGradeCalculator.calculateGrade gradeCalc ann_as_parsed) = f0.
Proof.
  split; [|repeat split].
  intros calc [t|] students; unfold importFromCSV.
  - destruct (getline "010" (open_istream (Some t)) "") as [line file].
    destruct (importFromCSV_loop_appends calc (S (List.length (buf file)))
                file line students) as (new & H1 & H2).
    exists new. split; [exact H1|].
    eapply Forall_impl; [|exact H2]. intros s [l Hl]. split; [eauto|].
    apply (parse_row_marks l s Hl).
  - exists []. simpl. rewrite app_nil_r. auto.
Qed.

(** C1, evaluated on the code.  After [importFromCSV] of the example file
    into an empty roster, the roster holds a record whose derived fields
    do not agree with its marks. *)
Theorem importFromCSV_breaks_consistency :
  imported (importFromCSV gradeCalc (Some example_csv) []) = [ann_as_parsed] /\
  GradeCalculator.total (marks ann_as_parsed) = f0 /\
  percentage ann_as_parsed <> F32.div (GradeCalculator.total (marks ann_as_parsed)) f5 /\
  ~ consistent DefaultGradeStrategy.strategy ann_as_parsed.
Proof.
  repeat split; try discriminate.
  intros [H _]. discriminate H.
Qed.

End CsvImport.

(** *** Extraction never gives input back *)

Lemma consumes_refl (ins : istream) : consumes ins ins.
Proof. split; auto. Qed.

Lemma consumes_trans (a b c : istream) :
  consumes a b -> consumes b c -> consumes a c.
Proof. intros [H1 H2] [H3 H4]. split; [lia|auto]. Qed.

Lemma skipws_length (t : text) : (List.length (skipws t) <= List.length t)%nat.
Proof. apply span_length. Qed.

Lemma sentry_spec (ins : istream) :
  consumes ins (fst (sentry ins)) /\
  (snd (sentry ins) = true ->
     failbit ins = false /\ failbit (fst (sentry ins)) = false /\
     buf (fst (sentry ins)) = skipws (buf ins) /\ skipws (buf ins) <> []) /\
  (snd (sentry ins) = false -> failbit (fst (sentry ins)) = true).
Proof.
  unfold sentry, consumes.
  destruct (eofbit ins) eqn:He, (failbit ins) eqn:Hf; simpl; auto;
    try (repeat split; auto; discriminate).
  pose proof (skipws_length (buf ins)) as Hl.
  destruct (skipws (buf ins)) as [|c r] eqn:Hs; simpl in *.
  - repeat split; auto; try lia; discriminate.
  - repeat split; auto; try lia; discriminate.
Qed.

Lemma advanced_buf (rest : text) (failed : bool) :
  buf (advanced rest failed) = rest /\ failbit (advanced rest failed) = failed.
Proof. split; reflexivity. Qed.

Lemma extract_string_consumes (ins : istream) (old : string) :
  consumes ins (snd (extract_string ins old)) /\
  (failbit (snd (extract_string ins old)) = false ->
   (List.length (buf (snd (extract_string ins old))) < List.length (buf ins))%nat).
Proof.
  unfold extract_string.
  destruct (sentry_spec ins) as (Hc & Hok & Hno).
  destruct (sentry ins) as [ins' ok]. simpl in *.
  destruct ok.
  - destruct (Hok eq_refl) as (Hf & Hf' & Hb & Hne).
    pose proof (span_app (fun c => negb (isspace c)) (buf ins')) as Hsp.
    destruct (span (fun c => negb (isspace c)) (buf ins')) as [tok rest] eqn:E.
    simpl in *.
    assert (Htok : tok <> []).
    { rewrite Hb in E. unfold skipws in *.
      pose proof (span_app isspace (buf ins)) as Hws.
      destruct (buf ins) as [|c0 r0] eqn:Hbuf; [simpl in Hne; congruence|].
      clear - E Hne.
      assert (Hhd : forall t, snd (span isspace t) <> [] ->
                exists c r, snd (span isspace t) = c :: r /\ isspace c = false).
      { induction t as [|c r IH]; simpl; [congruence|].
        destruct (isspace c) eqn:Hc.
        - destruct (span isspace r); simpl in *. exact IH.
        - simpl. eauto. }
      destruct (Hhd _ Hne) as (c & r & Heq & Hc). rewrite Heq in E.
      simpl in E. rewrite Hc in E. simpl in E.
      destruct (span (fun c => negb (isspace c)) r). inversion E. discriminate. }
    destruct Hc as [Hc1 Hc2]. split; [split|].
    + simpl. rewrite Hsp, length_app in Hc1. lia.
    + congruence.
    + intros _. simpl. rewrite Hsp, length_app in Hc1.
      destruct tok; [congruence|]. simpl in *. lia.
  - split; [exact Hc|]. simpl. rewrite (Hno eq_refl). discriminate.
Qed.

Lemma scan_int_length (t : text) :
  (List.length (snd (scan_int t)) <= List.length t)%nat.
Proof.
  unfold scan_int.
  assert (H : forall t', (List.length t' <= List.length t)%nat ->
     (List.length (snd (let '(ds, rest) := span isdigit t' in
        match ds with
        | [] => (None, rest)
        | _ => (Some (if true then 0 else 0), rest)
        end)) <= List.length t)%nat).
  { intros t' Ht. pose proof (span_length isdigit t') as Hl.
    destruct (span isdigit t') as [ds rest]. simpl in *.
    destruct ds; simpl; lia. }
  destruct t as [|c r]; simpl.
  - reflexivity.
  - destruct (is_sign c).
    + pose proof (span_length isdigit r) as Hl.
      destruct (span isdigit r) as [ds rest]. simpl in *. destruct ds; simpl; lia.
    + pose proof (span_length isdigit (c :: r)) as Hl.
      destruct (span isdigit (c :: r)) as [ds rest]. simpl in *.
      destruct ds; simpl; lia.
Qed.

Lemma get_int_consumes (ins : istream) :
  consumes ins (snd (get_int ins)).
Proof.
  unfold get_int.
  destruct (sentry_spec ins) as (Hc & Hok & Hno).
  destruct (sentry ins) as [ins' ok]. simpl in *.
  destruct ok; [|exact Hc].
  destruct (Hok eq_refl) as (Hf & Hf' & Hb & Hne).
  pose proof (scan_int_length (buf ins')) as Hl.
  destruct (scan_int (buf ins')) as [v rest]. simpl in Hl.
  destruct Hc as [Hc1 Hc2].
  assert (Hgoal : forall failed, consumes ins (advanced rest failed)).
  { intros failed. split; simpl; [lia|congruence]. }
  destruct v as [z|]; [|apply Hgoal].
  destruct (z <? int_min); [apply Hgoal|].
  destruct (int_max <? z); apply Hgoal.
Qed.

Lemma extract_int_consumes (ins : istream) (old : Z) :
  consumes ins (snd (extract_int ins old)).
Proof.
  unfold extract_int. pose proof (get_int_consumes ins) as H.
  destruct (get_int ins). exact H.
Qed.

Lemma float_chars_length (n : nat) (t : text) (fm fd fs : bool) :
  (List.length t <= n)%nat ->
  (List.length (snd (float_chars t fm fd fs)) <= List.length t)%nat.
Proof.
  revert t fm fd fs. induction n as [|n IH]; intros [|c r] fm fd fs Hn;
    simpl in *; try lia.
  destruct (isdigit c).
  { specialize (IH r true fd fs ltac:(lia)).
    destruct (float_chars r true fd fs). simpl in *. lia. }
  destruct (Ascii.eqb c "." && negb fd && negb fs)%bool.
  { specialize (IH r fm true fs ltac:(lia)).
    destruct (float_chars r fm true fs). simpl in *. lia. }
  destruct (is_e c && negb fs && fm)%bool; [|simpl; lia].
  destruct r as [|c2 r2]; [simpl; lia|].
  destruct (is_sign c2).
  - assert (H : (List.length (snd (float_chars r2 fm fd true)) <= List.length r2)%nat).
    { apply IH. cbn [List.length] in Hn. lia. }
    destruct (float_chars r2 fm fd true). simpl in *. lia.
  - specialize (IH (c2 :: r2) fm fd true ltac:(simpl in *; lia)).
    destruct (float_chars (c2 :: r2) fm fd true). simpl in *. lia.
Qed.

Lemma accumulate_float_length (t : text) :
  (List.length (snd (accumulate_float t)) <= List.length t)%nat.
Proof.
  unfold accumulate_float.
  assert (H : forall t', (List.length t' <= List.length t)%nat -> forall sgn : text,
     (List.length (snd (let '(zs, t2) := span (Ascii.eqb "0") t' in
        let found_zero := match zs with [] => false | _ => true end in
        let '(body, rest) := float_chars t2 found_zero false false in
        (sgn ++ (if found_zero then ["0"%char] else []) ++ body, rest)))
      <= List.length t)%nat).
  { intros t' Ht sgn. pose proof (span_length (Ascii.eqb "0") t') as Hl.
    destruct (span (Ascii.eqb "0") t') as [zs t2]. simpl in Hl.
    cbv zeta.
    generalize (match zs with [] => false | _ => true end). intros fz.
    pose proof (float_chars_length (List.length t2) t2 fz false false
                  (Nat.le_refl _)) as Hf.
    destruct (float_chars t2 fz false false). simpl in *. lia. }
  destruct t as [|c r]; [apply (H [] (Nat.le_refl _))|].
  destruct (is_sign c).
  - apply H. simpl. lia.
  - apply H. lia.
Qed.

Lemma get_float_consumes (ins : istream) :
  consumes ins (snd (get_float ins)).
Proof.
  unfold get_float.
  destruct (sentry_spec ins) as (Hc & Hok & Hno).
  destruct (sentry ins) as [ins' ok]. simpl in *.
  destruct ok; [|exact Hc].
  destruct (Hok eq_refl) as (Hf & Hf' & Hb & Hne).
  pose proof (accumulate_float_length (buf ins')) as Hl.
  destruct (accumulate_float (buf ins')) as [xtrc rest]. simpl in Hl.
  destruct (convert_float xtrc) as [v failed]. simpl.
  destruct Hc as [Hc1 Hc2]. split; simpl; [lia|congruence].
Qed.

Lemma extract_float_consumes (ins : istream) (old : float) :
  consumes ins (snd (extract_float ins old)).
Proof.
  unfold extract_float. pose proof (get_float_consumes ins) as H.
  destruct (get_float ins). exact H.
Qed.

(** ** The native store: loading *)

Module Load.

Import FileHandler.

Lemma read_attendance_consumes (recs : list AttendanceRecord) (file : istream) :
  consumes file (snd (read_attendance recs file)).
Proof.
  revert file. induction recs as [|r recs IH]; intros file; simpl.
  - apply consumes_refl.
  - pose proof (extract_string_consumes file (date r)) as [H1 _].
    destruct (extract_string file (date r)) as [d file1]. simpl in H1.
    pose proof (extract_string_consumes file1 (status r)) as [H2 _].
    destruct (extract_string file1 (status r)) as [st file2]. simpl in H2.
    specialize (IH file2).
    destruct (read_attendance recs file2) as [rest' file3]. simpl in *.
    eauto using consumes_trans.
Qed.

(** A header that was read without failure has consumed input. *)
Lemma read_header_shrinks (file : istream) (s : Student) :
  failbit (snd (read_header file s)) = false ->
  (List.length (buf (snd (read_header file s))) < List.length (buf file))%nat.
Proof.
  unfold read_header.
  pose proof (extract_string_consumes file (name s)) as [H1 H1'].
  destruct (extract_string file (name s)) as [x1 i1]. simpl in H1, H1'.
  pose proof (extract_int_consumes i1 (rollNo s)) as H2.
  destruct (extract_int i1 (rollNo s)) as [x2 i2]. simpl in H2.
  pose proof (extract_string_consumes i2 (studentClass s)) as [H3 _].
  destruct (extract_string i2 (studentClass s)) as [x3 i3]. simpl in H3.
  pose proof (extract_int_consumes i3 (age s)) as H4.
  destruct (extract_int i3 (age s)) as [x4 i4]. simpl in H4.
  pose proof (extract_string_consumes i4 (gender s)) as [H5 _].
  destruct (extract_string i4 (gender s)) as [x5 i5]. simpl in H5.
  pose proof (extract_float_consumes i5 (mark0 (marks s))) as H6.
  destruct (extract_float i5 (mark0 (marks s))) as [x6 i6]. simpl in H6.
  pose proof (extract_float_consumes i6 (mark1 (marks s))) as H7.
  destruct (extract_float i6 (mark1 (marks s))) as [x7 i7]. simpl in H7.
  pose proof (extract_float_consumes i7 (mark2 (marks s))) as H8.
  destruct (extract_float i7 (mark2 (marks s))) as [x8 i8]. simpl in H8.
  pose proof (extract_float_consumes i8 (mark3 (marks s))) as H9.
  destruct (extract_float i8 (mark3 (marks s))) as [x9 i9]. simpl in H9.
  pose proof (extract_float_consumes i9 (mark4 (marks s))) as H10.
  destruct (extract_float i9 (mark4 (marks s))) as [x10 i10]. simpl in H10.
  simpl. intros Hf.
  assert (Hc : consumes i1 i10) by eauto 12 using consumes_trans.
  destruct Hc as [Hlen Hfail].
  destruct (failbit i1) eqn:E1; [rewrite Hfail in Hf by reflexivity; discriminate|].
  specialize (H1' eq_refl). lia.
Qed.

(** The loop of [loadFromFile] ends before its fuel does: more fuel than
    the length of the input changes nothing. *)
Lemma loadFromFile_loop_fuel (n fuel fuel' : nat) (file : istream)
    (s : Student) (students : list Student) :
  (List.length (buf file) <= n)%nat ->
  (List.length (buf file) < fuel)%nat -> (List.length (buf file) < fuel')%nat ->
  loadFromFile_loop fuel file s students
    = loadFromFile_loop fuel' file s students.
Proof.
  revert fuel fuel' file s students.
  induction n as [|n IH]; intros [|fuel] [|fuel'] file s students Hn H1 H2;
    try lia; simpl;
    pose proof (read_header_shrinks file s) as Hs;
    destruct (read_header file s) as [s1 file1]; simpl in Hs;
    destruct (failbit file1) eqn:Hf; try reflexivity;
    specialize (Hs eq_refl); try lia.
  pose proof (get_int_consumes file1) as [Hc _].
  destruct (get_int file1) as [[numRecords|] file2]; [|reflexivity].
  simpl in Hc. destruct (numRecords <? 0); [reflexivity|].
  pose proof (read_attendance_consumes
                (resize default_AttendanceRecord (Z.to_nat numRecords)
                        (attendanceRecords s1)) file2) as [Ha _].
  destruct (read_attendance _ file2) as [recs file3]. simpl in Ha.
  pose proof (extract_float_consumes file3 (gpa s1)) as [Hg _].
  destruct (extract_float file3 (gpa s1)) as [gpa' file4]. simpl in Hg.
  apply IH; lia.
Qed.

End Load.

Module LoadErrors.

Import FileHandler.

(** C6, evaluated on the code.  Only the ten leading fields of a record
    are checked.  On a store whose second record stops inside its
    attendance list, the loader returns that record too, with empty
    attendance entries and the GPA of the record before.  A negative
    attendance count makes [resize] raise [length_error], and a record that
    ends after its marks leaves the attendance count without a value. *)
Theorem loadFromFile_keeps_truncated_record :
  loadFromFile (Some truncated_store) = Loaded [bo_as_loaded; al_as_loaded] /\
  loadFromFile (Some (txt "Al 1 X 10 M 1 2 3 4 5 -1 0.00")) = Raised length_error /\
  loadFromFile (Some (txt "Al 1 X 10 M 1 2 3 4 5")) = IndeterminateCount.
Proof. repeat split; vm_compute; reflexivity. Qed.

(** A record whose leading fields cannot be read ends the load; the
    records before it are returned. *)
Lemma loadFromFile_stops_at_bad_header :
  loadFromFile (Some (txt "Bo 2 Y 11 F 9 8 7 6 5 0 3.00 Al one X 10 M 1 2 3 4 5 0 1.00"))
    = Loaded [bo_as_loaded].
Proof. vm_compute. reflexivity. Qed.

End LoadErrors.

(** ** The native store: what is written *)

Module Save.

Import FileHandler.

Lemma attendance_text_app (atts : list AttendanceRecord) (k : text) :
  attendance_text atts k = attendance_text atts [] ++ k.
Proof.
  induction atts as [|a atts IH]; simpl; [reflexivity|].
  rewrite IH. repeat (rewrite <- app_assoc; simpl). reflexivity.
Qed.

Lemma record_text_app (fx : bool) (pr : Z) (s : Student) (k : text) :
  record_text fx pr s k = record_text fx pr s [] ++ k.
Proof.
  unfold record_text.
  rewrite (attendance_text_app _ (_ ++ _ :: k)),
          (attendance_text_app _ (_ ++ [_])).
  repeat (rewrite <- app_assoc; simpl). reflexivity.
Qed.

Lemma fold_attendance (atts : list AttendanceRecord) (os : ostream) :
  let os' := fold_left
               (fun f att => f <<< put_text space <<< put_string (date att)
                               <<< put_text space <<< put_string (status att))
               atts os in
  written os' = written os
                ++ List.concat (map (fun att => " "%char :: txt (date att)
                                           ++ " "%char :: txt (status att)) atts)
  /\ fixed os' = fixed os /\ precision os' = precision os.
Proof.
  revert os. induction atts as [|a atts IH]; intros os; simpl.
  - rewrite app_nil_r. auto.
  - destruct (IH (put_string (status a) (put_text space (put_string (date a)
                    (put_text space os))))) as (H1 & H2 & H3).
    rewrite H1, H2, H3. simpl. repeat (rewrite <- app_assoc; simpl). auto.
Qed.

Lemma attendance_text_concat (atts : list AttendanceRecord) (k : text) :
  List.concat (map (fun att => " "%char :: txt (date att)
                          ++ " "%char :: txt (status att)) atts)
  ++ " "%char :: k
  = " "%char :: attendance_text atts k.
Proof.
  induction atts as [|a atts IH]; simpl; [reflexivity|].
  repeat (rewrite <- app_assoc; simpl). rewrite IH. reflexivity.
Qed.

(** One record appends its text and leaves the stream in fixed notation
    with precision 2. *)
Lemma save_student_text (s : Student) (os : ostream) :
  written (save_student s os)
    = written os ++ record_text (fixed os) (precision os) s [] /\
  fixed (save_student s os) = true /\ precision (save_student s os) = 2.
Proof.
  destruct os as [w fx pr]. unfold save_student.
  match goal with
  | |- context [fold_left ?f (attendanceRecords s) ?o] =>
      pose proof (fold_attendance (attendanceRecords s) o) as H;
      cbv zeta in H; destruct H as (H1 & _ & _);
      generalize dependent (fold_left f (attendanceRecords s) o)
  end.
  intros o2 H1.
  split; [|split; reflexivity].
  cbn -[print_float print_int txt app] in H1 |- *.
  rewrite H1. unfold record_text, space, newline.
  repeat (rewrite <- app_assoc; cbn [app]).
  repeat f_equal.
  rewrite attendance_text_concat. reflexivity.
Qed.

Lemma saveToFile_loop_text (students : list Student) (os : ostream) :
  written (fold_left (fun file s => save_student s file) students os)
    = written os ++ roster_text (fixed os) (precision os) students.
Proof.
  revert os. induction students as [|s students IH]; intros os; simpl.
  - rewrite app_nil_r. reflexivity.
  - destruct (save_student_text s os) as (H1 & H2 & H3).
    rewrite IH, H1, H2, H3, <- app_assoc, <- record_text_app. reflexivity.
Qed.

(** The file written by [saveToFile]. *)
Lemma saveToFile_text (students : list Student) :
  saveToFile students = roster_text false 6 students.
Proof. unfold saveToFile. rewrite saveToFile_loop_text. reflexivity. Qed.

End Save.

(** ** Decimal numerals *)

Lemma digit_char_value (d : Z) :
  0 <= d < 10 -> digit_value (digit_char d) = d /\ isdigit (digit_char d) = true.
Proof.
  intros H.
  assert (E : d = 0 \/ d = 1 \/ d = 2 \/ d = 3 \/ d = 4 \/ d = 5 \/ d = 6 \/
              d = 7 \/ d = 8 \/ d = 9) by lia.
  repeat (destruct E as [E|E]; [subst d; split; reflexivity|]).
  subst d; split; reflexivity.
Qed.

Lemma digits_value_app (a b : text) (acc : Z) :
  digits_value (a ++ b) acc = digits_value b (digits_value a acc).
Proof. revert acc. induction a as [|c a IH]; intros; simpl; auto. Qed.

(** The digits produced for [n] are digits, at least one, and their value
    is [n]. *)
Lemma digits_fuel_spec (fuel : nat) (n : Z) (acc : text) :
  0 <= n < 10 ^ Z.of_nat fuel -> (0 < fuel)%nat ->
  exists ds, digits_fuel fuel n acc = ds ++ acc /\ ds <> [] /\
             forallb isdigit ds = true /\
             forall a, digits_value ds a = a * 10 ^ Z.of_nat (List.length ds) + n.
Proof.
  revert n acc. induction fuel as [|fuel IH]; intros n acc Hn Hf; [lia|].
  simpl digits_fuel.
  destruct (digit_char_value (n mod 10)) as [Hv Hd].
  { apply Z.mod_pos_bound. lia. }
  destruct (n <? 10) eqn:E.
  - apply Z.ltb_lt in E. exists [digit_char (n mod 10)].
    rewrite Z.mod_small in * by lia.
    repeat split; simpl; try congruence.
    + rewrite Hd. reflexivity.
    + intros a. rewrite Hv. lia.
  - apply Z.ltb_ge in E.
    assert (Hfuel : (0 < fuel)%nat).
    { destruct fuel; [|lia]. simpl in Hn. lia. }
    destruct (IH (n / 10) (digit_char (n mod 10) :: acc)) as (ds & H1 & H2 & H3 & H4);
      auto.
    { split; [apply Z.div_pos; lia|].
      apply Z.div_lt_upper_bound; [lia|].
      rewrite Nat2Z.inj_succ, Z.pow_succ_r in Hn by lia. lia. }
    exists (ds ++ [digit_char (n mod 10)]).
    rewrite H1, <- app_assoc. repeat split.
    + destruct ds; simpl; congruence.
    + rewrite forallb_app, H3. simpl. rewrite Hd. reflexivity.
    + intros a. rewrite digits_value_app, H4. simpl. rewrite Hv.
      rewrite length_app, Nat2Z.inj_add. simpl Z.of_nat.
      rewrite Z.pow_add_r by lia.
      pose proof (Z.div_mod n 10 ltac:(lia)). lia.
Qed.

Lemma print_unsigned_spec (n : Z) :
  0 <= n ->
  print_unsigned n <> [] /\ forallb isdigit (print_unsigned n) = true /\
  digits_value (print_unsigned n) 0 = n.
Proof.
  intros Hn. unfold print_unsigned.
  destruct (digits_fuel_spec (S (Z.to_nat (Z.log2 n))) n []) as (ds & H1 & H2 & H3 & H4).
  - split; [lia|].
    rewrite Nat2Z.inj_succ, Z2Nat.id by apply Z.log2_nonneg.
    destruct (Z.eq_dec n 0) as [->|Hne]; [reflexivity|].
    destruct (Z.log2_spec n ltac:(lia)) as [_ Hlt].
    eapply Z.lt_le_trans; [exact Hlt|].
    apply Z.pow_le_mono_l. pose proof (Z.log2_nonneg n). lia.
  - lia.
  - rewrite H1, app_nil_r. split; [exact H2|]. split; [exact H3|]. rewrite H4. lia.
Qed.

(** *** Spans *)

Lemma span_stop (p : ascii -> bool) (t : text) (c : ascii) (rest : text) :
  forallb p t = true -> p c = false -> span p (t ++ c :: rest) = (t, c :: rest).
Proof.
  intros Ht Hc. induction t as [|x t IH]; simpl in *.
  - rewrite Hc. reflexivity.
  - apply andb_true_iff in Ht. destruct Ht as [Hx Ht].
    rewrite Hx, (IH Ht). reflexivity.
Qed.

Lemma separator_facts (c : ascii) :
  separator c ->
  isspace c = true /\ isdigit c = false /\ is_sign c = false /\
  is_e c = false /\ Ascii.eqb c "." = false /\ Ascii.eqb "0" c = false.
Proof. intros [->| ->]; repeat split. Qed.

Lemma skipws_separators (pre t : text) :
  Forall separator pre -> skipws (pre ++ t) = skipws t.
Proof.
  unfold skipws. induction 1 as [|c pre Hc _ IH]; simpl; [reflexivity|].
  destruct (separator_facts c Hc) as [-> _].
  destruct (span isspace (pre ++ t)). simpl in *. exact IH.
Qed.

Lemma skipws_nonspace (c : ascii) (t : text) :
  isspace c = false -> skipws (c :: t) = c :: t.
Proof. unfold skipws. simpl. intros ->. reflexivity. Qed.

(** *** The sentry in front of a field *)

Lemma sentry_field (pre : text) (c : ascii) (t : text) :
  Forall separator pre -> isspace c = false ->
  sentry (good_at (pre ++ c :: t)) = (good_at (c :: t), true).
Proof.
  intros Hpre Hc. unfold sentry, good_at. simpl.
  rewrite skipws_separators, skipws_nonspace by auto. reflexivity.
Qed.

Lemma advanced_good (c : ascii) (rest : text) :
  advanced (c :: rest) false = good_at (c :: rest).
Proof. reflexivity. Qed.

(** *** Strings *)

Lemma token_spec (s : string) :
  token s = true ->
  exists c t, txt s = c :: t /\ isspace c = false /\
              forallb (fun c => negb (isspace c)) (txt s) = true.
Proof.
  unfold token. intros H. apply andb_true_iff in H. destruct H as [H1 H2].
  destruct s as [|c s]; [discriminate|]. simpl in *.
  apply andb_true_iff in H2. destruct H2 as [Hc Ht].
  exists c, (txt s). apply negb_true_iff in Hc. rewrite Hc, Ht. auto.
Qed.

Lemma extract_string_field (pre : text) (s old : string) (c : ascii) (rest : text) :
  Forall separator pre -> token s = true -> separator c ->
  extract_string (good_at (pre ++ txt s ++ c :: rest)) old
    = (s, good_at (c :: rest)).
Proof.
  intros Hpre Hs Hc. destruct (token_spec s Hs) as (c0 & t & Ht & Hc0 & Hall).
  destruct (separator_facts c Hc) as (Hsp & _).
  unfold extract_string. rewrite Ht. simpl app. rewrite sentry_field by auto.
  simpl buf. change (c0 :: t ++ c :: rest) with ((c0 :: t) ++ c :: rest).
  rewrite <- Ht, span_stop by (auto; rewrite Hsp; reflexivity).
  unfold txt. rewrite string_of_list_ascii_of_string. reflexivity.
Qed.

(** *** Integers *)

Lemma print_int_head (z : Z) :
  exists c t, print_int z = c :: t /\ isspace c = false.
Proof.
  unfold print_int. destruct (z <? 0) eqn:E.
  - eauto.
  - apply Z.ltb_ge in E. destruct (print_unsigned_spec z E) as (H1 & H2 & _).
    destruct (print_unsigned z) as [|c t]; [congruence|].
    exists c, t. split; auto. simpl in H2. apply andb_true_iff in H2.
    destruct H2 as [H2 _]. revert H2. unfold isdigit, isspace.
    destruct (Nat.leb 48 (nat_of_ascii c)) eqn:E1; [|discriminate].
    apply Nat.leb_le in E1. intros _.
    apply orb_false_iff. split.
    + apply Nat.eqb_neq. lia.
    + apply andb_false_iff. right. apply Nat.leb_gt. lia.
Qed.

Lemma scan_int_printed (z : Z) (c : ascii) (rest : text) :
  separator c -> scan_int (print_int z ++ c :: rest) = (Some z, c :: rest).
Proof.
  intros Hc. destruct (separator_facts c Hc) as (_ & Hd & _).
  unfold scan_int, print_int. destruct (z <? 0) eqn:E.
  - apply Z.ltb_lt in E.
    destruct (print_unsigned_spec (- z) ltac:(lia)) as (H1 & H2 & H3).
    simpl. rewrite span_stop by auto.
    destruct (print_unsigned (- z)); [congruence|]. rewrite H3. f_equal. f_equal. lia.
  - apply Z.ltb_ge in E.
    destruct (print_unsigned_spec z E) as (H1 & H2 & H3).
    destruct (print_unsigned z) as [|d ds] eqn:Hp; [congruence|].
    simpl app.
    assert (Hs : is_sign d = false).
    { simpl in H2. apply andb_true_iff in H2. destruct H2 as [H2 _].
      unfold is_sign. apply orb_false_iff.
      split; apply Ascii.eqb_neq; intros ->; discriminate H2. }
    cbv beta iota. rewrite Hs.
    change (d :: ds ++ c :: rest) with ((d :: ds) ++ c :: rest).
    rewrite span_stop by auto. rewrite H3. reflexivity.
Qed.

Lemma get_int_field (pre : text) (z : Z) (c : ascii) (rest : text) :
  Forall separator pre -> in_int_range z = true -> separator c ->
  get_int (good_at (pre ++ print_int z ++ c :: rest))
    = (Some z, good_at (c :: rest)).
Proof.
  intros Hpre Hz Hc. destruct (print_int_head z) as (c0 & t & Ht & Hc0).
  unfold get_int.
  assert (E : pre ++ print_int z ++ c :: rest = pre ++ c0 :: (t ++ c :: rest))
    by (rewrite Ht; reflexivity).
  rewrite E, sentry_field by auto. simpl buf.
  change (c0 :: t ++ c :: rest) with ((c0 :: t) ++ c :: rest).
  rewrite <- Ht, scan_int_printed by auto.
  unfold in_int_range in Hz. apply andb_true_iff in Hz. destruct Hz as [H1 H2].
  apply Z.leb_le in H1, H2.
  replace (z <? int_min) with false by (symmetry; apply Z.ltb_ge; lia).
  replace (int_max <? z) with false by (symmetry; apply Z.ltb_ge; lia).
  reflexivity.
Qed.

Lemma extract_int_field (pre : text) (z old : Z) (c : ascii) (rest : text) :
  Forall separator pre -> in_int_range z = true -> separator c ->
  extract_int (good_at (pre ++ print_int z ++ c :: rest)) old
    = (z, good_at (c :: rest)).
Proof.
  intros. unfold extract_int. rewrite get_int_field by auto. reflexivity.
Qed.

(** *** Floats *)

Lemma span_stop_after (p : ascii -> bool) (t : text) (c : ascii) (rest : text) :
  p c = false ->
  span p (t ++ c :: rest) = (fst (span p t), snd (span p t) ++ c :: rest).
Proof.
  intros Hc. induction t as [|x t IH]; simpl.
  - rewrite Hc. reflexivity.
  - destruct (p x); [|reflexivity].
    rewrite IH. destruct (span p t). reflexivity.
Qed.

Lemma float_chars_separator (c : ascii) (rest : text) (fm fd fs : bool) :
  separator c -> float_chars (c :: rest) fm fd fs = ([], c :: rest).
Proof.
  intros Hc. destruct (separator_facts c Hc) as (_ & H1 & _ & H2 & H3 & _).
  simpl. rewrite H1, H2, H3. reflexivity.
Qed.

(** Characters accumulated up to the end of a text are accumulated the
    same way when a separator follows. *)
Lemma float_chars_stop (c : ascii) (rest : text) (n : nat) (t : text)
    (fm fd fs : bool) :
  separator c -> (List.length t <= n)%nat ->
  snd (float_chars t fm fd fs) = [] ->
  float_chars (t ++ c :: rest) fm fd fs
    = (fst (float_chars t fm fd fs), c :: rest).
Proof.
  intros Hc. revert t fm fd fs.
  induction n as [|n IH]; intros [|x r] fm fd fs Hn;
    try (simpl in Hn; lia);
    try (intros _; simpl app; rewrite float_chars_separator by auto; reflexivity).
  cbn [List.length] in Hn. simpl.
  destruct (isdigit x).
  { intros H. rewrite IH by (try lia; destruct (float_chars r true fd fs); exact H).
    destruct (float_chars r true fd fs). reflexivity. }
  destruct (Ascii.eqb x "." && negb fd && negb fs)%bool.
  { intros H. rewrite IH by (try lia; destruct (float_chars r fm true fs); exact H).
    destruct (float_chars r fm true fs). reflexivity. }
  destruct (is_e x && negb fs && fm)%bool; [|simpl; discriminate].
  destruct r as [|c2 r2].
  - intros _. simpl app. cbv beta iota.
    destruct (separator_facts c Hc) as (_ & _ & -> & _).
    rewrite float_chars_separator by auto. reflexivity.
  - simpl app. cbv beta iota. destruct (is_sign c2).
    + intros H.
      rewrite IH by (try (cbn [List.length] in Hn; lia);
                     destruct (float_chars r2 fm fd true); exact H).
      destruct (float_chars r2 fm fd true). reflexivity.
    + intros H. change (c2 :: r2 ++ c :: rest) with ((c2 :: r2) ++ c :: rest).
      rewrite IH by (try lia; destruct (float_chars (c2 :: r2) fm fd true); exact H).
      destruct (float_chars (c2 :: r2) fm fd true). reflexivity.
Qed.

Lemma accumulate_float_stop (t xtrc : text) (c : ascii) (rest : text) :
  separator c -> accumulate_float t = (xtrc, []) ->
  accumulate_float (t ++ c :: rest) = (xtrc, c :: rest).
Proof.
  intros Hc. destruct (separator_facts c Hc) as (_ & _ & Hs & _ & _ & Hz).
  unfold accumulate_float.
  assert (H : forall (sgn t1 : text),
    (let '(zs, t2) := span (Ascii.eqb "0") t1 in
     let found_zero := match zs with [] => false | _ => true end in
     let '(body, rest) := float_chars t2 found_zero false false in
     (sgn ++ (if found_zero then ["0"%char] else []) ++ body, rest)) = (xtrc, []) ->
    (let '(zs, t2) := span (Ascii.eqb "0") (t1 ++ c :: rest) in
     let found_zero := match zs with [] => false | _ => true end in
     let '(body, rest) := float_chars t2 found_zero false false in
     (sgn ++ (if found_zero then ["0"%char] else []) ++ body, rest))
    = (xtrc, c :: rest)).
  { intros sgn t1. rewrite span_stop_after by exact Hz.
    destruct (span (Ascii.eqb "0") t1) as [zs t2]. cbn [fst snd]. cbv zeta.
    generalize (match zs with [] => false | _ => true end). intros fz.
    pose proof (float_chars_stop c rest (List.length t2) t2 fz false false Hc
                  (Nat.le_refl _)) as Hstop.
    destruct (float_chars t2 fz false false) as [body r]. cbn [fst snd] in Hstop.
    intros E. inversion E; subst. rewrite Hstop by reflexivity. reflexivity. }
  destruct t as [|x r].
  - simpl app. cbv beta iota. rewrite Hs. apply (H [] []).
  - simpl app. cbv beta iota. destruct (is_sign x).
    + apply (H [x] r).
    + apply (H [] (x :: r)).
Qed.

Lemma get_float_field (pre t : text) (v : float) (c : ascii) (rest : text) :
  Forall separator pre -> float_field t = Some v -> separator c ->
  get_float (good_at (pre ++ t ++ c :: rest)) = (Some v, good_at (c :: rest)).
Proof.
  intros Hpre Hv Hc. unfold float_field in Hv.
  destruct (accumulate_float t) as [xtrc r] eqn:Hacc.
  destruct t as [|c0 t0]; [discriminate|]. destruct r; [|discriminate].
  destruct (isspace c0) eqn:Hc0; [discriminate|].
  destruct (convert_float xtrc) as [v' failed] eqn:Hconv.
  destruct failed; [discriminate|]. inversion Hv; subst v'.
  unfold get_float. simpl app. rewrite sentry_field by auto. simpl buf.
  change (c0 :: t0 ++ c :: rest) with ((c0 :: t0) ++ c :: rest).
  rewrite (accumulate_float_stop _ _ c rest Hc Hacc), Hconv. reflexivity.
Qed.

Lemma extract_float_field (pre : text) (fx : bool) (pr : Z) (x old : float)
    (c : ascii) (rest : text) :
  Forall separator pre -> reread fx pr x <> None -> separator c ->
  extract_float (good_at (pre ++ print_float fx pr x ++ c :: rest)) old
    = (reread_or fx pr x, good_at (c :: rest)).
Proof.
  intros Hpre Hx Hc. unfold extract_float, reread_or.
  destruct (reread fx pr x) as [v|] eqn:E; [|congruence].
  rewrite (get_float_field pre _ v) by auto. reflexivity.
Qed.

Lemma same_float_eq (x y : float) : same_float x y = true -> x = y.
Proof.
  destruct x as [s|s| |s m e], y as [s'|s'| |s' m' e']; simpl; try discriminate.
  - intros H. apply Bool.eqb_prop in H. congruence.
  - intros H. apply Bool.eqb_prop in H. congruence.
  - reflexivity.
  - intros H. apply andb_prop in H. destruct H as [H He].
    apply andb_prop in H. destruct H as [Hs Hm].
    apply Bool.eqb_prop in Hs. apply Pos.eqb_eq in Hm. apply Z.eqb_eq in He.
    congruence.
Qed.

(** ** The native store: loading what was saved *)

Module RoundTrip.

Import FileHandler.

Lemma resize_length {A : Type} (d : A) (n : nat) (l : list A) :
  List.length (resize d n l) = n.
Proof.
  unfold resize. rewrite length_app, length_firstn, repeat_length. lia.
Qed.

Lemma separator_space : separator " "%char.
Proof. left. reflexivity. Qed.

Lemma separator_newline : separator "010"%char.
Proof. right. reflexivity. Qed.

#[local] Hint Resolve separator_space separator_newline : core.

(** The same facts for a field that follows one separator. *)
Lemma extract_string_next (c0 : ascii) (s old : string) (c : ascii) (rest : text) :
  separator c0 -> token s = true -> separator c ->
  extract_string (good_at (c0 :: txt s ++ c :: rest)) old
    = (s, good_at (c :: rest)).
Proof. intros. apply (extract_string_field [c0]); auto. Qed.

Lemma extract_int_next (c0 : ascii) (z old : Z) (c : ascii) (rest : text) :
  separator c0 -> in_int_range z = true -> separator c ->
  extract_int (good_at (c0 :: print_int z ++ c :: rest)) old
    = (z, good_at (c :: rest)).
Proof. intros. apply (extract_int_field [c0]); auto. Qed.

Lemma get_int_next (c0 : ascii) (z : Z) (c : ascii) (rest : text) :
  separator c0 -> in_int_range z = true -> separator c ->
  get_int (good_at (c0 :: print_int z ++ c :: rest))
    = (Some z, good_at (c :: rest)).
Proof. intros. apply (get_int_field [c0]); auto. Qed.

Lemma extract_float_next (c0 : ascii) (fx : bool) (pr : Z) (x old : float)
    (c : ascii) (rest : text) :
  separator c0 -> reread fx pr x <> None -> separator c ->
  extract_float (good_at (c0 :: print_float fx pr x ++ c :: rest)) old
    = (reread_or fx pr x, good_at (c :: rest)).
Proof. intros. apply (extract_float_field [c0]); auto. Qed.

Lemma read_attendance_text (atts recs : list AttendanceRecord) (k : text) :
  List.length recs = List.length atts ->
  Forall (fun att => token (date att) = true /\ token (status att) = true) atts ->
  read_attendance recs (good_at (" "%char :: attendance_text atts k))
    = (atts, good_at (" "%char :: k)).
Proof.
  revert recs. induction atts as [|a atts IH]; intros [|r recs] Hlen Hall;
    simpl in Hlen; try discriminate; [reflexivity|].
  inversion Hall as [|? ? [Hd Hs] Hall']; subst.
  cbn [read_attendance attendance_text].
  rewrite (extract_string_next " " (date a)) by auto.
  rewrite (extract_string_next " " (status a)) by auto.
  rewrite IH by (auto; lia). destruct a. reflexivity.
Qed.

Lemma attendance_text_length (atts : list AttendanceRecord) (k : text) :
  (List.length k <= List.length (attendance_text atts k))%nat.
Proof.
  induction atts as [|a atts IH]; simpl; [lia|].
  rewrite length_app. simpl. rewrite length_app. simpl. lia.
Qed.

Lemma record_text_length (fx : bool) (pr : Z) (s : Student) (k : text) :
  (List.length k + 2 <= List.length (record_text fx pr s k))%nat.
Proof.
  unfold record_text.
  repeat (rewrite length_app; cbn [List.length]).
  pose proof (attendance_text_length (attendanceRecords s)
                (print_float true 2 (gpa s) ++ "010"%char :: k)) as H.
  rewrite length_app in H. cbn [List.length] in H. lia.
Qed.

(** The ten leading fields of a saved record are read back. *)
Lemma read_header_text (pre : text) (fx : bool) (pr : Z) (s s0 : Student)
    (k : text) :
  Forall separator pre -> storable fx pr s ->
  read_header (good_at (pre ++ record_text fx pr s k)) s0
    = ({| name := name s; rollNo := rollNo s; studentClass := studentClass s;
          age := age s; gender := gender s;
          marks := marks (reloaded fx pr s);
          percentage := percentage s0; grade := grade s0;
          attendanceRecords := attendanceRecords s0; gpa := gpa s0 |},
       good_at (" "%char
                :: print_int (Z.of_nat (List.length (attendanceRecords s)))
                ++ " "%char
                :: attendance_text (attendanceRecords s)
                     (print_float true 2 (gpa s) ++ "010"%char :: k))).
Proof.
  intros Hpre (Hn & Hc & Hg & Hr & Ha & _ & _ & Hm & _).
  unfold marks_list in Hm.
  repeat match goal with
  | H : Forall _ (_ :: _) |- _ => inversion H; subst; clear H
  end.
  unfold read_header, record_text.
  rewrite (extract_string_field pre (name s)) by auto.
  rewrite (extract_int_next " " (rollNo s)) by auto.
  rewrite (extract_string_next " " (studentClass s)) by auto.
  rewrite (extract_int_next " " (age s)) by auto.
  rewrite (extract_string_next " " (gender s)) by auto.
  rewrite (extract_float_next " " fx pr (mark0 (marks s))) by auto.
  rewrite (extract_float_next " " fx pr (mark1 (marks s))) by auto.
  rewrite (extract_float_next " " fx pr (mark2 (marks s))) by auto.
  rewrite (extract_float_next " " fx pr (mark3 (marks s))) by auto.
  rewrite (extract_float_next " " fx pr (mark4 (marks s))) by auto.
  reflexivity.
Qed.

(** At the end of the store, the next header cannot be read. *)
Lemma read_header_at_end (pre : text) (s0 : Student) :
  Forall separator pre -> failbit (snd (read_header (good_at pre) s0)) = true.
Proof.
  intros Hpre. unfold read_header, extract_string at 1.
  assert (E : sentry (good_at pre)
              = ({| buf := []; eofbit := true; failbit := true |}, false)).
  { unfold sentry, good_at. simpl.
    rewrite <- (app_nil_r pre), skipws_separators by auto. reflexivity. }
  rewrite E. reflexivity.
Qed.

(** Loading the text of a roster gives back its records, field by field,
    with the floats as read back from their text. *)
Lemma loadFromFile_loop_text (students : list Student) :
  forall (fx : bool) (pr : Z) (pre : text) (s0 : Student) (acc : list Student)
         (fuel : nat),
  Forall separator pre -> storable_roster fx pr students ->
  percentage s0 = percentage default_Student ->
  grade s0 = grade default_Student ->
  (List.length (pre ++ roster_text fx pr students) < fuel)%nat ->
  loadFromFile_loop fuel (good_at (pre ++ roster_text fx pr students)) s0 acc
    = Loaded (acc ++ reloaded_roster fx pr students).
Proof.
  induction students as [|s students IH];
    intros fx pr pre s0 acc [|fuel] Hpre Hst Hp Hg Hfuel; try lia.
  - simpl roster_text. rewrite app_nil_r. simpl.
    pose proof (read_header_at_end pre s0 Hpre) as Hend.
    destruct (read_header (good_at pre) s0) as [s1 file]. simpl in Hend.
    rewrite Hend, app_nil_r. reflexivity.
  - destruct Hst as [Hs Hrest].
    cbn [roster_text loadFromFile_loop reloaded_roster].
    rewrite (read_header_text pre fx pr s s0) by auto.
    cbn [failbit good_at].
    destruct Hs as (Hn & Hc & Hge & Hr & Ha & Hcount & Hatts & Hm & Hgpa).
    rewrite (get_int_next " "); auto.
    2:{ unfold in_int_range. apply andb_true_iff. split; apply Z.leb_le.
        - unfold int_min. lia.
        - exact Hcount. }
    replace (Z.of_nat (List.length (attendanceRecords s)) <? 0) with false
      by (symmetry; apply Z.ltb_ge; lia).
    cbn [attendanceRecords gpa name rollNo studentClass age gender marks
         percentage grade].
    rewrite read_attendance_text; auto.
    2:{ rewrite resize_length. apply Nat2Z.id. }
    rewrite (extract_float_next " " true 2 (gpa s)) by auto.
    change ("010"%char :: roster_text true 2 students)
      with (["010"%char] ++ roster_text true 2 students).
    rewrite IH; auto.
    + rewrite <- app_assoc. unfold reloaded. cbn [app]. rewrite Hp, Hg. reflexivity.
    + pose proof (record_text_length fx pr s (roster_text true 2 students)) as Hl.
      cbn [roster_text] in Hfuel.
      rewrite length_app in Hfuel. rewrite length_app. cbn [List.length]. lia.
Qed.

Lemma reloaded_roster_fields (students : list Student) (fx : bool) (pr : Z) :
  map name (reloaded_roster fx pr students) = map name students /\
  map rollNo (reloaded_roster fx pr students) = map rollNo students /\
  map studentClass (reloaded_roster fx pr students) = map studentClass students /\
  map age (reloaded_roster fx pr students) = map age students /\
  map gender (reloaded_roster fx pr students) = map gender students /\
  map attendanceRecords (reloaded_roster fx pr students)
    = map attendanceRecords students.
Proof.
  revert fx pr. induction students as [|s students IH]; intros fx pr; simpl.
  - repeat split.
  - destruct (IH true 2) as (H1 & H2 & H3 & H4 & H5 & H6).
    rewrite H1, H2, H3, H4, H5, H6. repeat split.
Qed.







(** Hypotheses on a concrete roster are settled by evaluation, one field
    at a time. *)
Ltac by_evaluation :=
  cbv [storable_roster storable roster_marks_survive marks_survive
       stored_student gradeCalc GradeCalculator.make
       IGradeCalculator.calculateGrade GradeCalculator.calculateGrade
       marks_list marks_of name rollNo studentClass age gender marks
       attendanceRecords gpa mark0 mark1 mark2 mark3 mark4 date status];
  repeat match goal with
  | |- _ /\ _ => split
  | |- True => exact I
  | |- Forall _ [] => constructor
  | |- Forall _ (_ :: _) => constructor
  | |- _ = true => vm_compute; reflexivity
  | |- (_ <= _)%Z => vm_compute; discriminate
  | |- _ <> None => vm_compute; discriminate
  | |- _ = Some _ => vm_compute; reflexivity
  end.


(** The same through [saveData] and [loadData], which recomputes the
    derived fields of every record loaded. *)
Lemma saveData_loadData_roundtrip (strategy : IGradeStrategy.t)
    (students : list Student) :
  storable_roster false 6 students ->
  let loaded :=
    map (GradeCalculator.calculateGrade strategy)
        (reloaded_roster false 6 students) in
  StudentOperations.loadData (GradeCalculator.make strategy)
    (Some (StudentOperations.saveData students)) = Loaded loaded /\
  map rollNo loaded = map rollNo students /\
  map studentClass loaded = map studentClass students /\
  map age loaded = map age students /\
  map gender loaded = map gender students /\
  map attendanceRecords loaded = map attendanceRecords students /\
  Forall (consistent strategy) loaded.
Proof.
  intros Hst loaded. subst loaded.
  unfold StudentOperations.loadData, StudentOperations.saveData.
  unfold loadFromFile. rewrite Save.saveToFile_text.
  rewrite (loadFromFile_loop_text students false 6 [] default_Student [])
    by auto.
  pose proof (reloaded_roster_fields students false 6)
    as (H1 & H2 & H3 & H4 & H5 & H6).
  rewrite !map_map. cbn [GradeCalculator.calculateGrade rollNo studentClass
                         age gender attendanceRecords app
                         IGradeCalculator.calculateGrade GradeCalculator.make].
  repeat (split; [assumption || reflexivity|]).
  apply Forall_forall. intros s Hs. apply in_map_iff in Hs.
  destruct Hs as (s0 & <- & _). apply Derived.calculateGrade_consistent.
Qed.


(** The format set for the GPA of a record stays in force: from the second
    record on, marks are written in fixed notation with two decimals, and
    a mark of 0.125 comes back as 0.12. *)
Lemma save_load_later_marks_two_decimals :
  let a := stored_student "Al" 1 (marks_of 90 91 92 93 94) [] in
  let b := stored_student "Bo" 2
             (Build_Marks (float_of_text "0.125") f0 f0 f0 f0) [] in
  exists a' b',
    loadFromFile (Some (saveToFile [a; b])) = Loaded [a'; b'] /\
    marks a' = marks a /\
    mark0 (marks b') = float_of_text "0.12" /\
    mark0 (marks b') <> mark0 (marks b).
Proof.
  intros a b.
  do 2 eexists. split; [vm_compute; reflexivity|].
  split; [vm_compute; reflexivity|].
  split; [vm_compute; reflexivity|].
  vm_compute. discriminate.
Qed.

(** An empty name has no white space in it, and shifts every field of its
    record: nothing is loaded. *)
Lemma save_load_empty_name :
  loadFromFile (Some (saveToFile [stored_student "" 1 (marks_of 90 91 92 93 94) []]))
    = Loaded [].
Proof. vm_compute. reflexivity. Qed.

End RoundTrip.

(* ================================================================== *)
(** * Part IV: further properties of the operations                    *)
(* ================================================================== *)

(** ** Facts on [float] arithmetic *)

(** A finite number divided by itself is exactly 1. *)
Lemma div_self (s : bool) (m : positive) (e : Z) :
  F32.div (S754_finite s m e) (S754_finite s m e) = f1.
Proof.
  unfold F32.div, SFdiv, SFdiv_core_binary.
  replace (Zdigits2 (Z.pos m) + e - (Zdigits2 (Z.pos m) + e)) with 0 by lia.
  replace (e - e) with 0 by lia.
  change (Z.min (fexp F32.prec F32.emax 0) 0) with (-24).
  change (0 - -24) with 24.
  cbv beta iota zeta.
  rewrite Z.shiftl_mul_pow2 by lia.
  assert (Hq : (Z.pos m * 2 ^ 24) / Z.pos m = 2 ^ 24)
    by (symmetry; apply Z.div_unique with 0; lia).
  assert (Hr : (Z.pos m * 2 ^ 24) mod Z.pos m = 0)
    by (symmetry; apply Z.mod_unique with (2 ^ 24); lia).
  unfold Z.div, Z.modulo in Hq, Hr.
  destruct (Z.div_eucl (Z.pos m * 2 ^ 24) (Z.pos m)) as [q r].
  subst q r. rewrite xorb_nilpotent.
  unfold new_location. destruct (Z.even (Z.pos m)); reflexivity.
Qed.

Lemma digits2_iter (k : positive) (p : positive) :
  digits2_pos (Pos.iter xO p k) = (digits2_pos p + k)%positive.
Proof.
  induction k as [|k IH] using Pos.peano_ind.
  - simpl. lia.
  - rewrite Pos.iter_succ. simpl. rewrite IH. lia.
Qed.

Lemma digits2_bound (p : positive) (k : Z) :
  0 <= k -> Z.pos p < 2 ^ k -> Z.pos (digits2_pos p) <= k.
Proof.
  revert k. induction p as [p IH|p IH|]; intros k Hk H; simpl.
  - assert (0 < k) by (destruct (Z.eq_dec k 0); [subst; simpl in H; lia|lia]).
    specialize (IH (k - 1)).
    replace (2 ^ k) with (2 * 2 ^ (k - 1)) in H
      by (rewrite <- Z.pow_succ_r by lia; f_equal; lia).
    lia.
  - assert (0 < k) by (destruct (Z.eq_dec k 0); [subst; simpl in H; lia|lia]).
    specialize (IH (k - 1)).
    replace (2 ^ k) with (2 * 2 ^ (k - 1)) in H
      by (rewrite <- Z.pow_succ_r by lia; f_equal; lia).
    lia.
  - destruct (Z.eq_dec k 0); [subst; simpl in H; lia|lia].
Qed.

(** A positive integer below [2 ^ 24] converts to a finite [float]. *)
Lemma of_Z_small (p : positive) :
  Z.pos p < 2 ^ 24 -> exists m e, F32.of_Z (Z.pos p) = S754_finite false m e.
Proof.
  intros H. pose proof (digits2_bound p 24 ltac:(lia) H) as Hd.
  unfold F32.of_Z, binary_normalize, binary_round, shl_align.
  assert (Hf : fexp F32.prec F32.emax (Z.pos (digits2_pos p) + 0)
               = Z.pos (digits2_pos p) - 24).
  { unfold fexp, emin, F32.prec, F32.emax. lia. }
  rewrite Hf.
  assert (Haux : forall mz ez, Z.pos (digits2_pos mz) = 24 -> -149 <= ez <= 0 ->
            binary_round_aux F32.prec F32.emax false (Z.pos mz) ez loc_Exact
              = S754_finite false mz ez).
  { intros mz ez Hmz Hez. unfold binary_round_aux, shr_fexp.
    assert (Hz : fexp F32.prec F32.emax (Zdigits2 (Z.pos mz) + ez) - ez = 0).
    { unfold fexp, emin, F32.prec, F32.emax, Zdigits2. lia. }
    rewrite Hz. simpl shr. cbv beta iota zeta. simpl shr_m.
    simpl loc_of_shr_record. simpl round_nearest_even. rewrite Hz. simpl.
    replace (ez <=? 104) with true by (symmetry; apply Z.leb_le; lia).
    reflexivity. }
  destruct (Z.pos (digits2_pos p) - 24 - 0) as [|d|d] eqn:E; try lia.
  - do 2 eexists. apply Haux; lia.
  - do 2 eexists. apply Haux.
    + rewrite digits2_iter. lia.
    + lia.
Qed.

(** The rounding of a mantissa that is not negative gives no NaN. *)
Lemma shr_1_nonneg (mrs : shr_record) :
  0 <= shr_m mrs -> 0 <= shr_m (shr_1 mrs).
Proof.
  destruct mrs as [m r s]. destruct m as [|[p|p|]|[p|p|]]; simpl; lia.
Qed.

Lemma iter_shr_1_nonneg (p : positive) :
  forall mrs, 0 <= shr_m mrs -> 0 <= shr_m (iter_pos shr_1 p mrs).
Proof.
  induction p as [p IH|p IH|]; intros mrs H; simpl;
    auto using shr_1_nonneg.
Qed.

Lemma shr_fexp_nonneg (prec emax m e : Z) (l : location) :
  0 <= m -> 0 <= shr_m (fst (shr_fexp prec emax m e l)).
Proof.
  intros H. unfold shr_fexp, shr.
  assert (H0 : 0 <= shr_m (shr_record_of_loc m l))
    by (destruct l as [|[]]; exact H).
  destruct (fexp prec emax (Zdigits2 m + e) - e); simpl; auto.
  apply iter_shr_1_nonneg. exact H0.
Qed.

Lemma binary_round_aux_not_nan (prec emax : Z) (sx : bool) (mx ex : Z)
    (lx : location) :
  0 <= mx -> binary_round_aux prec emax sx mx ex lx <> S754_nan.
Proof.
  intros H. unfold binary_round_aux.
  pose proof (shr_fexp_nonneg prec emax mx ex lx H) as H1.
  destruct (shr_fexp prec emax mx ex lx) as [mrs' e']. simpl in H1.
  assert (H2 : 0 <= round_nearest_even (shr_m mrs') (loc_of_shr_record mrs')).
  { unfold round_nearest_even.
    destruct (loc_of_shr_record mrs') as [|[]]; try destruct (Z.even _); lia. }
  pose proof (shr_fexp_nonneg prec emax _ e' loc_Exact H2) as H3.
  destruct (shr_fexp prec emax
              (round_nearest_even (shr_m mrs') (loc_of_shr_record mrs')) e'
              loc_Exact) as [mrs'' e''].
  simpl in H3. destruct (shr_m mrs''); [discriminate| |lia].
  destruct (_ <=? _); discriminate.
Qed.

(** A share of a count below [2 ^ 24], as a percentage, is a number. *)
Lemma share_not_nan (c n : Z) :
  0 <= c < 2 ^ 24 -> 0 < n < 2 ^ 24 ->
  F32.mul (F32.div (F32.of_Z c) (F32.of_Z n)) f100 <> S754_nan.
Proof.
  intros Hc Hn.
  assert (Hmul : forall d, d <> S754_nan -> F32.mul d f100 <> S754_nan).
  { intros [s|s| |s m e] Hd; [discriminate|discriminate|congruence|].
    apply binary_round_aux_not_nan. lia. }
  apply Hmul.
  destruct n as [|n|n]; try lia.
  destruct (of_Z_small n ltac:(lia)) as (mn & en & ->).
  destruct c as [|c|c]; try lia; [discriminate|].
  destruct (of_Z_small c ltac:(lia)) as (mc & ec & ->).
  unfold F32.div, SFdiv, SFdiv_core_binary.
  match goal with
  | |- context [Z.div_eucl ?a ?b] =>
      pose proof (Z.div_pos a b) as Hq;
      assert (Ha : 0 <= a);
      [|unfold Z.div in Hq; destruct (Z.div_eucl a b) as [q r]]
  end.
  - match goal with |- 0 <= match ?s with _ => _ end => destruct s end;
      try lia.
    apply Z.shiftl_nonneg. lia.
  - apply binary_round_aux_not_nan. apply Hq; [exact Ha|lia].
Qed.

(** ** Searching the roster *)

Module Search.

Import StudentOperations.

Lemma nth_error_find_if {A : Type} (pred : A -> bool) (l : list A) :
  match nth_error l (find_if pred l) with
  | Some x =>
      pred x = true /\
      exists pre post, l = pre ++ x :: post /\
                       List.length pre = find_if pred l /\
                       forallb (fun y => negb (pred y)) pre = true
  | None => forallb (fun y => negb (pred y)) l = true
  end.
Proof.
  induction l as [|y l IH]; simpl; [reflexivity|].
  destruct (pred y) eqn:Hy; simpl.
  - split; [exact Hy|]. exists [], l. auto.
  - destruct (nth_error l (find_if pred l)) as [x|]; [|exact IH].
    destruct IH as (Hx & pre & post & -> & Hlen & Hpre). split; [exact Hx|].
    exists (y :: pre), post. simpl. rewrite Hy, Hlen. auto.
Qed.

Lemma find_if_first {A : Type} (pred : A -> bool) (pre post : list A) (x : A) :
  forallb (fun y => negb (pred y)) pre = true -> pred x = true ->
  find_if pred (pre ++ x :: post) = List.length pre.
Proof.
  intros Hpre Hx. induction pre as [|y pre IH]; simpl in *.
  - rewrite Hx. reflexivity.
  - apply andb_true_iff in Hpre. destruct Hpre as [Hy Hpre].
    apply negb_true_iff in Hy. rewrite Hy. f_equal. auto.
Qed.

Lemma no_roll_forallb (roll : Z) (l : list Student) :
  forallb (fun y => negb (has_roll roll y)) l = true
  <-> Forall (fun t => rollNo t <> roll) l.
Proof.
  rewrite forallb_forall, Forall_forall. unfold has_roll.
  split; intros H s Hs; specialize (H s Hs).
  - apply negb_true_iff, Z.eqb_neq in H. exact H.
  - apply negb_true_iff, Z.eqb_neq. exact H.
Qed.

Lemma searchStudent_found (roll : Z) (pre post : list Student) (s : Student) :
  Forall (fun t => rollNo t <> roll) pre -> rollNo s = roll ->
  searchStudent roll (pre ++ s :: post)
    = inr (s, calculateAttendancePercentage s).
Proof.
  intros Hpre Hs. unfold searchStudent.
  rewrite find_if_first.
  - rewrite nth_error_app2, Nat.sub_diag by lia. reflexivity.
  - apply no_roll_forallb. exact Hpre.
  - unfold has_roll. apply Z.eqb_eq. exact Hs.
Qed.

Lemma searchStudent_not_found (roll : Z) (students : list Student) :
  Forall (fun t => rollNo t <> roll) students ->
  searchStudent roll students = inl StudentNotFound.
Proof.
  intros H. unfold searchStudent.
  apply no_roll_forallb in H. apply find_if_none in H. rewrite H.
  replace (nth_error students (List.length students)) with (@None Student);
    [reflexivity|].
  symmetry. apply nth_error_None. lia.
Qed.

Lemma searchStudent_cases (roll : Z) (students : list Student) :
  (Forall (fun t => rollNo t <> roll) students /\
   searchStudent roll students = inl StudentNotFound) \/
  (exists pre s post,
     students = pre ++ s :: post /\ rollNo s = roll /\
     Forall (fun t => rollNo t <> roll) pre /\
     searchStudent roll students = inr (s, calculateAttendancePercentage s)).
Proof.
  pose proof (nth_error_find_if (has_roll roll) students) as H.
  destruct (nth_error students (find_if (has_roll roll) students)) as [s|] eqn:E.
  - right. destruct H as (Hs & pre & post & -> & _ & Hpre).
    apply no_roll_forallb in Hpre. apply Z.eqb_eq in Hs.
    exists pre, s, post. repeat split; auto.
    apply searchStudent_found; auto.
  - left. apply no_roll_forallb in H. split; [exact H|].
    apply searchStudent_not_found. exact H.
Qed.

(** X1.  [searchStudent] returns the first record of the roster with the
    roll number asked for, whatever comes after it, together with the
    attendance percentage of that record; it reports that the student was
    not found exactly when no record has the roll number. *)
Theorem searchStudent_first_match (roll : Z) (students : list Student) :
  (forall s a,
     searchStudent roll students = inr (s, a) <->
     a = calculateAttendancePercentage s /\
     exists pre post, students = pre ++ s :: post /\ rollNo s = roll /\
                      Forall (fun t => rollNo t <> roll) pre) /\
  (searchStudent roll students = inl StudentNotFound <->
   Forall (fun t => rollNo t <> roll) students) /\
  (forall m, searchStudent roll students = inl m -> m = StudentNotFound).
Proof.
  split; [|split].
  - intros s a. split.
    + intros H. destruct (searchStudent_cases roll students)
        as [[_ E]|(pre & s' & post & -> & Hr & Hpre & E)];
        rewrite E in H; inversion H; subst. split; [reflexivity|].
      exists pre, post. auto.
    + intros (-> & pre & post & -> & Hr & Hpre).
      apply searchStudent_found; auto.
  - split.
    + intros H. destruct (searchStudent_cases roll students)
        as [[Hall _]|(pre & s' & post & -> & Hr & Hpre & E)]; [exact Hall|].
      rewrite E in H. discriminate.
    + apply searchStudent_not_found.
  - intros m H. destruct (searchStudent_cases roll students)
      as [[_ E]|(pre & s' & post & -> & Hr & Hpre & E)];
      rewrite E in H; inversion H; reflexivity.
Qed.

Lemma searchStudent_cons (roll : Z) (x : Student) (l : list Student) :
  searchStudent roll (x :: l)
    = if has_roll roll x then inr (x, calculateAttendancePercentage x)
      else searchStudent roll l.
Proof. unfold searchStudent. simpl. destruct (has_roll roll x); reflexivity. Qed.

Lemma searchStudent_app (roll : Z) (pre post : list Student) :
  Forall (fun t => rollNo t <> roll) pre ->
  searchStudent roll (pre ++ post) = searchStudent roll post.
Proof.
  induction 1 as [|x pre Hx _ IH]; [reflexivity|].
  simpl. rewrite searchStudent_cons.
  unfold has_roll. apply Z.eqb_neq in Hx. rewrite Hx. exact IH.
Qed.

Lemma searchStudent_filter (roll r : Z) (l : list Student) :
  r <> roll ->
  searchStudent r (filter (fun s => negb (has_roll roll s)) l)
    = searchStudent r l.
Proof.
  intros Hr. induction l as [|x l IH]; [reflexivity|].
  simpl. rewrite searchStudent_cons.
  destruct (has_roll roll x) eqn:Hx; simpl.
  - unfold has_roll in *. apply Z.eqb_eq in Hx.
    replace (rollNo x =? r) with false by (symmetry; apply Z.eqb_neq; lia).
    exact IH.
  - rewrite searchStudent_cons. rewrite IH. reflexivity.
Qed.

Lemma deleteStudent_spec (roll : Z) (students : list Student) :
  fst (deleteStudent roll students)
    = filter (fun s => negb (has_roll roll s)) students /\
  (Forall (fun t => rollNo t <> roll) students ->
   deleteStudent roll students = (students, StudentNotFound)).
Proof.
  unfold deleteStudent.
  pose proof (remove_if_spec (has_roll roll) students) as H.
  destruct (remove_if (has_roll roll) students) as [arr new_end].
  destruct H as (Hfilter & Hlen & Hnone & Hsome).
  destruct (Nat.eqb new_end (List.length students)) eqn:E; simpl.
  - apply Nat.eqb_eq in E. destruct (Hnone E) as [-> Hall].
    split; [|reflexivity]. symmetry. apply filter_all. exact Hall.
  - split; [exact Hfilter|]. intros Hno. exfalso.
    apply Nat.eqb_neq in E. apply Hsome in E.
    apply existsb_exists in E. destruct E as (s & Hs & Hr).
    rewrite Forall_forall in Hno. apply (Hno s Hs).
    apply Z.eqb_eq. exact Hr.
Qed.

(** X2.  After [deleteStudent], a search for the deleted roll number
    reports that the student was not found, and deleting the same number
    again changes nothing and reports the same; a search for any other
    roll number gives what it gave before the deletion. *)
Theorem deleteStudent_then_search (roll : Z) (students : list Student) :
  let remaining := fst (deleteStudent roll students) in
  searchStudent roll remaining = inl StudentNotFound /\
  deleteStudent roll remaining = (remaining, StudentNotFound) /\
  (forall r, r <> roll -> searchStudent r remaining = searchStudent r students).
Proof.
  intros remaining. subst remaining.
  destruct (deleteStudent_spec roll students) as [E _]. rewrite E.
  assert (Hno : Forall (fun t => rollNo t <> roll)
                  (filter (fun s => negb (has_roll roll s)) students)).
  { apply Forall_forall. intros s Hs. apply filter_In in Hs.
    destruct Hs as [_ Hs]. apply negb_true_iff, Z.eqb_neq in Hs. exact Hs. }
  split; [|split].
  - apply searchStudent_not_found. exact Hno.
  - apply (deleteStudent_spec roll). exact Hno.
  - intros r Hr. apply searchStudent_filter. exact Hr.
Qed.

(** X3.  With the default grading, [addStudent] appends one record at the
    end of the roster, with the identity given, five zero marks, no
    attendance, percentage 0, grade F and GPA 0; the records already there
    are untouched and roll numbers are not checked for duplicates.  A
    search for the new roll number finds the new record only when no older
    record has it; a search that succeeded before finds the same record. *)
Theorem addStudent_then_search (name' : string) (roll : Z) (class' : string)
    (age' : Z) (gender' : string) (students : list Student) :
  let s := {| name := name'; rollNo := roll; studentClass := class';
              age := age'; gender := gender'; marks := zero_marks;
              percentage := f0; grade := "F"; attendanceRecords := [];
              gpa := f0 |} in
  addStudent gradeCalc name' roll class' age' gender' students
    = (students ++ [s], StudentAdded) /\
  (Forall (fun t => rollNo t <> roll) students ->
   searchStudent roll (students ++ [s]) = inr (s, f0)) /\
  (forall r found,
     searchStudent r students = inr found ->
     searchStudent r (students ++ [s]) = inr found).
Proof.
  intros s. split; [reflexivity|]. split.
  - intros Hno. rewrite (searchStudent_found roll students [] s); auto.
  - intros r found H.
    destruct (searchStudent_cases r students)
      as [[_ E]|(pre & s' & post & -> & Hr & Hpre & E)];
      rewrite E in H; inversion H; subst.
    rewrite <- app_assoc. simpl. apply searchStudent_found; auto.
Qed.

Lemma assign_middle {A : Type} (pre post : list A) (x v : A) :
  assign (List.length pre) v (pre ++ x :: post) = pre ++ v :: post.
Proof. induction pre as [|y pre IH]; simpl; [reflexivity|]. f_equal. exact IH. Qed.

Lemma find_first_roll (roll : Z) (pre post : list Student) (s : Student) :
  Forall (fun t => rollNo t <> roll) pre -> rollNo s = roll ->
  find_if (has_roll roll) (pre ++ s :: post) = List.length pre /\
  nth_error (pre ++ s :: post) (List.length pre) = Some s.
Proof.
  intros Hpre Hs. split.
  - apply find_if_first.
    + apply no_roll_forallb. exact Hpre.
    + apply Z.eqb_eq. exact Hs.
  - rewrite nth_error_app2, Nat.sub_diag by lia. reflexivity.
Qed.

Section Mutation.

Variable strategy : IGradeStrategy.t.

Let calc := GradeCalculator.make strategy.

(** X4.  [updateStudent] rewrites the name, class, age and gender of the
    first record with the roll number and of no other record; the roll
    number, the marks and the attendance of that record stay, its derived
    fields are recomputed from the marks (and so do not change when they
    agreed with the marks before), and a search then returns the updated
    record.  When no record has the roll number the roster is unchanged
    and the student is reported as not found. *)
Theorem updateStudent_first_match (roll : Z) (name' class' : string) (age' : Z)
    (gender' : string) (students : list Student) :
  (Forall (fun t => rollNo t <> roll) students ->
   updateStudent calc roll name' class' age' gender' students
     = (students, StudentNotFound)) /\
  (forall pre s post,
     students = pre ++ s :: post -> rollNo s = roll ->
     Forall (fun t => rollNo t <> roll) pre ->
     exists s',
       updateStudent calc roll name' class' age' gender' students
         = (pre ++ s' :: post, StudentUpdated) /\
       name s' = name' /\ studentClass s' = class' /\ age s' = age' /\
       gender s' = gender' /\ rollNo s' = rollNo s /\ marks s' = marks s /\
       attendanceRecords s' = attendanceRecords s /\
       consistent strategy s' /\
       (consistent strategy s ->
        percentage s' = percentage s /\ grade s' = grade s /\ gpa s' = gpa s) /\
       searchStudent roll (pre ++ s' :: post)
         = inr (s', calculateAttendancePercentage s)).
Proof.
  split.
  - intros Hno. unfold updateStudent.
    apply no_roll_forallb in Hno. apply find_if_none in Hno. rewrite Hno.
    replace (nth_error students (List.length students)) with (@None Student);
      [reflexivity|].
    symmetry. apply nth_error_None. lia.
  - intros pre s post -> Hs Hpre.
    destruct (find_first_roll roll pre post s Hpre Hs) as [Hf Hn].
    unfold updateStudent. rewrite Hf, Hn, assign_middle.
    eexists. split; [reflexivity|]. cbn.
    repeat (split; [reflexivity|]).
    split; [repeat split|]. split.
    { intros (Hp & Hg & Hgpa). rewrite Hg, Hgpa, Hp. auto. }
    rewrite (searchStudent_found roll pre post); auto.
Qed.

(** X5.  [enterMarks] stores the five marks in the first record with the
    roll number and recomputes its percentage, grade and GPA from them
    before it returns; the grade reported is the one stored; the identity
    and the attendance of the record and every other record are unchanged,
    and a search then shows the new marks.  When no record has the roll
    number the roster is unchanged. *)
Theorem enterMarks_first_match (roll : Z) (m : Marks) (students : list Student) :
  (Forall (fun t => rollNo t <> roll) students ->
   ExtendedStudentOperations.enterMarks calc roll m students
     = (students, StudentNotFound)) /\
  (forall pre s post,
     students = pre ++ s :: post -> rollNo s = roll ->
     Forall (fun t => rollNo t <> roll) pre ->
     exists s',
       ExtendedStudentOperations.enterMarks calc roll m students
         = (pre ++ s' :: post, MarksUpdated (grade s')) /\
       marks s' = m /\
       percentage s' = F32.div (GradeCalculator.total m) f5 /\
       grade s' = IGradeStrategy.calculateGrade strategy (percentage s') /\
       gpa s' = IGradeStrategy.calculateGPA strategy (percentage s') /\
       name s' = name s /\ rollNo s' = rollNo s /\
       studentClass s' = studentClass s /\ age s' = age s /\
       gender s' = gender s /\
       attendanceRecords s' = attendanceRecords s /\
       searchStudent roll (pre ++ s' :: post)
         = inr (s', calculateAttendancePercentage s)).
Proof.
  split.
  - intros Hno. unfold ExtendedStudentOperations.enterMarks.
    apply no_roll_forallb in Hno. apply find_if_none in Hno. rewrite Hno.
    replace (nth_error students (List.length students)) with (@None Student);
      [reflexivity|].
    symmetry. apply nth_error_None. lia.
  - intros pre s post -> Hs Hpre.
    destruct (find_first_roll roll pre post s Hpre Hs) as [Hf Hn].
    unfold ExtendedStudentOperations.enterMarks. rewrite Hf, Hn, assign_middle.
    eexists. split; [reflexivity|]. cbn.
    repeat (split; [reflexivity|]).
    rewrite (searchStudent_found roll pre post); auto.
Qed.

End Mutation.

End Search.

(** ** Sorting a roster with distinct roll numbers *)

Module DistinctRolls.

Import StudentOperations.

Lemma ascending_unique (l1 : list Student) :
  forall l2,
  Permutation l1 l2 ->
  StronglySorted (fun a b => rollNo a <= rollNo b) l1 ->
  StronglySorted (fun a b => rollNo a <= rollNo b) l2 ->
  NoDup (map rollNo l1) -> l1 = l2.
Proof.
  induction l1 as [|a l1 IH]; intros l2 Hp H1 H2 Hnd.
  - apply Permutation_nil in Hp. congruence.
  - destruct l2 as [|b l2].
    { apply Permutation_sym, Permutation_nil in Hp. discriminate. }
    assert (Hab : a = b).
    { assert (Ha : In a (b :: l2)) by (eapply Permutation_in; [exact Hp|left; auto]).
      assert (Hb : In b (a :: l1))
        by (eapply Permutation_in; [apply Permutation_sym; exact Hp|left; auto]).
      destruct Ha as [Ha|Ha]; [congruence|].
      destruct Hb as [Hb|Hb]; [congruence|]. exfalso.
      inversion H1 as [|? ? _ Hle1]; subst. inversion H2 as [|? ? _ Hle2]; subst.
      rewrite Forall_forall in Hle1, Hle2.
      specialize (Hle1 b Hb). specialize (Hle2 a Ha).
      inversion Hnd as [|? ? Hnotin _]; subst. apply Hnotin.
      replace (rollNo a) with (rollNo b) by lia. apply in_map. exact Hb. }
    subst b. f_equal. apply IH.
    + eapply Permutation_cons_inv. exact Hp.
    + inversion H1; assumption.
    + inversion H2; assumption.
    + inversion Hnd; assumption.
Qed.

Lemma sortStudents_contract (std_sort : std_sort_t) (students : list Student) :
  conforming std_sort ->
  Permutation students (fst (sortStudents std_sort students)) /\
  StronglySorted (fun a b => rollNo a <= rollNo b)
    (fst (sortStudents std_sort students)).
Proof.
  intros Hsort. unfold sortStudents. simpl.
  destruct (Hsort Student by_roll students Sorting.by_roll_strict_weak_ordering)
    as [Hperm Hord].
  split; [exact Hperm|]. clear Hperm.
  induction Hord as [|a l Hl IH Ha]; constructor; auto.
  eapply Forall_impl; [|exact Ha].
  intros b Hb. unfold by_roll in Hb. apply Z.ltb_ge in Hb. exact Hb.
Qed.

Lemma searchStudent_member (l : list Student) (s : Student) :
  NoDup (map rollNo l) -> In s l ->
  searchStudent (rollNo s) l = inr (s, calculateAttendancePercentage s).
Proof.
  intros Hnd Hin.
  destruct (Search.searchStudent_cases (rollNo s) l)
    as [[Hno _]|(pre & s' & post & -> & Hr & Hpre & E)].
  - rewrite Forall_forall in Hno. exfalso. exact (Hno s Hin eq_refl).
  - rewrite E. assert (s' = s); [|subst; reflexivity].
    rewrite map_app in Hnd. simpl in Hnd.
    apply in_app_or in Hin. destruct Hin as [Hin|[Hin|Hin]]; auto.
    + rewrite Forall_forall in Hpre. exfalso. exact (Hpre s Hin eq_refl).
    + exfalso. apply NoDup_remove_2 in Hnd. apply Hnd.
      apply in_or_app. right. rewrite Hr. apply in_map. exact Hin.
Qed.

Lemma searchStudent_permutation (l1 l2 : list Student) (roll : Z) :
  Permutation l1 l2 -> NoDup (map rollNo l1) ->
  searchStudent roll l1 = searchStudent roll l2.
Proof.
  intros Hp Hnd.
  assert (Hnd2 : NoDup (map rollNo l2)).
  { eapply Permutation_NoDup; [apply Permutation_map; exact Hp|exact Hnd]. }
  destruct (Search.searchStudent_cases roll l1)
    as [[Hno E]|(pre & s & post & Hl & Hr & Hpre & E)].
  - rewrite E. symmetry. apply Search.searchStudent_not_found.
    eapply Permutation_Forall; eauto.
  - rewrite E. subst roll. symmetry. apply searchStudent_member; auto.
    eapply Permutation_in; [exact Hp|]. rewrite Hl. apply in_or_app.
    right. left. reflexivity.
Qed.

(** X6.  When the roll numbers of the roster are pairwise distinct, the
    outcome of [sortStudents] does not depend on which [std::sort] the
    library provides: any two sorts that meet the contract of the standard
    give the same roster, sorting again changes nothing, and a search
    returns the same record after sorting as before. *)
Theorem sortStudents_distinct_rolls (sort1 sort2 : std_sort_t)
    (students : list Student) :
  conforming sort1 -> conforming sort2 -> NoDup (map rollNo students) ->
  fst (sortStudents sort1 students) = fst (sortStudents sort2 students) /\
  fst (sortStudents sort1 (fst (sortStudents sort2 students)))
    = fst (sortStudents sort2 students) /\
  (forall roll, searchStudent roll (fst (sortStudents sort1 students))
                = searchStudent roll students).
Proof.
  intros H1 H2 Hnd.
  destruct (sortStudents_contract sort1 students H1) as [P1 S1].
  destruct (sortStudents_contract sort2 students H2) as [P2 S2].
  assert (Hnd2 : NoDup (map rollNo (fst (sortStudents sort2 students)))).
  { eapply Permutation_NoDup; [apply Permutation_map; exact P2|exact Hnd]. }
  assert (Hnd1 : NoDup (map rollNo (fst (sortStudents sort1 students)))).
  { eapply Permutation_NoDup; [apply Permutation_map; exact P1|exact Hnd]. }
  split; [|split].
  - apply ascending_unique; auto.
    eapply Permutation_trans; [apply Permutation_sym; exact P1|exact P2].
  - destruct (sortStudents_contract sort1 (fst (sortStudents sort2 students)) H1)
      as [P3 S3].
    apply ascending_unique; auto.
    + apply Permutation_sym. exact P3.
    + eapply Permutation_NoDup; [apply Permutation_map; exact P3|exact Hnd2].
  - intros roll. symmetry. apply searchStudent_permutation; auto.
Qed.

Lemma sortStudents_distinct_rolls_witness :
  let roster := [example_student "A" 7 "X" 70; example_student "B" 3 "X" 85;
                 example_student "C" 5 "X" 60] in
  fst (sortStudents Libstdcxx.sort roster)
    = fst (sortStudents insertion_sort roster) /\
  fst (sortStudents Libstdcxx.sort (fst (sortStudents insertion_sort roster)))
    = fst (sortStudents insertion_sort roster) /\
  (forall roll, searchStudent roll (fst (sortStudents Libstdcxx.sort roster))
                = searchStudent roll roster).
Proof.
  intros roster.
  assert (Hnd : NoDup (map rollNo roster)).
  { simpl. repeat constructor; simpl; intuition discriminate. }
  exact (sortStudents_distinct_rolls Libstdcxx.sort insertion_sort roster
           GnuSort.sort_conforming insertion_sort_conforming Hnd).
Defined.

End DistinctRolls.

(** ** The attendance ledger *)

Module Ledger.

Import StudentOperations ExtendedStudentOperations.

Lemma toupper_P (a : ascii) :
  Ascii.eqb (toupper a) "P" = (Ascii.eqb a "P" || Ascii.eqb a "p")%bool.
Proof.
  destruct a as [[] [] [] [] [] [] [] []]; vm_compute; reflexivity.
Qed.

Lemma markAttendance_from_length (k : nat) (date' : string) (answer : nat -> ascii)
    (students : list Student) :
  List.length (markAttendance_from k date' answer students)
    = List.length students.
Proof.
  revert k. induction students as [|s l IH]; intros k; simpl; auto.
Qed.

Lemma markAttendance_from_nth (students : list Student) :
  forall (k i : nat) (date' : string) (answer : nat -> ascii) (s : Student),
  nth_error students i = Some s ->
  nth_error (markAttendance_from k date' answer students) i
    = Some (with_entry date' (answer (k + i)%nat) s).
Proof.
  induction students as [|x l IH]; intros k [|i] date' answer s H;
    simpl in *; try discriminate.
  - inversion H; subst. rewrite Nat.add_0_r. unfold with_entry, status_of.
    rewrite toupper_P. reflexivity.
  - rewrite (IH (S k) i date' answer s H).
    replace (S k + i)%nat with (k + S i)%nat by lia. reflexivity.
Qed.

(** X7.  [markAttendance] gives every student of the roster exactly one
    new entry, put at the end of the ledger: it carries the date entered
    and the status Present when the character typed for the student is P
    or p, and Absent for any other character.  The entries already in the
    ledger stay in their order, even when one of them is for the same
    date, and nothing else in a record changes. *)
Theorem markAttendance_appends (date' : string) (answer : nat -> ascii)
    (students : list Student) :
  let marked := markAttendance date' answer students in
  List.length marked = List.length students /\
  (forall i s,
     nth_error students i = Some s ->
     exists s',
       nth_error marked i = Some s' /\
       attendanceRecords s'
         = attendanceRecords s
           ++ [{| date := date';
                  status := if (Ascii.eqb (answer i) "P"
                                || Ascii.eqb (answer i) "p")%bool
                            then "Present" else "Absent" |}] /\
       name s' = name s /\ rollNo s' = rollNo s /\
       studentClass s' = studentClass s /\ age s' = age s /\
       gender s' = gender s /\ marks s' = marks s /\
       percentage s' = percentage s /\ grade s' = grade s /\ gpa s' = gpa s).
Proof.
  intros marked. subst marked. unfold markAttendance. split.
  - apply markAttendance_from_length.
  - intros i s H. exists (with_entry date' (answer i) s).
    rewrite (markAttendance_from_nth students 0 i date' answer s H).
    simpl. repeat split; reflexivity.
Qed.

Lemma nth_error_find {A : Type} (p : A -> bool) (l : list A) :
  nth_error l (find_if p l) = find p l.
Proof.
  induction l as [|x l IH]; simpl; [reflexivity|].
  destruct (p x); simpl; auto.
Qed.

Lemma viewAttendanceByDate_loop_lines (date' : string) (students : list Student) :
  forall out found,
  viewAttendanceByDate_loop date' students out found
    = (out ++ flat_map (date_line date') students,
       (found || existsb (fun s => existsb (on_date date') (attendanceRecords s))
                         students)%bool).
Proof.
  induction students as [|s l IH]; intros out found; simpl.
  - rewrite app_nil_r, orb_false_r. reflexivity.
  - rewrite nth_error_find. unfold date_line, first_on_date.
    destruct (find (on_date date') (attendanceRecords s)) as [r|] eqn:E.
    + rewrite IH, <- app_assoc. simpl.
      replace (existsb (on_date date') (attendanceRecords s)) with true.
      * rewrite orb_true_r. reflexivity.
      * symmetry. apply existsb_exists. exists r.
        apply find_some in E. exact E.
    + rewrite IH. simpl.
      replace (existsb (on_date date') (attendanceRecords s)) with false;
        [reflexivity|].
      symmetry. apply not_true_is_false. intros H.
      apply existsb_exists in H. destruct H as (r & Hr & Hd).
      pose proof (find_none _ _ E r Hr) as Hn. congruence.
Qed.

Lemma viewAttendanceByDate_lines (date' : string) (students : list Student) :
  viewAttendanceByDate date' students
    = {| date_rows := flat_map (date_line date') students;
         none_found :=
           negb (existsb (fun s => existsb (on_date date') (attendanceRecords s))
                         students) |}.
Proof.
  unfold viewAttendanceByDate. rewrite viewAttendanceByDate_loop_lines.
  reflexivity.
Qed.

(** X8.  [viewAttendanceByDate] prints one line for each student who has
    an entry for the date, in the order of the roster, and none for the
    others; the line shows the status of the earliest entry for that date
    in the student's ledger, whatever later entries for the same date say.
    The notice that no records were found is printed exactly when no
    student has an entry for the date. *)
Theorem viewAttendanceByDate_first_entry (date' : string)
    (students : list Student) :
  date_rows (viewAttendanceByDate date' students)
    = flat_map
        (fun s =>
           match find (fun r => String.eqb (date r) date') (attendanceRecords s) with
           | Some r => [{| date_rollNo := rollNo s; date_name := name s;
                           date_status := status r |}]
           | None => []
           end) students /\
  (none_found (viewAttendanceByDate date' students) = true <->
   forall s r, In s students -> In r (attendanceRecords s) -> date r <> date').
Proof.
  rewrite viewAttendanceByDate_lines. simpl. split; [reflexivity|].
  rewrite negb_true_iff. split.
  - intros H s r Hs Hr Hd.
    assert (E : existsb (fun s => existsb (on_date date') (attendanceRecords s))
                  students = true); [|congruence].
    apply existsb_exists. exists s. split; [exact Hs|].
    apply existsb_exists. exists r. split; [exact Hr|].
    apply String.eqb_eq. exact Hd.
  - intros H. apply not_true_is_false. intros E.
    apply existsb_exists in E. destruct E as (s & Hs & E).
    apply existsb_exists in E. destruct E as (r & Hr & E).
    apply String.eqb_eq in E. exact (H s r Hs Hr E).
Qed.

Lemma find_app_last {A : Type} (p : A -> bool) (l : list A) (x : A) :
  p x = true ->
  find p (l ++ [x]) = match find p l with Some r => Some r | None => Some x end.
Proof.
  intros Hx. induction l as [|y l IH]; simpl.
  - rewrite Hx. reflexivity.
  - destruct (p y); auto.
Qed.

Lemma date_line_with_entry (date' : string) (a : ascii) (s : Student) :
  date_line date' (with_entry date' a s)
    = [{| date_rollNo := rollNo s; date_name := name s;
          date_status := match first_on_date date' s with
                         | Some r => status r
                         | None => status_of a
                         end |}].
Proof.
  unfold date_line, first_on_date, with_entry. simpl.
  rewrite find_app_last by (unfold on_date; simpl; apply String.eqb_refl).
  destruct (find (on_date date') (attendanceRecords s)); reflexivity.
Qed.

Lemma markAttendance_from_cons (k : nat) (date' : string) (answer : nat -> ascii)
    (x : Student) (l : list Student) :
  markAttendance_from k date' answer (x :: l)
    = with_entry date' (answer k) x :: markAttendance_from (S k) date' answer l.
Proof.
  simpl. unfold with_entry, status_of. rewrite toupper_P. reflexivity.
Qed.

Lemma marked_lines (date' : string) (answer : nat -> ascii)
    (students : list Student) :
  forall k,
  List.length (flat_map (date_line date')
                 (markAttendance_from k date' answer students))
    = List.length students /\
  forall i s, nth_error students i = Some s ->
    nth_error (flat_map (date_line date')
                 (markAttendance_from k date' answer students)) i
      = Some {| date_rollNo := rollNo s; date_name := name s;
                date_status := match first_on_date date' s with
                               | Some r => status r
                               | None => status_of (answer (k + i)%nat)
                               end |}.
Proof.
  induction students as [|x l IH]; intros k.
  - split; [reflexivity|]. intros [|i] s H; discriminate.
  - destruct (IH (S k)) as [IH1 IH2].
    rewrite markAttendance_from_cons. cbn [flat_map].
    rewrite date_line_with_entry. cbn [app List.length].
    split; [f_equal; exact IH1|].
    intros [|i] s H; cbn [nth_error] in *.
    + inversion H; subst. rewrite Nat.add_0_r. reflexivity.
    + rewrite (IH2 i s H).
      replace (S k + i)%nat with (k + S i)%nat by lia. reflexivity.
Qed.

(** X9.  Right after [markAttendance] for a date, [viewAttendanceByDate]
    for that date prints a line for every student of the roster, in the
    order of the roster.  For a student who already had an entry for the
    date the line shows the status of the earliest one, not the status
    just marked: marking a date again does not change what is shown for
    it. *)
Theorem markAttendance_then_view (date' : string) (answer : nat -> ascii)
    (students : list Student) :
  let report := viewAttendanceByDate date' (markAttendance date' answer students) in
  List.length (date_rows report) = List.length students /\
  (forall i s,
     nth_error students i = Some s ->
     nth_error (date_rows report) i
       = Some {| date_rollNo := rollNo s; date_name := name s;
                 date_status :=
                   match find (fun r => String.eqb (date r) date')
                              (attendanceRecords s) with
                   | Some r => status r
                   | None => if (Ascii.eqb (answer i) "P"
                                 || Ascii.eqb (answer i) "p")%bool
                             then "Present" else "Absent"
                   end |}) /\
  (none_found report = true <-> students = []).
Proof.
  intros report. subst report. rewrite viewAttendanceByDate_lines. simpl.
  unfold markAttendance.
  destruct (marked_lines date' answer students 0) as [H1 H2].
  split; [exact H1|]. split; [exact H2|]. clear H1 H2.
  destruct students as [|x l]; simpl; [tauto|].
  replace (existsb (on_date date')
             (attendanceRecords x
              ++ [{| date := date';
                     status := if Ascii.eqb (toupper (answer 0%nat)) "P"
                               then "Present" else "Absent" |}])) with true.
  - simpl. split; discriminate.
  - symmetry. apply existsb_exists. eexists. split.
    + apply in_or_app. right. left. reflexivity.
    + unfold on_date. simpl. apply String.eqb_refl.
Qed.

Lemma count_if_all {A : Type} (p : A -> bool) (l : list A) :
  Forall (fun x => p x = true) l -> count_if p l = Z.of_nat (List.length l).
Proof.
  intros H. unfold count_if. f_equal. f_equal.
  induction H as [|x l Hx _ IH]; simpl; [reflexivity|].
  rewrite Hx. f_equal. exact IH.
Qed.

Lemma count_if_none {A : Type} (p : A -> bool) (l : list A) :
  Forall (fun x => p x = false) l -> count_if p l = 0.
Proof.
  intros H. unfold count_if.
  induction H as [|x l Hx _ IH]; simpl; [reflexivity|].
  rewrite Hx. exact IH.
Qed.

(** X10.  For a ledger of fewer than [2 ^ 24] entries,
    [calculateAttendancePercentage] is exactly 100 when the ledger is not
    empty and every entry has the status Present, and exactly 0 when no
    entry has it, in particular when the ledger is empty.  The status is
    compared as a whole and by case: any other string counts as absent.
    The copies of the computation in the exporter and in the report
    generator give the same value. *)
Theorem attendance_all_or_nothing (s : Student) :
  Z.of_nat (List.length (attendanceRecords s)) < 2 ^ 24 ->
  (CSVExporter.calculateAttendancePercentage s
     = calculateAttendancePercentage s /\
   TextReportGenerator.calculateAttendancePercentage s
     = calculateAttendancePercentage s) /\
  (Forall (fun r => status r <> "Present"%string) (attendanceRecords s) ->
   calculateAttendancePercentage s = f0) /\
  (attendanceRecords s <> [] ->
   Forall (fun r => status r = "Present"%string) (attendanceRecords s) ->
   calculateAttendancePercentage s = f100).
Proof.
  intros Hlen. split; [split; reflexivity|].
  unfold calculateAttendancePercentage.
  destruct (attendanceRecords s) as [|r l] eqn:E.
  - split; [reflexivity|congruence].
  - rewrite <- E in *.
    assert (Hn : exists p, Z.of_nat (List.length (attendanceRecords s)) = Z.pos p).
    { rewrite E. simpl List.length. rewrite Nat2Z.inj_succ.
      destruct (Z.succ (Z.of_nat (List.length l))) eqn:En; try lia. eauto. }
    destruct Hn as [p Hp]. rewrite Hp in *.
    destruct (of_Z_small p Hlen) as (m & e & Hm).
    split.
    + intros Hno. rewrite count_if_none.
      * rewrite Hm. reflexivity.
      * eapply Forall_impl; [|exact Hno]. intros a Ha. unfold is_present.
        apply String.eqb_neq. exact Ha.
    + intros _ Hall. rewrite count_if_all.
      * rewrite Hp, Hm, div_self. reflexivity.
      * eapply Forall_impl; [|exact Hall]. intros a Ha. unfold is_present.
        apply String.eqb_eq. exact Ha.
Qed.

Lemma attendance_all_or_nothing_witness :
  let s := {| name := "A"; rollNo := 1; studentClass := "X"; age := 15;
              gender := "F"; marks := zero_marks; percentage := f0;
              grade := "F"; gpa := f0;
              attendanceRecords :=
                [{| date := "2024-01-15"; status := "present" |};
                 {| date := "2024-01-16"; status := "P" |}] |} in
  calculateAttendancePercentage s = f0.
Proof.
  intros s.
  apply (proj1 (proj2 (attendance_all_or_nothing s ltac:(simpl; lia)))).
  repeat constructor; simpl; discriminate.
Defined.

End Ledger.

(** ** The monthly report *)

Module MonthlyRows.

Import StudentOperations ExtendedStudentOperations.

Lemma in_month_of_month (monthYear : string) (att : AttendanceRecord) :
  (5 <= String.length (date att))%nat ->
  in_month monthYear att = inr (of_month monthYear att).
Proof.
  intros H. unfold in_month, substr.
  replace (Nat.ltb (String.length (date att)) 5) with false
    by (symmetry; apply Nat.ltb_ge; lia).
  replace (Nat.ltb (String.length (date att)) 0) with false
    by (symmetry; apply Nat.ltb_ge; lia).
  reflexivity.
Qed.

Lemma monthly_count_filter (monthYear : string) (atts : list AttendanceRecord) :
  forall present total,
  Forall (fun att => (5 <= String.length (date att))%nat) atts ->
  monthly_count monthYear atts present total
    = inr (present + count_if is_present (filter (of_month monthYear) atts),
           total + Z.of_nat (List.length (filter (of_month monthYear) atts))).
Proof.
  induction atts as [|att atts IH]; intros present total H; simpl.
  - unfold count_if. simpl. rewrite !Z.add_0_r. reflexivity.
  - inversion H as [|? ? Ha Hr]; subst.
    rewrite (in_month_of_month monthYear att Ha).
    destruct (of_month monthYear att); [|apply IH; exact Hr].
    rewrite (IH _ _ Hr). unfold count_if. simpl.
    destruct (is_present att); simpl List.length; f_equal; f_equal; lia.
Qed.

Lemma viewMonthlyAttendance_loop_rows (monthYear : string)
    (students : list Student) :
  forall out,
  Forall (fun s => Forall (fun att => (5 <= String.length (date att))%nat)
                          (attendanceRecords s)) students ->
  viewMonthlyAttendance_loop monthYear students out
    = {| printed := out ++ flat_map (monthly_line monthYear) students;
         raised := None |}.
Proof.
  induction students as [|s l IH]; intros out H; simpl.
  - rewrite app_nil_r. reflexivity.
  - inversion H as [|? ? Hs Hl]; subst.
    rewrite (monthly_count_filter monthYear _ 0 0 Hs). unfold monthly_line.
    destruct (filter (of_month monthYear) (attendanceRecords s)) as [|r rs] eqn:E.
    + simpl. apply IH. exact Hl.
    + replace (0 + Z.of_nat (List.length (r :: rs)) >? 0) with true
        by (symmetry; apply Z.gtb_lt; simpl List.length; lia).
      rewrite (IH _ Hl), <- app_assoc. reflexivity.
Qed.

Lemma monthly_line_counts (monthYear : string) (s : Student) :
  Forall (fun row => 0 <= row_present row /\ 0 <= row_absent row /\
                     0 < row_present row + row_absent row /\
                     row_present row + row_absent row
                       = Z.of_nat (List.length
                           (filter (of_month monthYear) (attendanceRecords s))))
         (monthly_line monthYear s).
Proof.
  unfold monthly_line.
  destruct (filter (of_month monthYear) (attendanceRecords s)) as [|r rs] eqn:E;
    constructor; [|constructor].
  cbn [row_present row_absent]. unfold count_if.
  pose proof (filter_length_le is_present (r :: rs)) as Hle.
  assert (Hpos : (0 < List.length (r :: rs))%nat) by (simpl; lia).
  revert Hle Hpos.
  generalize (List.length (filter is_present (r :: rs))).
  generalize (List.length (r :: rs)). intros n k Hle Hpos. lia.
Qed.

(** X11.  When every stored date has at least five characters, the
    monthly report has one line for each student with at least one entry
    in the month asked for, in the order of the roster; a student with no
    entry in that month is left out rather than shown with 0%.  On a line,
    present and absent add up to the number of the student's entries in
    the month.  The month of an entry is read by position only: for a date
    made of four characters, any one character, two characters and any
    rest, the entry belongs to the month written as the two characters, a
    dash and the four. *)
Theorem viewMonthlyAttendance_rows (monthYear : string) (students : list Student) :
  (forall s att, In s students -> In att (attendanceRecords s) ->
                 (5 <= String.length (date att))%nat) ->
  printed (viewMonthlyAttendance monthYear students)
    = flat_map (monthly_line monthYear) students /\
  (forall s, In s students ->
     Forall (fun att => of_month monthYear att = false) (attendanceRecords s) ->
     monthly_line monthYear s = []) /\
  Forall (fun row => 0 <= row_present row /\ 0 <= row_absent row /\
                     0 < row_present row + row_absent row)
         (printed (viewMonthlyAttendance monthYear students)) /\
  (forall (yyyy mm rest st : string) (c : ascii),
     String.length yyyy = 4%nat -> String.length mm = 2%nat ->
     of_month (mm ++ "-" ++ yyyy)
       {| date := yyyy ++ String c (mm ++ rest); status := st |} = true).
Proof.
  intros H.
  assert (H' : Forall (fun s => Forall (fun att => (5 <= String.length (date att))%nat)
                                       (attendanceRecords s)) students).
  { apply Forall_forall. intros s Hs. apply Forall_forall. intros att Ha.
    exact (H s att Hs Ha). }
  unfold viewMonthlyAttendance.
  rewrite (viewMonthlyAttendance_loop_rows monthYear students [] H').
  simpl printed. split; [reflexivity|]. split; [|split].
  - intros s _ Hno. unfold monthly_line.
    replace (filter (of_month monthYear) (attendanceRecords s))
      with (@nil AttendanceRecord); [reflexivity|].
    symmetry. clear - Hno. induction Hno as [|a l Ha _ IH]; simpl; auto.
    rewrite Ha. exact IH.
  - apply Forall_forall. intros row Hrow. apply in_flat_map in Hrow.
    destruct Hrow as (s & _ & Hrow).
    pose proof (monthly_line_counts monthYear s) as Hc.
    rewrite Forall_forall in Hc. specialize (Hc row Hrow). tauto.
  - intros yyyy mm rest st c Hy Hm. unfold of_month, month_key. simpl date.
    destruct yyyy as [|y0 [|y1 [|y2 [|y3 [|? ?]]]]]; try discriminate.
    destruct mm as [|m0 [|m1 [|? ?]]]; try discriminate.
    simpl. destruct rest; simpl; rewrite !Ascii.eqb_refl; reflexivity.
Qed.

Lemma viewMonthlyAttendance_rows_witness :
  let s := {| name := "A"; rollNo := 1; studentClass := "X"; age := 15;
              gender := "F"; marks := zero_marks; percentage := f0;
              grade := "F"; gpa := f0;
              attendanceRecords :=
                [{| date := "2024-01-15"; status := "Present" |};
                 {| date := "2024/01/16"; status := "Absent" |};
                 {| date := "2024-02-01"; status := "Present" |}] |} in
  let t := {| name := "B"; rollNo := 2; studentClass := "X"; age := 15;
              gender := "F"; marks := zero_marks; percentage := f0;
              grade := "F"; gpa := f0;
              attendanceRecords :=
                [{| date := "2024-02-01"; status := "Present" |}] |} in
  printed (viewMonthlyAttendance "01-2024" [s; t])
    = [{| row_rollNo := 1; row_name := "A"; row_present := 1; row_absent := 1;
          row_percent := f50 |}].
Proof.
  intros s t.
  rewrite (proj1 (viewMonthlyAttendance_rows "01-2024" [s; t]
                    ltac:(intros s0 att [<-|[<-|[]]] Ha; simpl in Ha;
                          intuition (subst; simpl; lia)))).
  reflexivity.
Defined.

End MonthlyRows.

(** ** The grading policy *)

Module GradeOrder.

Import DefaultGradeStrategy.

Lemma geb_upward (p q c : float) :
  float_le p q -> F32.geb p c = true -> F32.geb q c = true.
Proof.
  intros Hpq Hp. apply geb_iff. apply geb_iff in Hp.
  eapply float_le_trans; eauto.
Qed.

(** X12.  The default grading is monotone: of two percentages, the
    higher one never gets a lower GPA nor a later letter of the alphabet.
    (Percentages are compared as [float]s; a NaN is comparable with
    nothing.) *)
Theorem default_grading_monotone (p q : float) :
  float_le p q ->
  float_le (calculateGPA p) (calculateGPA q) /\
  (nat_of_ascii (calculateGrade q) <= nat_of_ascii (calculateGrade p))%nat.
Proof.
  intros Hpq. unfold calculateGPA, calculateGrade.
  pose proof (geb_upward p q f90 Hpq) as H90.
  pose proof (geb_upward p q f80 Hpq) as H80.
  pose proof (geb_upward p q f70 Hpq) as H70.
  pose proof (geb_upward p q f60 Hpq) as H60.
  assert (H98 : F32.geb q f90 = true -> F32.geb q f80 = true)
    by (apply above_threshold; reflexivity).
  assert (H87 : F32.geb q f80 = true -> F32.geb q f70 = true)
    by (apply above_threshold; reflexivity).
  assert (H76 : F32.geb q f70 = true -> F32.geb q f60 = true)
    by (apply above_threshold; reflexivity).
  destruct (F32.geb p f90), (F32.geb p f80), (F32.geb p f70), (F32.geb p f60),
    (F32.geb q f90), (F32.geb q f80), (F32.geb q f70), (F32.geb q f60);
    try (specialize (H90 eq_refl)); try (specialize (H80 eq_refl));
    try (specialize (H70 eq_refl)); try (specialize (H60 eq_refl));
    try (specialize (H98 eq_refl)); try (specialize (H87 eq_refl));
    try (specialize (H76 eq_refl)); try discriminate;
    (split; [apply leb_iff; reflexivity|vm_compute; lia]).
Qed.

Lemma default_grading_monotone_witness :
  float_le (calculateGPA f70) (calculateGPA f95) /\
  (nat_of_ascii (calculateGrade f95) <= nat_of_ascii (calculateGrade f70))%nat.
Proof.
  apply (default_grading_monotone f70 f95). apply leb_iff. reflexivity.
Defined.

(** X13.  [calculateGPA] lists the students in the order of the roster,
    each with [gpa * 5.0 / 4.0] computed in [double].  For a GPA that the
    default grading assigns, the value printed with two decimals is 5.00,
    3.75, 2.50, 1.25 or 0.00 for the grades A, B, C, D and F: the
    conversion of the five GPAs is exact. *)
Theorem calculateGPA_five_scale (students : list Student) (p : float) :
  map fst (ExtendedStudentOperations.calculateGPA students) = map name students /\
  map snd (ExtendedStudentOperations.calculateGPA students)
    = map (fun s => ExtendedStudentOperations.gpa5 (gpa s)) students /\
  print_fixed 2 (ExtendedStudentOperations.gpa5 (calculateGPA p))
    = txt (if Ascii.eqb (calculateGrade p) "A" then "5.00"
           else if Ascii.eqb (calculateGrade p) "B" then "3.75"
           else if Ascii.eqb (calculateGrade p) "C" then "2.50"
           else if Ascii.eqb (calculateGrade p) "D" then "1.25"
           else "0.00") /\
  F64.mul (ExtendedStudentOperations.gpa5 (calculateGPA p)) (F64.of_Z 4)
    = F64.mul (F64.of_float (calculateGPA p)) (F64.of_Z 5).
Proof.
  unfold ExtendedStudentOperations.calculateGPA. rewrite !map_map. simpl.
  split; [reflexivity|]. split; [reflexivity|].
  unfold calculateGPA, calculateGrade.
  destruct (F32.geb p f90); [split; vm_compute; reflexivity|].
  destruct (F32.geb p f80); [split; vm_compute; reflexivity|].
  destruct (F32.geb p f70); [split; vm_compute; reflexivity|].
  destruct (F32.geb p f60); split; vm_compute; reflexivity.
Qed.

End GradeOrder.

(** ** Names with white space in the native store *)

Module SpacedName.

Import FileHandler.

Lemma roster_text_app (l1 l2 : list Student) :
  forall fx pr,
  roster_text fx pr (l1 ++ l2)
    = roster_text_then fx pr l1
        (match l1 with
         | [] => roster_text fx pr l2
         | _ => roster_text true 2 l2
         end).
Proof.
  induction l1 as [|s l1 IH]; intros fx pr; simpl; [reflexivity|].
  rewrite IH. destruct l1; reflexivity.
Qed.

Lemma roster_text_then_length (students : list Student) :
  forall fx pr k,
  (List.length k <= List.length (roster_text_then fx pr students k))%nat.
Proof.
  induction students as [|s l IH]; intros fx pr k; simpl; [lia|].
  pose proof (RoundTrip.record_text_length fx pr s (roster_text_then true 2 l k)).
  specialize (IH true 2 k). lia.
Qed.

(** Loading the text of storable records followed by anything: the
    records are read, and the loop goes on with what follows. *)
Lemma loadFromFile_loop_prefix (students : list Student) :
  forall (fx : bool) (pr : Z) (pre : text) (s0 : Student) (acc : list Student)
         (fuel : nat) (k : text),
  Forall separator pre -> storable_roster fx pr students ->
  percentage s0 = percentage default_Student ->
  grade s0 = grade default_Student ->
  (List.length (pre ++ roster_text_then fx pr students k) < fuel)%nat ->
  exists pre' s1 fuel',
    Forall separator pre' /\
    percentage s1 = percentage default_Student /\
    grade s1 = grade default_Student /\
    (List.length (pre' ++ k) < fuel')%nat /\
    loadFromFile_loop fuel (good_at (pre ++ roster_text_then fx pr students k))
                      s0 acc
      = loadFromFile_loop fuel' (good_at (pre' ++ k)) s1
          (acc ++ reloaded_roster fx pr students).
Proof.
  induction students as [|s students IH];
    intros fx pr pre s0 acc [|fuel] k Hpre Hst Hp Hg Hfuel; try lia.
  - exists pre, s0, (S fuel). simpl. rewrite app_nil_r. auto.
  - destruct Hst as [Hs Hrest].
    cbn [roster_text_then loadFromFile_loop reloaded_roster].
    rewrite (RoundTrip.read_header_text pre fx pr s s0) by auto.
    cbn [failbit good_at].
    destruct Hs as (Hn & Hc & Hge & Hr & Ha & Hcount & Hatts & Hm & Hgpa).
    rewrite (RoundTrip.get_int_next " "); auto using RoundTrip.separator_space.
    2:{ unfold in_int_range. apply andb_true_iff. split; apply Z.leb_le.
        - unfold int_min. lia.
        - exact Hcount. }
    replace (Z.of_nat (List.length (attendanceRecords s)) <? 0) with false
      by (symmetry; apply Z.ltb_ge; lia).
    cbn [attendanceRecords gpa name rollNo studentClass age gender marks
         percentage grade].
    rewrite RoundTrip.read_attendance_text;
      auto using RoundTrip.separator_space.
    2:{ rewrite RoundTrip.resize_length. apply Nat2Z.id. }
    rewrite (RoundTrip.extract_float_next " " true 2 (gpa s))
      by auto using RoundTrip.separator_space, RoundTrip.separator_newline.
    change ("010"%char :: roster_text_then true 2 students k)
      with (["010"%char] ++ roster_text_then true 2 students k).
    match goal with
    | |- context [loadFromFile_loop fuel _ ?s2 ?acc2] =>
        destruct (IH true 2 ["010"%char] s2 acc2 fuel k)
          as (pre' & s1 & fuel' & H1 & H2 & H3 & H4 & H5)
    end.
    + constructor; [right; reflexivity|constructor].
    + exact Hrest.
    + exact Hp.
    + exact Hg.
    + pose proof (RoundTrip.record_text_length fx pr s
                    (roster_text_then true 2 students k)) as Hl.
      cbn [roster_text_then] in Hfuel.
      rewrite length_app in Hfuel. rewrite length_app. cbn [List.length]. lia.
    + exists pre', s1, fuel'. repeat (split; [assumption|]).
      rewrite H5, <- app_assoc. unfold reloaded. cbn [app].
      rewrite Hp, Hg. reflexivity.
Qed.

(** A record whose second field cannot begin an integer: the leading
    fields cannot be read. *)
Lemma read_header_bad_roll (pre : text) (first : string) (w : ascii)
    (rest : text) (s0 : Student) :
  Forall separator pre -> token first = true -> starts_no_number w = true ->
  failbit (snd (read_header (good_at (pre ++ txt first ++ " "%char :: w :: rest))
                            s0)) = true.
Proof.
  intros Hpre Hf Hw. unfold starts_no_number in Hw.
  apply andb_true_iff in Hw. destruct Hw as [Hw Hsign].
  apply andb_true_iff in Hw. destruct Hw as [Hsp Hdig].
  apply negb_true_iff in Hsp, Hdig, Hsign.
  unfold read_header.
  rewrite (extract_string_field pre first) by (auto; left; reflexivity).
  assert (E : extract_int (good_at (" "%char :: w :: rest)) (rollNo s0)
              = (0, advanced (w :: rest) true)).
  { unfold extract_int, get_int.
    change (" "%char :: w :: rest) with ([" "%char] ++ w :: rest).
    rewrite (sentry_field [" "%char] w rest);
      [|constructor; [left; reflexivity|constructor]|exact Hsp].
    simpl buf. unfold scan_int. rewrite Hsign. simpl span. rewrite Hdig.
    reflexivity. }
  rewrite E.
  set (i2 := advanced (w :: rest) true).
  assert (F2 : failbit i2 = true) by reflexivity.
  pose proof (extract_string_consumes i2 (studentClass s0)) as [[_ H3] _].
  destruct (extract_string i2 (studentClass s0)) as [x3 i3]. simpl in H3.
  pose proof (extract_int_consumes i3 (age s0)) as [_ H4].
  destruct (extract_int i3 (age s0)) as [x4 i4]. simpl in H4.
  pose proof (extract_string_consumes i4 (gender s0)) as [[_ H5] _].
  destruct (extract_string i4 (gender s0)) as [x5 i5]. simpl in H5.
  pose proof (extract_float_consumes i5 (mark0 (marks s0))) as [_ H6].
  destruct (extract_float i5 (mark0 (marks s0))) as [x6 i6]. simpl in H6.
  pose proof (extract_float_consumes i6 (mark1 (marks s0))) as [_ H7].
  destruct (extract_float i6 (mark1 (marks s0))) as [x7 i7]. simpl in H7.
  pose proof (extract_float_consumes i7 (mark2 (marks s0))) as [_ H8].
  destruct (extract_float i7 (mark2 (marks s0))) as [x8 i8]. simpl in H8.
  pose proof (extract_float_consumes i8 (mark3 (marks s0))) as [_ H9].
  destruct (extract_float i8 (mark3 (marks s0))) as [x9 i9]. simpl in H9.
  pose proof (extract_float_consumes i9 (mark4 (marks s0))) as [_ H10].
  destruct (extract_float i9 (mark4 (marks s0))) as [x10 i10]. simpl in H10.
  simpl. auto 12.
Qed.

Lemma txt_app (a b : string) : txt (a ++ b) = txt a ++ txt b.
Proof.
  unfold txt. induction a as [|c a IH]; simpl; [reflexivity|].
  rewrite IH. reflexivity.
Qed.

Lemma loadFromFile_loop_bad_roll (fuel : nat) (pre : text) (first : string)
    (w : ascii) (rest : text) (s0 : Student) (acc : list Student) :
  Forall separator pre -> token first = true -> starts_no_number w = true ->
  loadFromFile_loop fuel (good_at (pre ++ txt first ++ " "%char :: w :: rest))
                    s0 acc = Loaded acc.
Proof.
  intros Hpre Hf Hw. destruct fuel as [|fuel]; [reflexivity|]. simpl.
  pose proof (read_header_bad_roll pre first w rest s0 Hpre Hf Hw) as H.
  destruct (read_header _ s0) as [s1 file]. simpl in H. rewrite H. reflexivity.
Qed.

(** X14.  A name with a blank in it breaks the native store.  When a
    record's name is made of a first word, a blank and a second part that
    does not begin with a digit or a sign, loading what was saved returns
    only the records saved before that record: the record itself and
    every record after it are lost, without any error. *)
Theorem load_stops_at_spaced_name (before after : list Student) (s : Student)
    (first rest : string) (w : ascii) :
  storable_roster false 6 before ->
  name s = (first ++ " " ++ String w rest)%string ->
  token first = true -> starts_no_number w = true ->
  loadFromFile (Some (saveToFile (before ++ s :: after)))
    = Loaded (reloaded_roster false 6 before).
Proof.
  intros Hst Hname Hf Hw. unfold loadFromFile.
  rewrite Save.saveToFile_text, roster_text_app.
  set (k := match before with
            | [] => roster_text false 6 (s :: after)
            | _ :: _ => roster_text true 2 (s :: after)
            end).
  assert (Hk : exists tail, k = txt first ++ " "%char :: w :: tail).
  { subst k. destruct before; cbn [roster_text]; unfold record_text;
      rewrite Hname, !txt_app; simpl; rewrite <- !app_assoc; simpl; eauto. }
  destruct Hk as [tail Hk].
  change (open_istream (Some (roster_text_then false 6 before k)))
    with (good_at ([] ++ roster_text_then false 6 before k)).
  cbn [buf good_at].
  destruct (loadFromFile_loop_prefix before false 6 [] default_Student []
              (S (List.length ([] ++ roster_text_then false 6 before k))) k)
    as (pre' & s1 & fuel' & H1 & H2 & H3 & H4 & H5); auto.
  simpl app in H5. simpl app. rewrite H5, Hk.
  apply loadFromFile_loop_bad_roll; auto.
Qed.

Lemma load_stops_at_spaced_name_witness :
  let a := stored_student "Al" 1 (marks_of 90 91 92 93 94) [] in
  let b := stored_student "Ann Lee" 2 (marks_of 80 81 82 83 84) [] in
  let c := stored_student "Bo" 3 (marks_of 70 71 72 73 74) [] in
  loadFromFile (Some (saveToFile [a; b; c])) = Loaded (reloaded_roster false 6 [a]).
Proof.
  intros a b c.
  apply (load_stops_at_spaced_name [a] [c] b "Ann" "ee" "L").
  - subst a. RoundTrip.by_evaluation.
  - reflexivity.
  - reflexivity.
  - reflexivity.
Defined.

End SpacedName.

(** ** The text of numbers *)

Lemma digit_char_mod (n : Z) : isdigit (digit_char (n mod 10)) = true.
Proof. apply digit_char_value. apply Z.mod_pos_bound. lia. Qed.

Lemma digits_fuel_digits (fuel : nat) (n : Z) (acc : text) :
  forallb isdigit acc = true -> forallb isdigit (digits_fuel fuel n acc) = true.
Proof.
  revert n acc. induction fuel as [|fuel IH]; intros n acc H; simpl; auto.
  assert (H' : forallb isdigit (digit_char (n mod 10) :: acc) = true)
    by (simpl; rewrite digit_char_mod, H; reflexivity).
  destruct (n <? 10); auto.
Qed.

Lemma pad_digits_digits (n : nat) (v : Z) (acc : text) :
  forallb isdigit acc = true -> forallb isdigit (pad_digits n v acc) = true.
Proof.
  revert v acc. induction n as [|n IH]; intros v acc H; simpl; auto.
  apply IH. simpl. rewrite digit_char_mod, H. reflexivity.
Qed.

Lemma print_unsigned_digits (n : Z) : forallb isdigit (print_unsigned n) = true.
Proof. apply digits_fuel_digits. reflexivity. Qed.

Lemma span_snd_forallb (p q : ascii -> bool) (t : text) :
  forallb q t = true -> forallb q (snd (span p t)) = true.
Proof.
  induction t as [|c t IH]; simpl; auto.
  intros H. apply andb_true_iff in H. destruct H as [Hc Ht].
  destruct (p c).
  - specialize (IH Ht). destruct (span p t). exact IH.
  - simpl. rewrite Hc, Ht. reflexivity.
Qed.

Lemma forallb_rev (q : ascii -> bool) (t : text) :
  forallb q (rev t) = forallb q t.
Proof.
  induction t as [|c t IH]; simpl; auto.
  rewrite forallb_app, IH. simpl. rewrite andb_true_r. apply andb_comm.
Qed.

Lemma strip_zeros_forallb (q : ascii -> bool) (frac : text) :
  forallb q frac = true -> forallb q (strip_zeros frac) = true.
Proof.
  intros H. unfold strip_zeros. rewrite forallb_rev.
  apply span_snd_forallb. rewrite forallb_rev. exact H.
Qed.

Lemma digits_number (t : text) :
  forallb isdigit t = true -> forallb number_char t = true.
Proof.
  intros H. rewrite forallb_forall in *. intros c Hc.
  unfold number_char. rewrite (H c Hc). reflexivity.
Qed.

Lemma with_fraction_number (a b : text) :
  forallb number_char a = true -> forallb number_char b = true ->
  forallb number_char (with_fraction a b) = true.
Proof.
  intros Ha Hb. unfold with_fraction. destruct b as [|c b]; [exact Ha|].
  rewrite forallb_app, Ha. simpl in *. exact Hb.
Qed.

Lemma sign_text_number (s : bool) : forallb number_char (sign_text s) = true.
Proof. destruct s; reflexivity. Qed.

Lemma print_fixed_number (P : Z) (x : float) :
  forallb number_char (print_fixed P x) = true.
Proof.
  destruct x as [s|s| |s m e]; simpl.
  - rewrite forallb_app, sign_text_number. simpl.
    apply with_fraction_number; [reflexivity|].
    apply digits_number, pad_digits_digits. reflexivity.
  - rewrite forallb_app, sign_text_number. reflexivity.
  - reflexivity.
  - rewrite forallb_app, sign_text_number. simpl.
    apply with_fraction_number; apply digits_number.
    + apply print_unsigned_digits.
    + apply pad_digits_digits. reflexivity.
Qed.

Lemma print_general_number (P : Z) (x : float) :
  forallb number_char (print_general P x) = true.
Proof.
  unfold print_general. destruct x as [s|s| |s m e].
  - rewrite forallb_app, sign_text_number. reflexivity.
  - rewrite forallb_app, sign_text_number. reflexivity.
  - reflexivity.
  - cbv zeta.
    destruct (if 10 ^ (if P =? 0 then 1 else P) <=? _ then _ else _) as [N X].
    rewrite forallb_app, sign_text_number. simpl andb.
    destruct ((X <? -4) || ((if P =? 0 then 1 else P) <=? X))%bool.
    + rewrite forallb_app. apply andb_true_iff. split.
      * apply with_fraction_number; apply digits_number.
        -- apply (pad_digits_digits 1). reflexivity.
        -- apply strip_zeros_forallb, pad_digits_digits. reflexivity.
      * cbn [forallb]. apply andb_true_iff. split; [reflexivity|].
        apply andb_true_iff. split; [destruct (X <? 0); reflexivity|].
        apply digits_number.
        destruct (Z.abs X <? 10);
          [apply (pad_digits_digits 2); reflexivity|apply print_unsigned_digits].
    + apply with_fraction_number; apply digits_number.
      * apply print_unsigned_digits.
      * apply strip_zeros_forallb, pad_digits_digits. reflexivity.
Qed.

Lemma print_float_number (fx : bool) (pr : Z) (x : float) :
  forallb number_char (print_float fx pr x) = true.
Proof.
  unfold print_float. destruct fx;
    [apply print_fixed_number|apply print_general_number].
Qed.

Lemma print_int_number (z : Z) : forallb number_char (print_int z) = true.
Proof.
  unfold print_int. destruct (z <? 0); simpl;
    apply digits_number, print_unsigned_digits.
Qed.

Lemma number_csv (t : text) :
  forallb number_char t = true -> forallb csv_char t = true.
Proof.
  intros H. rewrite forallb_forall in *. intros c Hc. specialize (H c Hc).
  unfold csv_char.
  destruct (Ascii.eqb c ",") eqn:E1;
    [apply Ascii.eqb_eq in E1; subst; discriminate H|].
  destruct (Ascii.eqb c "010") eqn:E2;
    [apply Ascii.eqb_eq in E2; subst; discriminate H|].
  reflexivity.
Qed.

(** ** Export to CSV and import of the exported file *)

Module CsvRoundTrip.

Import StudentOperations ExtendedStudentOperations.

Lemma getline_field (delim : ascii) (t rest : text) (old : string) :
  forallb (fun c => negb (Ascii.eqb c delim)) t = true ->
  getline delim (good_at (t ++ delim :: rest)) old
    = (string_of_list_ascii t, good_at rest).
Proof.
  intros Ht. unfold getline, good_at. simpl.
  rewrite span_stop by (auto; rewrite Ascii.eqb_refl; reflexivity).
  reflexivity.
Qed.

Lemma csv_no_comma (t : text) :
  forallb csv_char t = true ->
  forallb (fun c => negb (Ascii.eqb c ",")) t = true.
Proof.
  intros H. rewrite forallb_forall in *. intros c Hc. specialize (H c Hc).
  unfold csv_char in H. apply andb_true_iff in H. tauto.
Qed.

Lemma csv_no_newline (t : text) :
  forallb csv_char t = true ->
  forallb (fun c => negb (Ascii.eqb c "010")) t = true.
Proof.
  intros H. rewrite forallb_forall in *. intros c Hc. specialize (H c Hc).
  unfold csv_char in H. apply andb_true_iff in H. tauto.
Qed.

Lemma span_all (p : ascii -> bool) (t : text) :
  forallb p t = true -> span p t = (t, []).
Proof.
  induction t as [|c t IH]; simpl; [reflexivity|].
  intros H. apply andb_true_iff in H. destruct H as [Hc Ht].
  rewrite Hc, (IH Ht). reflexivity.
Qed.

Lemma scan_int_printed_end (z : Z) : scan_int (print_int z) = (Some z, []).
Proof.
  unfold scan_int, print_int. destruct (z <? 0) eqn:E.
  - apply Z.ltb_lt in E.
    destruct (print_unsigned_spec (- z) ltac:(lia)) as (H1 & H2 & H3).
    simpl. rewrite span_all by auto.
    destruct (print_unsigned (- z)); [congruence|]. rewrite H3.
    f_equal. f_equal. lia.
  - apply Z.ltb_ge in E.
    destruct (print_unsigned_spec z E) as (H1 & H2 & H3).
    destruct (print_unsigned z) as [|d ds] eqn:Hp; [congruence|].
    assert (Hs : is_sign d = false).
    { simpl in H2. apply andb_true_iff in H2. destruct H2 as [H2 _].
      unfold is_sign. apply orb_false_iff.
      split; apply Ascii.eqb_neq; intros ->; discriminate H2. }
    rewrite Hs, span_all by auto. rewrite H3. reflexivity.
Qed.

Lemma stoi_printed (z : Z) :
  in_int_range z = true -> stoi (string_of_list_ascii (print_int z)) = inr z.
Proof.
  intros Hz. unfold stoi, txt. rewrite list_ascii_of_string_of_list_ascii.
  destruct (print_int_head z) as (c & t & Ht & Hc).
  rewrite Ht, skipws_nonspace, <- Ht, scan_int_printed_end by exact Hc.
  unfold in_int_range in Hz. apply andb_true_iff in Hz. destruct Hz as [H1 H2].
  apply Z.leb_le in H1, H2.
  replace (z <? int_min) with false by (symmetry; apply Z.ltb_ge; lia).
  replace (int_max <? z) with false by (symmetry; apply Z.ltb_ge; lia).
  reflexivity.
Qed.

Lemma csv_value_inr (fx : bool) (pr : Z) (x v : float) :
  csv_value fx pr x = inr v -> csv_value_or fx pr x = v.
Proof. unfold csv_value_or. intros ->. reflexivity. Qed.

Lemma getline_next (t rest : text) (old : string) :
  forallb csv_char t = true ->
  getline "," (good_at (t ++ ","%char :: rest)) old
    = (string_of_list_ascii t, good_at rest).
Proof. intros H. apply getline_field, csv_no_comma, H. Qed.

(** The row written for a record is parsed back. *)
Lemma parse_row_fields (fx : bool) (pr : Z) (s : Student) :
  csv_record fx pr s ->
  parse_row (string_of_list_ascii (row_fields fx pr s))
    = inr (as_imported fx pr s).
Proof.
  intros (Hn & Hc & Hg & Hgr & Hr & Ha & [vp Hp] & [vg Hgpa]).
  unfold parse_row, txt. rewrite list_ascii_of_string_of_list_ascii.
  unfold row_fields.
  change (open_istream (Some ?t)) with (good_at t).
  rewrite getline_next by apply number_csv, print_int_number.
  rewrite (stoi_printed _ Hr). cbn [bind].
  rewrite getline_next by exact Hn.
  rewrite getline_next by exact Hc.
  rewrite getline_next by apply number_csv, print_int_number.
  rewrite (stoi_printed _ Ha). cbn [bind].
  rewrite getline_next by exact Hg.
  rewrite getline_next by apply number_csv, print_float_number.
  fold (csv_value fx pr (percentage s)). rewrite Hp. cbn [bind].
  change (grade s :: ","%char :: ?r) with ([grade s] ++ ","%char :: r).
  rewrite getline_next by (simpl; rewrite Hgr; reflexivity).
  rewrite getline_next by apply number_csv, print_float_number.
  fold (csv_value true 2 (gpa s)). rewrite Hgpa. cbn [bind].
  unfold as_imported, txt.
  rewrite !string_of_list_ascii_of_string.
  rewrite (csv_value_inr _ _ _ _ Hp), (csv_value_inr _ _ _ _ Hgpa).
  reflexivity.
Qed.

Lemma row_fields_no_newline (fx : bool) (pr : Z) (s : Student) :
  csv_record fx pr s ->
  forallb (fun c => negb (Ascii.eqb c "010")) (row_fields fx pr s) = true.
Proof.
  intros (Hn & Hc & Hg & Hgr & _).
  unfold row_fields.
  repeat (rewrite forallb_app || cbn [forallb]).
  unfold csv_field in *.
  rewrite (csv_no_newline _ Hn), (csv_no_newline _ Hc), (csv_no_newline _ Hg).
  rewrite !(csv_no_newline _ (number_csv _ (print_int_number _))).
  rewrite !(csv_no_newline _ (number_csv _ (print_float_number _ _ _))).
  unfold csv_char in Hgr. apply andb_true_iff in Hgr. destruct Hgr as [_ ->].
  reflexivity.
Qed.

Section Loop.

Variable calc : IGradeCalculator.t.

Lemma importFromCSV_loop_rows (students : list Student) :
  forall (fx : bool) (pr : Z) (fuel : nat) (line : string) (acc : list Student),
  csv_roster fx pr students -> (List.length students < fuel)%nat ->
  importFromCSV_loop calc fuel (good_at (rows_text fx pr students)) line acc
    = {| imported := acc ++ imported_roster fx pr students;
         import_raised := None |}.
Proof.
  induction students as [|s l IH]; intros fx pr [|fuel] line acc Hst Hfuel;
    simpl in Hfuel; try lia.
  - simpl. rewrite app_nil_r. reflexivity.
  - destruct Hst as [Hs Hl]. cbn [rows_text importFromCSV_loop].
    rewrite getline_field by (apply row_fields_no_newline; exact Hs).
    cbn [failbit good_at].
    rewrite (parse_row_fields fx pr s Hs).
    rewrite IH by (auto; lia).
    rewrite <- app_assoc. reflexivity.
Qed.

End Loop.

(** One row appends its text and leaves the stream in fixed notation
    with precision 2. *)
Lemma export_student_text (s : Student) (os : ostream) :
  written (CSVExporter.export_student s os)
    = written os ++ row_fields (fixed os) (precision os) s ++ ["010"%char] /\
  fixed (CSVExporter.export_student s os) = true /\
  precision (CSVExporter.export_student s os) = 2.
Proof.
  destruct os as [w fx pr]. unfold CSVExporter.export_student.
  split; [|split; reflexivity].
  cbn -[print_float print_int txt app CSVExporter.calculateAttendancePercentage].
  unfold row_fields, CSVExporter.comma, FileHandler.newline.
  repeat (rewrite <- app_assoc; cbn [app]). reflexivity.
Qed.

Lemma exportData_loop_text (students : list Student) (os : ostream) :
  written (fold_left (fun file s => CSVExporter.export_student s file)
                     students os)
    = written os ++ rows_text (fixed os) (precision os) students.
Proof.
  revert os. induction students as [|s students IH]; intros os; simpl.
  - rewrite app_nil_r. reflexivity.
  - destruct (export_student_text s os) as (H1 & H2 & H3).
    rewrite IH, H1, H2, H3. repeat (rewrite <- app_assoc; cbn [app]).
    reflexivity.
Qed.

(** The file written by [exportData]. *)
Lemma exportData_text (students : list Student) :
  CSVExporter.exportData students
    = CSVExporter.header ++ rows_text false 6 students.
Proof. unfold CSVExporter.exportData. rewrite exportData_loop_text. reflexivity. Qed.

Lemma rows_text_length (students : list Student) :
  forall fx pr,
  (List.length students <= List.length (rows_text fx pr students))%nat.
Proof.
  induction students as [|s l IH]; intros fx pr; simpl; [lia|].
  rewrite length_app. simpl. specialize (IH true 2). lia.
Qed.

Lemma imported_roster_fields (students : list Student) :
  forall fx pr,
  map rollNo (imported_roster fx pr students) = map rollNo students /\
  map name (imported_roster fx pr students) = map name students /\
  map studentClass (imported_roster fx pr students) = map studentClass students /\
  map age (imported_roster fx pr students) = map age students /\
  map gender (imported_roster fx pr students) = map gender students /\
  map grade (imported_roster fx pr students) = map grade students /\
  Forall (fun s => marks s = zero_marks /\ attendanceRecords s = [])
         (imported_roster fx pr students).
Proof.
  induction students as [|s l IH]; intros fx pr; simpl.
  - repeat split; constructor.
  - destruct (IH true 2) as (H1 & H2 & H3 & H4 & H5 & H6 & H7).
    rewrite H1, H2, H3, H4, H5, H6. repeat split. constructor; auto.
Qed.

(** X15.  Importing the file that [exportData] wrote appends one record
    for each record exported, in the same order, with the same roll number,
    name, class, age, gender and grade, when no name, class, gender or
    grade contains a comma or a line feed, the integers are within [int]
    and the texts written for the percentage and the GPA are accepted by
    [stof].  The marks and the attendance are not carried over: every
    imported record has five zero marks and an empty ledger.  Names with
    blanks survive. *)
Theorem export_then_import (calc : IGradeCalculator.t)
    (exported students : list Student) :
  csv_roster false 6 exported ->
  let result := importFromCSV calc (Some (CSVExporter.exportData exported))
                              students in
  import_raised result = None /\
  imported result = students ++ imported_roster false 6 exported /\
  map rollNo (imported_roster false 6 exported) = map rollNo exported /\
  map name (imported_roster false 6 exported) = map name exported /\
  map studentClass (imported_roster false 6 exported)
    = map studentClass exported /\
  map age (imported_roster false 6 exported) = map age exported /\
  map gender (imported_roster false 6 exported) = map gender exported /\
  map grade (imported_roster false 6 exported) = map grade exported /\
  Forall (fun s => marks s = zero_marks /\ attendanceRecords s = [])
         (imported_roster false 6 exported).
Proof.
  intros Hst result.
  assert (E : result = {| imported := students ++ imported_roster false 6 exported;
                          import_raised := None |}).
  { subst result. unfold importFromCSV. rewrite exportData_text.
    unfold CSVExporter.header, FileHandler.newline.
    rewrite <- app_assoc. cbn [app].
    change (open_istream (Some ?t)) with (good_at t).
    rewrite getline_field by reflexivity.
    apply importFromCSV_loop_rows; [exact Hst|].
    cbn [buf good_at]. pose proof (rows_text_length exported false 6). lia. }
  rewrite E. cbn [imported import_raised].
  split; [reflexivity|]. split; [reflexivity|].
  apply imported_roster_fields.
Qed.

Lemma export_then_import_witness :
  let a := stored_student "Ann Lee" 1 (marks_of 90 91 92 93 94)
             [{| date := "2024-01-02"; status := "Present" |}] in
  let b := stored_student "Bo" (-2) (marks_of 50 60 70 80 90) [] in
  exists a' b',
    importFromCSV gradeCalc (Some (CSVExporter.exportData [a; b])) []
      = {| imported := [a'; b']; import_raised := None |} /\
    name a' = "Ann Lee"%string /\ rollNo b' = -2 /\
    marks a' = zero_marks /\ attendanceRecords a' = [].
Proof.
  intros a b.
  assert (Hst : csv_roster false 6 [a; b]).
  { subst a b. repeat split; try reflexivity;
      eexists; vm_compute; reflexivity. }
  destruct (export_then_import gradeCalc [a; b] [] Hst)
    as (H1 & H2 & _).
  exists (as_imported false 6 a), (as_imported true 2 b).
  split.
  - destruct (importFromCSV gradeCalc (Some (CSVExporter.exportData [a; b])) [])
      as [imp r]. simpl in H1, H2. subst. reflexivity.
  - repeat split.
Defined.

Section Errors.

Variable calc : IGradeCalculator.t.

(** Rows that parse, followed by anything: the rows are imported and the
    loop goes on with what follows. *)
Lemma importFromCSV_loop_prefix (students : list Student) :
  forall (fx : bool) (pr : Z) (fuel : nat) (line : string) (acc : list Student)
         (k : text),
  csv_roster fx pr students ->
  exists line',
    importFromCSV_loop calc (List.length students + fuel)
                       (good_at (rows_text fx pr students ++ k)) line acc
      = importFromCSV_loop calc fuel (good_at k) line'
          (acc ++ imported_roster fx pr students).
Proof.
  induction students as [|s l IH]; intros fx pr fuel line acc k Hst.
  - exists line. simpl. rewrite app_nil_r. reflexivity.
  - destruct Hst as [Hs Hl].
    cbn [rows_text List.length Nat.add importFromCSV_loop].
    rewrite <- app_assoc. cbn [app].
    rewrite getline_field by (apply row_fields_no_newline; exact Hs).
    cbn [failbit good_at].
    rewrite (parse_row_fields fx pr s Hs).
    destruct (IH true 2 fuel (string_of_list_ascii (row_fields fx pr s))
                 (acc ++ [as_imported fx pr s]) k Hl) as [line' E].
    exists line'. rewrite E, <- app_assoc. reflexivity.
Qed.

(** X16.  The import stops at the first row that cannot be parsed: the
    exception raised by [stoi] or [stof] for that row leaves
    [importFromCSV], the records of the rows before it are already in the
    roster and stay there, and the rows after it are not read.  An empty
    line is such a row: it raises [invalid_argument]. *)
Theorem import_stops_at_bad_row (good students : list Student) (bad rest : text)
    (e : exception) :
  csv_roster false 6 good ->
  forallb (fun c => negb (Ascii.eqb c "010")) bad = true ->
  parse_row (string_of_list_ascii bad) = inl e ->
  importFromCSV calc
    (Some (CSVExporter.exportData good ++ bad ++ "010"%char :: rest)) students
    = {| imported := students ++ imported_roster false 6 good;
         import_raised := Some e |}.
Proof.
  intros Hst Hbad He. unfold importFromCSV. rewrite exportData_text.
  unfold CSVExporter.header, FileHandler.newline.
  repeat (rewrite <- app_assoc; cbn [app]).
  change (open_istream (Some ?t)) with (good_at t).
  rewrite getline_field by reflexivity.
  cbn [buf good_at].
  set (k := bad ++ "010"%char :: rest).
  set (fuel := S (List.length (rows_text false 6 good ++ k))).
  assert (Hfuel : exists extra,
            fuel = (List.length good + S extra)%nat).
  { subst fuel. rewrite length_app.
    pose proof (rows_text_length good false 6) as Hl.
    exists (List.length (rows_text false 6 good) - List.length good
            + List.length k)%nat. lia. }
  destruct Hfuel as [extra ->].
  match goal with
  | |- importFromCSV_loop _ _ _ ?l _ = _ =>
      destruct (importFromCSV_loop_prefix good false 6 (S extra) l students k Hst)
        as [line' E]
  end.
  rewrite E. subst k. cbn [importFromCSV_loop].
  rewrite getline_field by exact Hbad. cbn [failbit good_at].
  rewrite He. reflexivity.
Qed.

End Errors.

Lemma import_stops_at_bad_row_witness :
  let a := stored_student "Ann" 1 (marks_of 90 91 92 93 94) [] in
  importFromCSV gradeCalc
    (Some (CSVExporter.exportData [a] ++ "010"%char :: txt "2,Bo,X,15,F,50,F,0.00,0.00%"))
    []
    = {| imported := [as_imported false 6 a];
         import_raised := Some invalid_argument |}.
Proof.
  intros a.
  apply (import_stops_at_bad_row gradeCalc [a] [] []
           (txt "2,Bo,X,15,F,50,F,0.00,0.00%") invalid_argument).
  - subst a. repeat split; try reflexivity; eexists; vm_compute; reflexivity.
  - reflexivity.
  - reflexivity.
Defined.

Lemma getline_last (t : text) (old : string) :
  forallb (fun c => negb (Ascii.eqb c ",")) t = true ->
  exists failed,
    getline "," (good_at t) old
      = (string_of_list_ascii t,
         {| buf := []; eofbit := true; failbit := failed |}).
Proof.
  intros Ht. unfold getline, good_at. simpl. rewrite span_all by exact Ht.
  eauto.
Qed.

Lemma getline_at_end (failed : bool) (old : string) :
  getline "," {| buf := []; eofbit := true; failbit := failed |} old
    = (old, {| buf := []; eofbit := true; failbit := true |}).
Proof. reflexivity. Qed.

(** X17.  A row that ends after the gender column is not rejected.  The
    three reads that find nothing leave the text of the age in place, so
    the record gets the age as its percentage and as its GPA, and the
    first character of the age as its grade. *)
Theorem short_row_reuses_age (roll age' : Z) (name' class' gender' : string) :
  in_int_range roll = true -> in_int_range age' = true ->
  csv_field name' = true -> csv_field class' = true ->
  csv_field gender' = true ->
  parse_row (string_of_list_ascii
               (print_int roll ++ ","%char :: txt name' ++ ","%char
                :: txt class' ++ ","%char :: print_int age' ++ ","%char
                :: txt gender'))
    = match stof (string_of_list_ascii (print_int age')) with
      | inl e => inl e
      | inr v =>
          inr {| name := name'; rollNo := roll; studentClass := class';
                 age := age'; gender := gender'; marks := zero_marks;
                 percentage := v;
                 grade := match print_int age' with
                          | c :: _ => c
                          | [] => zero
                          end;
                 attendanceRecords := []; gpa := v |}
      end.
Proof.
  intros Hr Ha Hn Hc Hg.
  unfold parse_row, txt at 1. rewrite list_ascii_of_string_of_list_ascii.
  change (open_istream (Some ?t)) with (good_at t).
  rewrite getline_next by apply number_csv, print_int_number.
  rewrite (stoi_printed _ Hr). cbn [bind].
  rewrite getline_next by exact Hn.
  rewrite getline_next by exact Hc.
  rewrite getline_next by apply number_csv, print_int_number.
  rewrite (stoi_printed _ Ha). cbn [bind].
  destruct (getline_last (txt gender') (gender default_Student))
    as [failed ->]; [apply csv_no_comma; exact Hg|].
  rewrite !getline_at_end.
  destruct (stof (string_of_list_ascii (print_int age'))) as [e|v];
    cbn [bind]; [reflexivity|].
  unfold txt. rewrite !string_of_list_ascii_of_string.
  destruct (print_int age') as [|c t]; reflexivity.
Qed.

Lemma short_row_reuses_age_witness :
  exists s,
    parse_row "7,Ann Lee,X,15,F" = inr s /\
    percentage s = f15 /\ grade s = "1"%char /\ gpa s = f15.
Proof.
  pose proof (short_row_reuses_age 7 15 "Ann Lee" "X" "F"
                eq_refl eq_refl eq_refl eq_refl eq_refl) as H.
  eexists. split; [exact H|]. repeat split.
Defined.

End CsvRoundTrip.

(** ** Saving and loading through the operations *)

Module Reload.

Import FileHandler StudentOperations.

Section Strategy.

Variable strategy : IGradeStrategy.t.

Lemma calculateGrade_reloaded (fx : bool) (pr : Z) (s s' : Student) :
  underived s = underived s' ->
  GradeCalculator.calculateGrade strategy (reloaded fx pr s)
    = GradeCalculator.calculateGrade strategy (reloaded fx pr s').
Proof.
  intros H. unfold underived in H. inversion H.
  unfold GradeCalculator.calculateGrade, reloaded. simpl. congruence.
Qed.

Lemma calculateGrade_reloaded_roster (students : list Student) :
  forall students' fx pr,
  map underived students = map underived students' ->
  map (GradeCalculator.calculateGrade strategy) (reloaded_roster fx pr students)
    = map (GradeCalculator.calculateGrade strategy)
          (reloaded_roster fx pr students').
Proof.
  induction students as [|s l IH]; intros [|s' l'] fx pr H; simpl in *;
    try discriminate; [reflexivity|].
  assert (Hs : underived s = underived s') by congruence.
  assert (Hl : map underived l = map underived l') by congruence.
  f_equal.
  - apply calculateGrade_reloaded. exact Hs.
  - apply IH. exact Hl.
Qed.

(** X18.  [saveData] followed by [loadData] gives one record for each
    record of a storable roster, with the same name, roll number, class,
    age, gender and attendance, and with the marks read back from their
    text.  The percentage, the grade and the GPA of every loaded record
    are computed from the loaded marks: the GPA found in the file and the
    derived fields the records had when they were saved have no influence
    on what is loaded. *)
Theorem saveData_then_loadData (students : list Student) :
  storable_roster false 6 students ->
  exists loaded,
    loadData (GradeCalculator.make strategy) (Some (saveData students))
      = Loaded loaded /\
    map name loaded = map name students /\
    map rollNo loaded = map rollNo students /\
    map studentClass loaded = map studentClass students /\
    map age loaded = map age students /\
    map gender loaded = map gender students /\
    map attendanceRecords loaded = map attendanceRecords students /\
    map marks loaded = map marks (reloaded_roster false 6 students) /\
    Forall (consistent strategy) loaded /\
    (forall students',
       storable_roster false 6 students' ->
       map underived students' = map underived students ->
       loadData (GradeCalculator.make strategy) (Some (saveData students'))
         = Loaded loaded).
Proof.
  intros Hst.
  assert (E : forall l, storable_roster false 6 l ->
            loadData (GradeCalculator.make strategy) (Some (saveData l))
              = Loaded (map (GradeCalculator.calculateGrade strategy)
                            (reloaded_roster false 6 l))).
  { intros l Hl. unfold loadData, saveData, loadFromFile.
    rewrite Save.saveToFile_text.
    rewrite (RoundTrip.loadFromFile_loop_text l false 6 [] default_Student [])
      by auto.
    reflexivity. }
  exists (map (GradeCalculator.calculateGrade strategy)
              (reloaded_roster false 6 students)).
  split; [apply E; exact Hst|].
  pose proof (RoundTrip.reloaded_roster_fields students false 6)
    as (H1 & H2 & H3 & H4 & H5 & H6).
  rewrite !map_map.
  cbn [GradeCalculator.calculateGrade name rollNo studentClass age gender
       attendanceRecords marks].
  repeat (split; [assumption|]). split; [reflexivity|]. split.
  - apply Forall_forall. intros s Hs. apply in_map_iff in Hs.
    destruct Hs as (s0 & <- & _). apply Derived.calculateGrade_consistent.
  - intros students' Hst' Hu. rewrite (E students' Hst'). f_equal.
    apply calculateGrade_reloaded_roster. exact Hu.
Qed.

(** X20.  Every operation on the roster other than the CSV import keeps
    the derived fields in agreement with the marks: when they agree in
    every record before [addStudent], [updateStudent], [enterMarks],
    [deleteStudent], [sortStudents] or [markAttendance], they agree in
    every record afterwards. *)
Theorem operations_keep_consistency (students : list Student) :
  Forall (consistent strategy) students ->
  (forall name' roll class' age' gender',
     Forall (consistent strategy)
       (fst (addStudent (GradeCalculator.make strategy)
               name' roll class' age' gender' students))) /\
  (forall roll name' class' age' gender',
     Forall (consistent strategy)
       (fst (updateStudent (GradeCalculator.make strategy)
               roll name' class' age' gender' students))) /\
  (forall roll m,
     Forall (consistent strategy)
       (fst (ExtendedStudentOperations.enterMarks
               (GradeCalculator.make strategy) roll m students))) /\
  (forall roll,
     Forall (consistent strategy) (fst (deleteStudent roll students))) /\
  (forall std_sort,
     conforming std_sort ->
     Forall (consistent strategy) (fst (sortStudents std_sort students))) /\
  (forall date' answer,
     Forall (consistent strategy)
       (ExtendedStudentOperations.markAttendance date' answer students)).
Proof.
  intros H. repeat split.
  - intros. apply Derived.addStudent_consistent. exact H.
  - intros. apply Derived.updateStudent_consistent. exact H.
  - intros. apply Derived.enterMarks_consistent. exact H.
  - intros roll. rewrite (proj1 (Search.deleteStudent_spec roll students)).
    apply Forall_forall. intros s Hs. apply filter_In in Hs.
    rewrite Forall_forall in H. apply H. tauto.
  - intros std_sort Hsort. unfold sortStudents. simpl.
    eapply Permutation_Forall; [|exact H].
    apply (Hsort Student by_roll students Sorting.by_roll_strict_weak_ordering).
  - intros date' answer. apply Forall_forall. intros s' Hs'.
    apply In_nth_error in Hs'. destruct Hs' as [i Hi].
    assert (Hlt : (i < List.length students)%nat).
    { rewrite <- (Ledger.markAttendance_from_length 0 date' answer students).
      apply nth_error_Some. unfold ExtendedStudentOperations.markAttendance in Hi.
      congruence. }
    destruct (nth_error students i) as [s|] eqn:Es;
      [|apply nth_error_None in Es; lia].
    unfold ExtendedStudentOperations.markAttendance in Hi.
    rewrite (Ledger.markAttendance_from_nth students 0 i date' answer s Es) in Hi.
    inversion Hi; subst.
    rewrite Forall_forall in H. apply (H s). eapply nth_error_In; eauto.
Qed.

End Strategy.

Lemma saveData_then_loadData_witness :
  let roster :=
    [stored_student "Al" 1 (marks_of 90 91 92 93 94)
       [{| date := "2024-01-02"; status := "Present" |}];
     stored_student "Bo" 2 (marks_of 50 60 70 80 90) []] in
  exists loaded,
    loadData gradeCalc (Some (saveData roster)) = Loaded loaded /\
    map name loaded = map name roster /\
    Forall (consistent DefaultGradeStrategy.strategy) loaded.
Proof.
  intros roster.
  destruct (saveData_then_loadData DefaultGradeStrategy.strategy roster)
    as (loaded & H0 & H1 & _ & _ & _ & _ & _ & _ & H8 & _).
  - subst roster. RoundTrip.by_evaluation.
  - exists loaded. auto.
Defined.

Lemma operations_keep_consistency_witness :
  let roster := [example_student "A" 2 "X" 70; example_student "B" 1 "X" 85] in
  Forall (consistent DefaultGradeStrategy.strategy)
    (fst (ExtendedStudentOperations.enterMarks gradeCalc 2
            (marks_of 10 20 30 40 50) roster)) /\
  Forall (consistent DefaultGradeStrategy.strategy)
    (fst (sortStudents Libstdcxx.sort roster)).
Proof.
  intros roster.
  pose proof (operations_keep_consistency DefaultGradeStrategy.strategy roster
                ltac:(repeat constructor; reflexivity))
    as (_ & _ & Hmarks & _ & Hsort & _).
  split; [apply Hmarks|].
  apply Hsort. exact GnuSort.sort_conforming.
Defined.

End Reload.

(** ** The grade distribution of a class *)

Module Distribution.

Import StudentOperations ExtendedStudentOperations.

Lemma char_value_inj (a b : ascii) : char_value a = char_value b -> a = b.
Proof.
  unfold char_value. intros H.
  pose proof (nat_ascii_bounded a) as Ha. pose proof (nat_ascii_bounded b) as Hb.
  assert (E : nat_of_ascii a = nat_of_ascii b).
  { destruct (Z.of_nat (nat_of_ascii a) <? 128) eqn:Ea;
      destruct (Z.of_nat (nat_of_ascii b) <? 128) eqn:Eb;
      try apply Z.ltb_lt in Ea; try apply Z.ltb_lt in Eb;
      try apply Z.ltb_ge in Ea; try apply Z.ltb_ge in Eb; lia. }
  rewrite <- (ascii_nat_embedding a), <- (ascii_nat_embedding b), E.
  reflexivity.
Qed.

Lemma count_of_cons (g k : ascii) (n : Z) (m : list (ascii * Z)) :
  count_of g ((k, n) :: m) = if Ascii.eqb k g then n else count_of g m.
Proof. unfold count_of. simpl. destruct (Ascii.eqb k g); reflexivity. Qed.

Lemma count_of_smaller (k : ascii) (m : list (ascii * Z)) :
  Forall (fun kv => char_value k < char_value (fst kv)) m -> count_of k m = 0.
Proof.
  induction 1 as [|[k' n] m Hk _ IH]; [reflexivity|].
  rewrite count_of_cons. simpl in Hk.
  destruct (Ascii.eqb k' k) eqn:E; [|exact IH].
  apply Ascii.eqb_eq in E. subst. lia.
Qed.

Lemma map_increment_spec (k : ascii) (m : list (ascii * Z)) :
  keys_ascending m -> Forall (fun kv => 0 < snd kv) m ->
  keys_ascending (map_increment k m) /\
  Forall (fun kv => 0 < snd kv) (map_increment k m) /\
  total_count (map_increment k m) = total_count m + 1 /\
  (forall g, count_of g (map_increment k m)
             = count_of g m + (if Ascii.eqb k g then 1 else 0)) /\
  (forall b, Forall (fun kv => b < char_value (fst kv)) m -> b < char_value k ->
             Forall (fun kv => b < char_value (fst kv)) (map_increment k m)).
Proof.
  intros Hs Hp. induction m as [|[k' n] r IH]; cbn [map_increment].
  - repeat split.
    + constructor; constructor.
    + constructor; [simpl; lia|constructor].
    + intros g. rewrite count_of_cons. destruct (Ascii.eqb k g); reflexivity.
    + intros b _ Hb. constructor; [exact Hb|constructor].
  - inversion Hs as [|? ? Hr Hk']; subst. inversion Hp as [|? ? Hn Hpr]; subst.
    simpl in Hn.
    assert (Hall : char_value k < char_value k' ->
                   Forall (fun kv => char_value k < char_value (fst kv))
                          ((k', n) :: r)).
    { intros Hlt. constructor; [exact Hlt|].
      eapply Forall_impl; [|exact Hk']. simpl. intros; lia. }
    destruct (char_value k <? char_value k') eqn:Elt.
    + apply Z.ltb_lt in Elt. specialize (Hall Elt). repeat split.
      * constructor; [exact Hs|exact Hall].
      * constructor; [simpl; lia|exact Hp].
      * unfold total_count. cbn [fold_right snd]. lia.
      * intros g. rewrite (count_of_cons g k).
        destruct (Ascii.eqb k g) eqn:E; [|lia].
        apply Ascii.eqb_eq in E. subst g.
        rewrite (count_of_smaller k _ Hall). reflexivity.
      * intros b Hb Hbk. constructor; [exact Hbk|exact Hb].
    + apply Z.ltb_ge in Elt.
      destruct (char_value k =? char_value k') eqn:Eeq.
      * apply Z.eqb_eq, char_value_inj in Eeq. subst k'. repeat split.
        -- constructor; [exact Hr|exact Hk'].
        -- constructor; [simpl; lia|exact Hpr].
        -- unfold total_count. cbn [fold_right snd]. lia.
        -- intros g. rewrite !count_of_cons.
           destruct (Ascii.eqb k g); lia.
        -- intros b Hb _. inversion Hb; subst. constructor; assumption.
      * apply Z.eqb_neq in Eeq.
        destruct (IH Hr Hpr) as (I1 & I2 & I3 & I4 & I5). repeat split.
        -- constructor; [exact I1|]. apply I5; [exact Hk'|simpl; lia].
        -- constructor; [exact Hn|exact I2].
        -- unfold total_count in *. cbn [fold_right snd]. rewrite I3. lia.
        -- intros g. rewrite !count_of_cons.
           destruct (Ascii.eqb k' g) eqn:E.
           ++ apply Ascii.eqb_eq in E. subst g.
              replace (Ascii.eqb k k') with false; [lia|].
              symmetry. apply Ascii.eqb_neq. intros ->. lia.
           ++ apply I4.
        -- intros b Hb Hbk. inversion Hb; subst.
           constructor; [assumption|]. apply I5; assumption.
Qed.

Lemma grade_counts (l : list Student) :
  forall m,
  keys_ascending m -> Forall (fun kv => 0 < snd kv) m ->
  let m' := fold_left (fun g s => map_increment (grade s) g) l m in
  keys_ascending m' /\ Forall (fun kv => 0 < snd kv) m' /\
  total_count m' = total_count m + Z.of_nat (List.length l) /\
  forall g, count_of g m'
            = count_of g m
              + Z.of_nat (List.length
                            (filter (fun s => Ascii.eqb (grade s) g) l)).
Proof.
  induction l as [|s l IH]; intros m Hs Hp; simpl.
  - repeat split; auto; intros; lia.
  - destruct (map_increment_spec (grade s) m Hs Hp) as (M1 & M2 & M3 & M4 & _).
    destruct (IH _ M1 M2) as (I1 & I2 & I3 & I4).
    repeat split; auto.
    + rewrite I3, M3. lia.
    + intros g. rewrite I4, M4.
      destruct (Ascii.eqb (grade s) g); simpl List.length; lia.
Qed.

(** X19.  The grade distribution that [showStatistics] reports for a
    class lists each grade present in the class once, in increasing order
    of the character; the number given for a grade is the number of
    students of the class with that grade, so every number is positive
    and the numbers add up to the number of students of the class. *)
Theorem showStatistics_grade_distribution (cls : string)
    (students : list Student) (st : ClassStatistics) :
  showStatistics cls students = inr st ->
  keys_ascending (gradeCount st) /\
  Forall (fun kv => 0 < snd kv) (gradeCount st) /\
  total_count (gradeCount st) = count st /\
  (forall g,
     count_of g (gradeCount st)
       = Z.of_nat (List.length
                     (filter (fun s => (in_class cls s
                                        && Ascii.eqb (grade s) g)%bool)
                             students))).
Proof.
  unfold showStatistics.
  destruct (filter (in_class cls) students) as [|s l] eqn:E; [discriminate|].
  rewrite Statistics.accumulate_folds. intros H. inversion H; subst; clear H.
  cbn [gradeCount count].
  destruct (grade_counts (s :: l) [] ltac:(constructor) ltac:(constructor))
    as (H1 & H2 & H3 & H4).
  repeat split; auto.
  intros g. rewrite H4. change (count_of g []) with 0.
  rewrite Z.add_0_l. f_equal. rewrite <- E. clear.
  induction students as [|x xs IH]; simpl; [reflexivity|].
  destruct (in_class cls x); simpl; [|exact IH].
  destruct (Ascii.eqb (grade x) g); simpl; rewrite IH; reflexivity.
Qed.

Lemma showStatistics_grade_distribution_witness :
  exists st,
    showStatistics "X" [example_student "A" 1 "X" 90;
                        example_student "B" 2 "X" 50;
                        example_student "C" 3 "Y" 100;
                        example_student "D" 4 "X" 95] = inr st /\
    count_of "A" (gradeCount st) = 2 /\ total_count (gradeCount st) = 3.
Proof.
  eexists. split; [vm_compute; reflexivity|].
  match goal with
  | |- count_of _ (gradeCount ?st) = _ /\ _ =>
      destruct (showStatistics_grade_distribution "X"
                  [example_student "A" 1 "X" 90; example_student "B" 2 "X" 50;
                   example_student "C" 3 "Y" 100; example_student "D" 4 "X" 95]
                  st ltac:(vm_compute; reflexivity)) as (_ & _ & H3 & H4)
  end.
  split; [rewrite H4; reflexivity|rewrite H3; reflexivity].
Defined.

End Distribution.

(** ** Imported records across a restart *)

Module ImportThenReload.

Import FileHandler StudentOperations ExtendedStudentOperations.

Lemma imported_zero_marks (calc : IGradeCalculator.t) (content : option text) :
  Forall (fun s => marks s = zero_marks)
         (imported (importFromCSV calc content [])).
Proof.
  destruct content as [t|]; unfold importFromCSV; [|constructor].
  destruct (getline "010" (open_istream (Some t)) "") as [line file].
  destruct (CsvImport.importFromCSV_loop_appends calc
              (S (List.length (buf file))) file line []) as (new & H1 & H2).
  rewrite H1. simpl. eapply Forall_impl; [|exact H2].
  intros s [l Hl]. apply (CsvImport.parse_row_marks l s Hl).
Qed.

Lemma reloaded_zero_marks (students : list Student) :
  forall fx pr,
  (fx = false /\ pr = 6 \/ fx = true /\ pr = 2) ->
  Forall (fun s => marks s = zero_marks) students ->
  Forall (fun s => marks s = zero_marks) (reloaded_roster fx pr students).
Proof.
  induction students as [|s l IH]; intros fx pr Hf H; simpl; constructor.
  - inversion H as [|? ? Hs _]; subst. unfold reloaded. simpl. rewrite Hs.
    destruct Hf as [[-> ->]|[-> ->]]; reflexivity.
  - apply IH; [auto|]. inversion H; assumption.
Qed.

(** X21.  What the CSV import brings in does not survive a restart.  The
    records it appends have five zero marks, and [loadData] computes the
    derived fields from the marks: after [saveData] and [loadData], every
    record of a roster that was imported into an empty roster has
    percentage 0, grade F and GPA 0, whatever percentage, grade and GPA
    the file gave it. *)
Theorem imported_grades_lost_on_reload (calc : IGradeCalculator.t)
    (content : option text) :
  let roster := imported (importFromCSV calc content []) in
  storable_roster false 6 roster ->
  exists loaded,
    loadData gradeCalc (Some (saveData roster)) = Loaded loaded /\
    map rollNo loaded = map rollNo roster /\
    map name loaded = map name roster /\
    Forall (fun s => marks s = zero_marks /\ percentage s = f0 /\
                     grade s = "F"%char /\ gpa s = f0) loaded.
Proof.
  intros roster Hst.
  exists (map (IGradeCalculator.calculateGrade gradeCalc)
              (reloaded_roster false 6 roster)).
  split.
  - unfold loadData, saveData, loadFromFile. rewrite Save.saveToFile_text.
    rewrite (RoundTrip.loadFromFile_loop_text roster false 6 [] default_Student [])
      by auto.
    reflexivity.
  - pose proof (RoundTrip.reloaded_roster_fields roster false 6)
      as (H1 & H2 & _).
    rewrite !map_map. cbn [gradeCalc GradeCalculator.make
      IGradeCalculator.calculateGrade GradeCalculator.calculateGrade
      rollNo name].
    split; [exact H2|]. split; [exact H1|].
    apply Forall_forall. intros s Hs. apply in_map_iff in Hs.
    destruct Hs as (s0 & <- & Hs0).
    pose proof (reloaded_zero_marks roster false 6 ltac:(auto)
                  (imported_zero_marks calc content)) as Hz.
    rewrite Forall_forall in Hz. specialize (Hz s0 Hs0).
    unfold gradeCalc, GradeCalculator.make, IGradeCalculator.calculateGrade,
      GradeCalculator.calculateGrade.
    cbn [marks percentage grade gpa IGradeStrategy.calculateGrade
         IGradeStrategy.calculateGPA DefaultGradeStrategy.strategy].
    rewrite Hz. repeat split.
Qed.

Lemma imported_grades_lost_on_reload_witness :
  imported (importFromCSV gradeCalc (Some example_csv) []) = [ann_as_parsed] /\
  grade ann_as_parsed = "A"%char /\
  exists loaded,
    loadData gradeCalc (Some (saveData [ann_as_parsed])) = Loaded loaded /\
    Forall (fun s => marks s = zero_marks /\ percentage s = f0 /\
                     grade s = "F"%char /\ gpa s = f0) loaded.
Proof.
  split; [reflexivity|]. split; [reflexivity|].
  destruct (imported_grades_lost_on_reload gradeCalc (Some example_csv))
    as (loaded & H1 & _ & _ & H4).
  - change (imported (importFromCSV gradeCalc (Some example_csv) []))
      with [ann_as_parsed].
    unfold ann_as_parsed, zero_marks. RoundTrip.by_evaluation.
  - exists loaded. split; [exact H1|exact H4].
Defined.

End ImportThenReload.

(** ** The class report *)

Module ClassReport.

Import TextReportGenerator.

Lemma report_student_text (s : Student) (cout : ostream) :
  written (report_student s cout)
    = written cout ++ report_line (fixed cout) (precision cout) s /\
  fixed (report_student s cout) = true /\
  precision (report_student s cout) = 2.
Proof.
  destruct cout as [w fx pr]. unfold report_student.
  split; [|split; reflexivity].
  cbn -[print_float print_int txt app calculateAttendancePercentage].
  unfold report_line, tab, FileHandler.newline.
  repeat (rewrite <- app_assoc; cbn [app]). reflexivity.
Qed.

Lemma generateReport_loop_lines (cls : string) (students : list Student) :
  forall cout found,
  let members := filter (fun s => String.eqb (studentClass s) cls) students in
  let out := generateReport_loop cls students cout found in
  written (fst out)
    = written cout ++ report_lines (fixed cout) (precision cout) members /\
  snd out = (found || match members with [] => false | _ => true end)%bool /\
  (members = [] -> fst out = cout) /\
  (members <> [] -> fixed (fst out) = true /\ precision (fst out) = 2).
Proof.
  induction students as [|s l IH]; intros cout found; simpl.
  - rewrite app_nil_r, orb_false_r. repeat split; congruence.
  - destruct (String.eqb (studentClass s) cls); [|apply IH].
    destruct (report_student_text s cout) as (H1 & H2 & H3).
    destruct (IH (report_student s cout) true) as (I1 & I2 & I3 & I4).
    cbv zeta in I1, I2, I3, I4. cbn [report_lines].
    rewrite I1, I2, H1, H2, H3, <- app_assoc, orb_true_r.
    repeat split; try discriminate.
    + destruct (filter (fun s0 => String.eqb (studentClass s0) cls) l) eqn:E.
      * rewrite (I3 eq_refl). exact H2.
      * apply I4. discriminate.
    + destruct (filter (fun s0 => String.eqb (studentClass s0) cls) l) eqn:E.
      * rewrite (I3 eq_refl). exact H3.
      * apply I4. discriminate.
Qed.

Lemma attendance_not_nan (s : Student) :
  Z.of_nat (List.length (attendanceRecords s)) < 2 ^ 24 ->
  calculateAttendancePercentage s <> S754_nan.
Proof.
  unfold calculateAttendancePercentage. intros H.
  destruct (attendanceRecords s) as [|r l] eqn:E; [discriminate|].
  apply share_not_nan.
  - unfold count_if.
    pose proof (filter_length_le
                  (fun r0 => String.eqb (status r0) "Present"%string) (r :: l)).
    lia.
  - cbn [List.length] in *. lia.
Qed.

(** X22.  For members of the class whose percentage and GPA are numbers
    (no NaN) and whose ledgers have fewer than [2 ^ 24] entries:  after its
    prompt, [generateReport] prints one line for each student whose class
    is the one entered, in the order of the roster, and nothing for the
    others; when there is none it prints the notice that no students were
    found in the class instead.  The attendance and the GPA are always
    printed with two decimals; the percentage of the first line is printed
    in the format [cout] was in, the percentages of the later lines with
    two decimals, and [cout] stays in fixed notation with two decimals
    once a line was printed.  The attendance percentage printed is a
    number. *)
Theorem generateReport_lines (cls : string) (students : list Student)
    (cout : ostream) :
  let members := filter (fun s => String.eqb (studentClass s) cls) students in
  Forall reportable members ->
  let out := ExtendedStudentOperations.generateClassReport cls students cout in
  written out
    = written cout ++ txt "Enter class to view report: "
      ++ match members with
         | [] => txt "No students found in class " ++ txt cls ++ ["010"%char]
         | _ => report_lines (fixed cout) (precision cout) members
         end /\
  (members = [] -> fixed out = fixed cout /\ precision out = precision cout) /\
  (members <> [] -> fixed out = true /\ precision out = 2) /\
  Forall (fun s => calculateAttendancePercentage s <> S754_nan) members.
Proof.
  intros members Hrep out.
  assert (Hatt : Forall (fun s => calculateAttendancePercentage s <> S754_nan)
                        members).
  { eapply Forall_impl; [|exact Hrep].
    intros s (_ & _ & H). apply attendance_not_nan. exact H. }
  clear Hrep. subst out.
  unfold ExtendedStudentOperations.generateClassReport, generateReport.
  pose proof (generateReport_loop_lines cls students
                (put_string "Enter class to view report: " cout) false)
    as (H1 & H2 & H3 & H4).
  cbv zeta in H1, H2, H3, H4. fold members in H1, H2, H3, H4.
  destruct (generateReport_loop cls students
              (put_string "Enter class to view report: " cout) false)
    as [cout' found].
  cbn [fst snd] in *. subst found. cbn [orb].
  destruct members as [|m ms].
  - rewrite (H3 eq_refl). destruct cout as [w fx pr].
    cbn -[txt app]. unfold FileHandler.newline.
    repeat (rewrite <- app_assoc; cbn [app]).
    repeat split; congruence.
  - rewrite H1. destruct cout as [w fx pr]. cbn -[txt app report_lines].
    rewrite <- app_assoc.
    split; [reflexivity|]. split; [discriminate|].
    split; [intros _; apply H4; discriminate|exact Hatt].
Qed.

Lemma generateReport_lines_witness :
  let roster := [example_student "Ann" 1 "X" 70; example_student "Bob" 2 "Y" 85;
                 example_student "Cy" 3 "X" 95] in
  written (ExtendedStudentOperations.generateClassReport "X" roster new_ostream)
    = txt "Enter class to view report: "
      ++ txt "1" ++ "009"%char :: txt "Ann" ++ "009"%char :: txt "C"
      ++ "009"%char :: txt "70%" ++ "009"%char :: txt "2.00" ++ "009"%char
      :: txt "0.00%" ++ "010"%char
      :: txt "3" ++ "009"%char :: txt "Cy" ++ "009"%char :: txt "A"
      ++ "009"%char :: txt "95.00%" ++ "009"%char :: txt "4.00" ++ "009"%char
      :: txt "0.00%" ++ ["010"%char].
Proof.
  intros roster.
  refine (eq_trans (proj1 (generateReport_lines "X" roster new_ostream _)) _).
  - repeat constructor; intros H; vm_compute in H; discriminate H.
  - vm_compute. reflexivity.
Defined.

End ClassReport.

(** ** The name of a backup *)

Module Backup.

Import ExtendedStudentOperations.

Lemma in_range_nat (v lo hi : Z) :
  lo <= v < hi -> 0 <= lo ->
  In v (map Z.of_nat (seq (Z.to_nat lo) (Z.to_nat (hi - lo)))).
Proof.
  intros H Hlo. apply in_map_iff. exists (Z.to_nat v). split; [lia|].
  apply in_seq. lia.
Qed.

Lemma number2_length (v : Z) : 0 <= v < 100 -> List.length (number2 v) = 2%nat.
Proof.
  intros H.
  assert (E : forallb (fun v => Nat.eqb (List.length (number2 v)) 2)
                (map Z.of_nat (seq (Z.to_nat 0) (Z.to_nat (100 - 0)))) = true)
    by (vm_compute; reflexivity).
  rewrite forallb_forall in E. apply Nat.eqb_eq. apply E.
  apply in_range_nat; lia.
Qed.

Lemma digits_fuel_length (k : nat) :
  forall (fuel : nat) (n : Z) (acc : text),
  10 ^ Z.of_nat k <= n < 10 ^ Z.of_nat (S k) -> (k < fuel)%nat ->
  List.length (digits_fuel fuel n acc) = (S k + List.length acc)%nat.
Proof.
  induction k as [|k IH]; intros fuel n acc Hn Hf;
    (destruct fuel as [|fuel]; [lia|]); simpl digits_fuel.
  - change (10 ^ Z.of_nat 1) with 10 in Hn.
    replace (n <? 10) with true by (symmetry; apply Z.ltb_lt; lia).
    reflexivity.
  - rewrite !Nat2Z.inj_succ, !Z.pow_succ_r in Hn by lia.
    pose proof (Z.pow_pos_nonneg 10 (Z.of_nat k) ltac:(lia) ltac:(lia)) as Hp.
    replace (n <? 10) with false by (symmetry; apply Z.ltb_ge; lia).
    rewrite IH; [simpl; lia| |lia].
    rewrite Nat2Z.inj_succ, Z.pow_succ_r by lia. split.
    + apply Z.div_le_lower_bound; lia.
    + apply Z.div_lt_upper_bound; lia.
Qed.

Lemma year_length (y : Z) :
  1000 <= y < 10000 -> List.length (print_int y) = 4%nat.
Proof.
  intros H. unfold print_int.
  replace (y <? 0) with false by (symmetry; apply Z.ltb_ge; lia).
  unfold print_unsigned. apply (digits_fuel_length 3).
  - simpl. lia.
  - pose proof (Z.log2_le_mono 1000 y ltac:(lia)) as Hl.
    change (Z.log2 1000) with 9 in Hl. lia.
Qed.

Lemma number2_value (v : Z) : 0 <= v -> digits_value (number2 v) 0 = v.
Proof.
  intros H. unfold number2.
  replace (v <? 0) with false by (symmetry; apply Z.ltb_ge; lia).
  destruct (print_unsigned_spec v H) as (_ & _ & Hv).
  destruct (v <? 10); [|exact Hv].
  cbn [digits_value]. exact Hv.
Qed.

Lemma year_value (y : Z) : 0 <= y -> digits_value (print_int y) 0 = y.
Proof.
  intros H. unfold print_int.
  replace (y <? 0) with false by (symmetry; apply Z.ltb_ge; lia).
  apply print_unsigned_spec. exact H.
Qed.

Lemma app_same_length {A : Type} (a a' b b' : list A) :
  List.length a = List.length a' -> a ++ b = a' ++ b' -> a = a' /\ b = b'.
Proof.
  revert a'. induction a as [|x a IH]; intros [|x' a'] Hl H; simpl in *;
    try discriminate; [auto|].
  inversion H; subst. destruct (IH a' ltac:(lia) H2) as [-> ->]. auto.
Qed.

(** X23.  The name [backupData] gives a backup is [backup_], the year,
    month, day, an underscore, hour, minute, second and [.txt]: 26
    characters for a local time in a year of four digits.  Two backups
    made at different local times get different names, so a backup
    replaces an earlier one only when both are made within the same
    second of local time.  The content of a backup is what [saveData]
    writes for the roster. *)
Theorem backup_names (a b : tm) (students : list Student) :
  local_time a -> local_time b ->
  String.length (fst (backupData a students)) = 26%nat /\
  (fst (backupData a students) = fst (backupData b students) -> a = b) /\
  snd (backupData a students) = StudentOperations.saveData students.
Proof.
  intros (Ay & Amo & Ad & Ah & Ami & As) (By & Bmo & Bd & Bh & Bmi & Bs).
  assert (L : forall t, local_time t ->
            List.length (print_int (tm_year t + 1900)) = 4%nat /\
            List.length (number2 (tm_mon t + 1)) = 2%nat /\
            List.length (number2 (tm_mday t)) = 2%nat /\
            List.length (number2 (tm_hour t)) = 2%nat /\
            List.length (number2 (tm_min t)) = 2%nat /\
            List.length (number2 (tm_sec t)) = 2%nat).
  { intros t (Ty & Tmo & Td & Th & Tmi & Ts).
    repeat split; [apply year_length|..]; try apply number2_length; lia. }
  destruct (L a) as (La1 & La2 & La3 & La4 & La5 & La6);
    [repeat split; lia|].
  destruct (L b) as (Lb1 & Lb2 & Lb3 & Lb4 & Lb5 & Lb6);
    [repeat split; lia|].
  cbn [fst snd backupData]. split; [|split; [|reflexivity]].
  - assert (E : forall t, String.length (string_of_list_ascii t) = List.length t).
    { induction t as [|c t IH]; simpl; auto. }
    rewrite E. unfold strftime_backup.
    rewrite !length_app. cbn [List.length]. rewrite !length_app.
    rewrite La1, La2, La3, La4, La5, La6. reflexivity.
  - intros H.
    apply (f_equal list_ascii_of_string) in H.
    rewrite !list_ascii_of_string_of_list_ascii in H.
    unfold strftime_backup in H.
    apply app_inv_head in H.
    apply app_same_length in H; [|congruence]. destruct H as [Hy H].
    apply app_same_length in H; [|congruence]. destruct H as [Hmo H].
    apply app_same_length in H; [|congruence]. destruct H as [Hd H].
    inversion H as [H']. clear H.
    apply app_same_length in H'; [|congruence]. destruct H' as [Hh H].
    apply app_same_length in H; [|congruence]. destruct H as [Hmi H].
    apply app_same_length in H; [|congruence]. destruct H as [Hs _].
    apply (f_equal (fun t => digits_value t 0)) in Hy, Hmo, Hd, Hh, Hmi, Hs.
    rewrite !year_value in Hy by lia.
    rewrite !number2_value in Hmo, Hd, Hh, Hmi, Hs by lia.
    destruct a, b. simpl in *. f_equal; lia.
Qed.

Lemma backup_names_witness :
  let t := {| tm_sec := 9; tm_min := 4; tm_hour := 3; tm_mday := 5;
              tm_mon := 0; tm_year := 124 |} in
  fst (backupData t []) = "backup_20240105_030409.txt"%string /\
  String.length (fst (backupData t [])) = 26%nat.
Proof.
  intros t. split; [reflexivity|].
  apply (backup_names t t []); repeat split; simpl; lia.
Defined.

End Backup.

(** ** The library's sort on a small roster *)

Module SmallRoster.

Lemma sort_small {A : Type} (comp : A -> A -> bool) (x : A) (R : list A) :
  (List.length (x :: R) <= 16)%nat ->
  Libstdcxx.sort A comp (x :: R)
    = fold_left (fun P val => insertion_step comp val P) R [x].
Proof.
  intros H. unfold Libstdcxx.sort.
  rewrite GnuSort.introsort_loop_small by lia.
  unfold Libstdcxx.final_insertion_sort.
  replace (Nat.ltb Libstdcxx.threshold (List.length (x :: R) - 0)) with false
    by (symmetry; apply Nat.ltb_ge; unfold Libstdcxx.threshold; lia).
  unfold Libstdcxx.insertion_sort. cbn [List.length Nat.eqb].
  replace (S (List.length R) - 1)%nat with (List.length R) by lia.
  pose proof (GnuSort.insertion_sort_loop_steps comp x R [x] x [] [] eq_refl)
    as E.
  rewrite !app_nil_r in E. exact E.
Qed.

Section ByRoll.

Import StudentOperations.

Local Notation "'ascending'" :=
  (StronglySorted (fun a b : Student => rollNo a <= rollNo b)).
Local Notation "'descending'" :=
  (StronglySorted (fun a b : Student => rollNo b <= rollNo a)).

Lemma insert_from_right_facts (val : Student) (rP : list Student) :
  descending rP ->
  descending (insert_from_right by_roll val rP) /\
  Permutation (val :: rP) (insert_from_right by_roll val rP) /\
  forall k, filter (has_roll k) (insert_from_right by_roll val rP)
            = filter (has_roll k) (val :: rP).
Proof.
  induction 1 as [|y r Hr IH Hy]; simpl.
  - repeat split; auto. constructor; constructor.
  - destruct IH as (I1 & I2 & I3). unfold by_roll at 1 3 5.
    destruct (rollNo val <? rollNo y) eqn:E.
    + apply Z.ltb_lt in E. repeat split.
      * constructor; [exact I1|].
        eapply Permutation_Forall; [exact I2|].
        constructor; [lia|exact Hy].
      * eapply Permutation_trans; [apply perm_swap|].
        apply perm_skip. exact I2.
      * intros k. simpl. rewrite I3. simpl. unfold has_roll.
        destruct (rollNo y =? k) eqn:Ey, (rollNo val =? k) eqn:Ev;
          try reflexivity.
        apply Z.eqb_eq in Ey, Ev. lia.
    + apply Z.ltb_ge in E. repeat split; auto.
      constructor; [constructor; assumption|].
      constructor; [exact E|].
      eapply Forall_impl; [|exact Hy]. simpl. intros; lia.
Qed.

Lemma descending_last (a : list Student) (z : Student) :
  descending (a ++ [z]) -> Forall (fun b => rollNo z <= rollNo b) a.
Proof.
  induction a as [|y a IH]; simpl; intros H; [constructor|].
  inversion H as [|? ? Ha Hy]; subst. constructor; [|auto].
  rewrite Forall_app in Hy. destruct Hy as [_ Hz]. inversion Hz; assumption.
Qed.

Lemma insert_from_right_all (val : Student) (rP : list Student) :
  Forall (fun y => rollNo val < rollNo y) rP ->
  insert_from_right by_roll val rP = rP ++ [val].
Proof.
  induction 1 as [|y r Hy _ IH]; simpl; [reflexivity|].
  unfold by_roll at 1. apply Z.ltb_lt in Hy. rewrite Hy, IH. reflexivity.
Qed.

(** On a sorted prefix, the turn that moves the whole prefix and the turn
    that scans from the right come to the same. *)
Lemma insertion_step_sorted (val : Student) (P : list Student) :
  descending (rev P) ->
  insertion_step by_roll val P = rev (insert_from_right by_roll val (rev P)).
Proof.
  intros H. destruct P as [|p0 P']; [reflexivity|]. cbn [insertion_step].
  destruct (by_roll val p0) eqn:E; [|reflexivity].
  unfold by_roll in E. apply Z.ltb_lt in E.
  rewrite insert_from_right_all.
  - rewrite rev_app_distr, rev_involutive. reflexivity.
  - simpl in H. pose proof (descending_last _ _ H) as Hall.
    simpl. apply Forall_app. split.
    + eapply Forall_impl; [|exact Hall]. simpl. intros; lia.
    + constructor; [exact E|constructor].
Qed.

Lemma insertion_steps_sorted (R : list Student) :
  forall P,
  descending (rev P) ->
  let sorted := fold_left (fun P val => insertion_step by_roll val P) R P in
  descending (rev sorted) /\ Permutation (P ++ R) sorted /\
  forall k, filter (has_roll k) sorted = filter (has_roll k) (P ++ R).
Proof.
  induction R as [|val R IH]; intros P HP; cbn [fold_left].
  - rewrite app_nil_r. auto.
  - rewrite (insertion_step_sorted val P HP).
    destruct (insert_from_right_facts val (rev P) HP) as (F1 & F2 & F3).
    destruct (IH (rev (insert_from_right by_roll val (rev P)))) as (I1 & I2 & I3).
    { rewrite rev_involutive. exact F1. }
    cbv zeta in I1, I2, I3. split; [exact I1|]. split.
    + eapply Permutation_trans; [|exact I2].
      change (P ++ val :: R) with (P ++ [val] ++ R). rewrite app_assoc.
      apply Permutation_app_tail.
      eapply Permutation_trans; [|apply Permutation_rev].
      eapply Permutation_trans; [|exact F2].
      eapply Permutation_trans; [apply Permutation_app_comm|]. simpl.
      apply perm_skip. apply Permutation_rev.
    + intros k. rewrite I3, !filter_app, filter_rev, F3. simpl.
      destruct (has_roll k val); simpl;
        rewrite filter_rev, ?rev_app_distr, rev_involutive, <- ?app_assoc;
        reflexivity.
Qed.

End ByRoll.

(** X24.  With the [std::sort] of the GNU library, [sortStudents] on a
    roster of at most sixteen records is an insertion sort: the result is
    the roster in ascending order of roll number, and records with the
    same roll number keep the order they had.  (For seventeen records
    this fails, see C3.) *)
Theorem gnu_sort_stable_up_to_16 (students : list Student) :
  (List.length students <= 16)%nat ->
  let sorted := fst (StudentOperations.sortStudents Libstdcxx.sort students) in
  Permutation students sorted /\
  StronglySorted (fun a b => rollNo a <= rollNo b) sorted /\
  stable_by_roll students sorted.
Proof.
  intros Hlen sorted. subst sorted. unfold StudentOperations.sortStudents.
  cbn [fst]. destruct students as [|x R].
  - repeat split; constructor.
  - rewrite (sort_small StudentOperations.by_roll x R Hlen).
    destruct (insertion_steps_sorted R [x]) as (H1 & H2 & H3).
    { simpl. constructor; constructor. }
    cbv zeta in H1, H2, H3. split; [exact H2|]. split.
    + apply GnuSort.sorted_rev in H1. rewrite rev_involutive in H1. exact H1.
    + intros roll. apply H3.
Qed.

Lemma gnu_sort_stable_up_to_16_witness :
  let roster := [example_student "A" 7 "X" 70; example_student "B" 3 "X" 85;
                 example_student "C" 7 "X" 60; example_student "D" 3 "X" 50] in
  fst (StudentOperations.sortStudents Libstdcxx.sort roster)
    = [example_student "B" 3 "X" 85; example_student "D" 3 "X" 50;
       example_student "A" 7 "X" 70; example_student "C" 7 "X" 60] /\
  stable_by_roll roster
    (fst (StudentOperations.sortStudents Libstdcxx.sort roster)).
Proof.
  intros roster. split; [vm_compute; reflexivity|].
  apply (gnu_sort_stable_up_to_16 roster). simpl. lia.
Defined.

End SmallRoster.

(** ** Whole-number marks *)

Module WholeMarks.

Import StudentOperations ExtendedStudentOperations.

Lemma sum_exact_eq (x y : nat) :
  sum_exact x y = true ->
  F32.add (F32.of_Z (Z.of_nat x)) (F32.of_Z (Z.of_nat y))
    = F32.of_Z (Z.of_nat (x + y)).
Proof. unfold sum_exact. apply same_float_eq. Qed.

Lemma graded_by_sum_eq (sum : nat) :
  graded_by_sum sum = true ->
  let p := F32.div (F32.of_Z (Z.of_nat sum)) f5 in
  DefaultGradeStrategy.calculateGrade p = letter_for (Z.of_nat sum) /\
  DefaultGradeStrategy.calculateGPA p = points_for (Z.of_nat sum).
Proof.
  unfold graded_by_sum. intros H. apply andb_prop in H. destruct H as [Hg Hp].
  apply Ascii.eqb_eq in Hg. apply same_float_eq in Hp. split; assumption.
Qed.

(** The 401 x 101 sums and the 501 totals, each one evaluated. *)
Lemma sums_checked :
  forallb (fun x => forallb (sum_exact x) (seq 0 101)) (seq 0 401) = true.
Proof. vm_compute. reflexivity. Qed.

Lemma totals_checked : forallb graded_by_sum (seq 0 501) = true.
Proof. vm_compute. reflexivity. Qed.

(** No rounding happens while the five marks are summed. *)
Lemma add_whole (x y : Z) :
  0 <= x <= 400 -> 0 <= y <= 100 ->
  F32.add (F32.of_Z x) (F32.of_Z y) = F32.of_Z (x + y).
Proof.
  intros Hx Hy.
  rewrite <- (Z2Nat.id x), <- (Z2Nat.id y) by lia.
  rewrite <- Nat2Z.inj_add. apply sum_exact_eq.
  pose proof sums_checked as H. rewrite forallb_forall in H.
  specialize (H (Z.to_nat x)). rewrite forallb_forall in H.
  apply H; apply in_seq; lia.
Qed.

Lemma total_whole (a b c d e : Z) :
  0 <= a <= 100 -> 0 <= b <= 100 -> 0 <= c <= 100 -> 0 <= d <= 100 ->
  0 <= e <= 100 ->
  GradeCalculator.total (marks_of a b c d e) = F32.of_Z (a + b + c + d + e).
Proof.
  intros Ha Hb Hc Hd He. unfold GradeCalculator.total, marks_of, marks_list.
  cbn [fold_left mark0 mark1 mark2 mark3 mark4].
  change f0 with (F32.of_Z 0).
  rewrite !add_whole by lia. reflexivity.
Qed.

Lemma graded_whole (sum : Z) :
  0 <= sum <= 500 ->
  let p := F32.div (F32.of_Z sum) f5 in
  DefaultGradeStrategy.calculateGrade p = letter_for sum /\
  DefaultGradeStrategy.calculateGPA p = points_for sum.
Proof.
  intros Hs. rewrite <- (Z2Nat.id sum) by lia.
  apply graded_by_sum_eq.
  pose proof totals_checked as H. rewrite forallb_forall in H.
  apply H. apply in_seq. lia.
Qed.

(** X25.  When each of the five marks is a whole number from 0 to 100,
    grading involves no rounding surprise: the sum of the marks is exact,
    the percentage is that sum divided by 5 (rounded once), and the
    default strategy gives A from a sum of 450, B from 400, C from 350,
    D from 300 and F below, with 4, 3, 2, 1 and 0 grade points; entering
    such marks for a roll number on the roster reports that letter. *)
Theorem whole_marks_graded_by_sum (a b c d e : Z) :
  0 <= a <= 100 -> 0 <= b <= 100 -> 0 <= c <= 100 -> 0 <= d <= 100 ->
  0 <= e <= 100 ->
  (forall s : Student,
     let graded := GradeCalculator.calculateGrade DefaultGradeStrategy.strategy
                     (set_marks (marks_of a b c d e) s) in
     percentage graded = F32.div (F32.of_Z (a + b + c + d + e)) f5 /\
     grade graded = letter_for (a + b + c + d + e) /\
     gpa graded = points_for (a + b + c + d + e)) /\
  (forall (roll : Z) (students : list Student),
     Exists (fun s => rollNo s = roll) students ->
     snd (enterMarks (GradeCalculator.make DefaultGradeStrategy.strategy)
            roll (marks_of a b c d e) students)
       = MarksUpdated (letter_for (a + b + c + d + e))).
Proof.
  intros Ha Hb Hc Hd He.
  assert (Hrec : forall s : Student,
     let graded := GradeCalculator.calculateGrade DefaultGradeStrategy.strategy
                     (set_marks (marks_of a b c d e) s) in
     percentage graded = F32.div (F32.of_Z (a + b + c + d + e)) f5 /\
     grade graded = letter_for (a + b + c + d + e) /\
     gpa graded = points_for (a + b + c + d + e)).
  { intros s. cbv zeta.
    unfold GradeCalculator.calculateGrade.
    cbn [percentage grade gpa marks set_marks].
    rewrite total_whole by assumption.
    destruct (graded_whole (a + b + c + d + e) ltac:(lia)) as [Hg Hp].
    split; [reflexivity|]. split; assumption. }
  split; [exact Hrec|].
  intros roll students Hex. unfold enterMarks.
  pose proof (Search.nth_error_find_if (has_roll roll) students) as Hfind.
  destruct (nth_error students (find_if (has_roll roll) students)) as [s|].
  - cbn [snd]. f_equal. exact (proj1 (proj2 (Hrec s))).
  - exfalso. apply Search.no_roll_forallb in Hfind.
    rewrite Forall_forall in Hfind. apply Exists_exists in Hex.
    destruct Hex as (s & Hin & Hs). exact (Hfind s Hin Hs).
Qed.

Lemma whole_marks_graded_by_sum_witness :
  snd (enterMarks (GradeCalculator.make DefaultGradeStrategy.strategy)
         1 (marks_of 90 90 90 90 89) [example_student "A" 1 "X" 70])
    = MarksUpdated "B"%char.
Proof.
  refine (proj2 (whole_marks_graded_by_sum 90 90 90 90 89
                   ltac:(lia) ltac:(lia) ltac:(lia) ltac:(lia) ltac:(lia))
            1 [example_student "A" 1 "X" 70] _).
  constructor. reflexivity.
Defined.

End WholeMarks.

(** ** The topper of a sorted roster *)

Module SortedTopper.

Import StudentOperations ExtendedStudentOperations.

Lemma sorted_nth_error {A : Type} (R : A -> A -> Prop) (l : list A) :
  StronglySorted R l ->
  forall i j a b, (i < j)%nat ->
  nth_error l i = Some a -> nth_error l j = Some b -> R a b.
Proof.
  induction 1 as [|x l Hl IH Hx]; intros i j a b Hij Ha Hb.
  - destruct i; discriminate.
  - destruct j as [|j]; [lia|]. simpl in Hb. destruct i as [|i].
    + simpl in Ha. injection Ha as <-.
      rewrite Forall_forall in Hx. apply Hx. eapply nth_error_In. exact Hb.
    + simpl in Ha. apply (IH i j); auto. lia.
Qed.

(** X26.  After the roster has been sorted, the topper of a class is a
    record of the class that no record of the class exceeds, and among
    the records of the class that reach its percentage it has the lowest
    roll number. *)
Theorem topper_after_sort (std_sort : std_sort_t) (cls : string)
    (students : list Student) (i : nat) :
  conforming std_sort ->
  let sorted := fst (sortStudents std_sort students) in
  findTopper cls sorted = Some i ->
  exists s, nth_error sorted i = Some s /\ In s students /\
    in_class cls s = true /\
    (forall t, In t students -> in_class cls t = true ->
               F32.gtb (percentage t) (percentage s) = false) /\
    (forall t, In t students -> in_class cls t = true ->
               F32.geb (percentage t) (percentage s) = true ->
               rollNo s <= rollNo t).
Proof.
  intros Hsort sorted Htop.
  destruct (DistinctRolls.sortStudents_contract std_sort students Hsort)
    as [Hperm Hord].
  fold sorted in Hperm, Hord.
  destruct (Topper.findTopper_loop_scanned cls sorted [] fminus1 None) as [m H].
  { simpl. split; [reflexivity|]. intros t []. }
  simpl in H. fold (findTopper cls sorted) in H. rewrite Htop in H.
  destruct H as (s & Hs & Hcls & _ & _ & Hmax & Hfirst).
  exists s. split; [exact Hs|]. split.
  { eapply Permutation_in; [apply Permutation_sym; exact Hperm|].
    eapply nth_error_In. exact Hs. }
  split; [exact Hcls|]. split.
  - intros t Hin Ht. apply Hmax; auto. eapply Permutation_in; eauto.
  - intros t Hin Ht Hge.
    assert (Hin' : In t sorted) by (eapply Permutation_in; eauto).
    apply In_nth_error in Hin'. destruct Hin' as [j Hj].
    destruct (Nat.lt_ge_cases j i) as [Hlt|Hle].
    + rewrite (Hfirst j t Hlt Hj Ht) in Hge. discriminate.
    + destruct (Nat.eq_dec i j) as [->|Hne].
      * rewrite Hs in Hj. injection Hj as ->. lia.
      * apply (sorted_nth_error _ sorted Hord i j); auto. lia.
Qed.

Lemma topper_after_sort_witness :
  let roster := [example_student "A" 7 "X" 85; example_student "B" 3 "X" 85;
                 example_student "C" 5 "X" 60] in
  let sorted := fst (sortStudents Libstdcxx.sort roster) in
  exists s, nth_error sorted 0 = Some s /\ In s roster /\
    in_class "X" s = true /\
    (forall t, In t roster -> in_class "X" t = true ->
               F32.gtb (percentage t) (percentage s) = false) /\
    (forall t, In t roster -> in_class "X" t = true ->
               F32.geb (percentage t) (percentage s) = true ->
               rollNo s <= rollNo t).
Proof.
  intros roster.
  apply (topper_after_sort Libstdcxx.sort "X" roster 0 GnuSort.sort_conforming).
  reflexivity.
Defined.

End SortedTopper.
